(** * ai-context: hybrid code-search store, BM25 vectoriser, registry, embedder retry

    A shallow embedding of the parts of the TypeScript sources that the
    specification's testable properties talk about:

    - [JsMap]    : the insertion-ordered [Map] of JavaScript;
    - [Js]       : the string and array functions the sources call (ASCII
                   text), the stable [Array.prototype.sort], [x || default];
    - [Regex]    : the three regular expressions of the filter parsers, with
                   a backtracking matcher;
    - [Registry] : [FakeSnapshotManager] (mcp/test/doubles);
    - [Retry]    : [GeminiEmbedding.isRetryableError], [executeWithRetry],
                   [embed], [embedBatch] (embedding/gemini-embedding.ts);
    - [BM25]     : [SimpleBM25.tokenize], [calculateTermFrequency], [generate]
                   (vectordb/sparse/simple-bm25.ts);
    - [LibSQL]   : [LibSQLVectorDatabase.insert], [delete], [query], [search],
                   [hybridSearch], [performDenseSearch], [performSparseSearch],
                   [applyRRF], [computeRanks], [parseFilterExpression]
                   (vectordb/libsql-vectordb.ts);
    - [Qdrant]   : [QdrantVectorDatabase.parseFilterExpression], [search],
                   [query] and [hybridSearch] up to the request sent to the
                   client (vectordb/qdrant-vectordb.ts).

    JavaScript [number]s that carry scores and weights are modelled by exact
    rationals [Q]: rounding, [NaN] and the infinities of IEEE doubles are not
    modelled.  Counters, line numbers and HTTP status codes are [Z]; lengths,
    limits and array positions are [nat].  What lies outside the repository
    (the SQL engine, the Qdrant client, the embedding provider, [Math.sqrt],
    the clock) enters as a parameter of the definitions that use it.  A call
    that may throw returns a [Js.result]; [console.warn] lines are returned
    next to the value. *)

From Stdlib Require Import List String Ascii Bool Arith ZArith QArith Lia Lqa.
From Stdlib Require Import Permutation Sorted NArith DecimalString.
Import ListNotations.

Set Implicit Arguments.
Set Warnings "-register-all".

(** ** Key equality *)

Class Eqb (K : Type) := {
eqb : K -> K -> bool;
eqb_eq : forall x y, eqb x y = true <-> x = y
}.

#[global] Instance Eqb_string : Eqb string :=
{| eqb := String.eqb; eqb_eq := String.eqb_eq |}.

#[global] Instance Eqb_nat : Eqb nat :=
{| eqb := Nat.eqb; eqb_eq := Nat.eqb_eq |}.

(** ** JavaScript [Map]: a finite map that iterates in insertion order.

  [set] on a key already present replaces the value and keeps the key's
  position; a new key goes to the end. *)

Module JsMap.
Section Defs.
Context {K V : Type} `{Eqb K}.

Definition t := list (K * V).

Definition empty : t := [].

Fixpoint get (m : t) (k : K) : option V :=
  match m with
  | [] => None
  | (k', v) :: m' => if eqb k' k then Some v else get m' k
  end.

Fixpoint set (m : t) (k : K) (v : V) : t :=
  match m with
  | [] => [(k, v)]
  | (k', v') :: m' =>
      if eqb k' k then (k', v) :: m' else (k', v') :: set m' k v
  end.

Definition delete (m : t) (k : K) : t :=
  filter (fun kv => negb (eqb (fst kv) k)) m.

Definition has (m : t) (k : K) : bool :=
  match get m k with Some _ => true | None => false end.

Definition keys (m : t) : list K := map fst m.

Definition entries (m : t) : list (K * V) := m.

End Defs.
Arguments t : clear implicits.
End JsMap.

(** ** The collection registry: [FakeSnapshotManager] *)

Module Registry.

Inductive IndexStatus := completed | limit_reached.

Record Stats := {
  indexedFiles : Z;
  totalChunks : Z;
  status : IndexStatus
}.

(** [CodebaseInfo], a union tagged by its [status] field. *)
Inductive CodebaseInfo :=
| CodebaseInfoIndexing (indexingPercentage : Z) (lastUpdated : string)
| CodebaseInfoIndexed (indexedFiles totalChunks : Z) (indexStatus : IndexStatus)
                      (lastUpdated : string)
| CodebaseInfoIndexFailed (errorMessage : string)
                          (lastAttemptedPercentage : option Z)
                          (lastUpdated : string).

Inductive StatusTag := st_indexed | st_indexing | st_indexfailed | st_not_found.

Definition info_status (i : CodebaseInfo) : StatusTag :=
  match i with
  | CodebaseInfoIndexing _ _ => st_indexing
  | CodebaseInfoIndexed _ _ _ _ => st_indexed
  | CodebaseInfoIndexFailed _ _ _ => st_indexfailed
  end.

(** The four private fields of the class. *)
Record State := {
  indexedCodebases : list string;
  indexingCodebases : JsMap.t string Z;
  codebaseFileCount : JsMap.t string Z;
  codebaseInfoMap : JsMap.t string CodebaseInfo
}.

Definition initial : State :=
  {| indexedCodebases := []; indexingCodebases := JsMap.empty;
     codebaseFileCount := JsMap.empty; codebaseInfoMap := JsMap.empty |}.

Definition includes (l : list string) (p : string) : bool :=
  existsb (fun q => String.eqb q p) l.

Definition getIndexedCodebases (s : State) : list string := indexedCodebases s.

Definition getIndexingCodebases (s : State) : list string :=
  JsMap.keys (indexingCodebases s).

Definition getIndexingProgress (s : State) (p : string) : option Z :=
  JsMap.get (indexingCodebases s) p.

Definition getCodebaseInfo (s : State) (p : string) : option CodebaseInfo :=
  JsMap.get (codebaseInfoMap s) p.

Definition getCodebaseStatus (s : State) (p : string) : StatusTag :=
  match JsMap.get (codebaseInfoMap s) p with
  | None => st_not_found
  | Some i => info_status i
  end.

Definition getFailedCodebases (s : State) : list string :=
  map fst (filter (fun e => match info_status (snd e) with
                            | st_indexfailed => true | _ => false end)
                  (JsMap.entries (codebaseInfoMap s))).

(** [now] is the value of [new Date().toISOString()] at the call. *)
Definition setCodebaseIndexing (now : string) (p : string) (progress : Z)
           (s : State) : State :=
  {| indexingCodebases := JsMap.set (indexingCodebases s) p progress;
     indexedCodebases :=
       filter (fun q => negb (String.eqb q p)) (indexedCodebases s);
     codebaseFileCount := JsMap.delete (codebaseFileCount s) p;
     codebaseInfoMap :=
       JsMap.set (codebaseInfoMap s) p (CodebaseInfoIndexing progress now) |}.

Definition setCodebaseIndexed (now : string) (p : string) (st : Stats)
           (s : State) : State :=
  {| indexedCodebases :=
       if includes (indexedCodebases s) p then indexedCodebases s
       else indexedCodebases s ++ [p];
     indexingCodebases := JsMap.delete (indexingCodebases s) p;
     codebaseFileCount := JsMap.set (codebaseFileCount s) p (indexedFiles st);
     codebaseInfoMap :=
       JsMap.set (codebaseInfoMap s) p
         (CodebaseInfoIndexed (indexedFiles st) (totalChunks st) (status st) now) |}.

Definition setCodebaseIndexFailed (now : string) (p : string) (msg : string)
           (last : option Z) (s : State) : State :=
  {| indexedCodebases :=
       filter (fun q => negb (String.eqb q p)) (indexedCodebases s);
     indexingCodebases := JsMap.delete (indexingCodebases s) p;
     codebaseFileCount := JsMap.delete (codebaseFileCount s) p;
     codebaseInfoMap :=
       JsMap.set (codebaseInfoMap s) p (CodebaseInfoIndexFailed msg last now) |}.

(** The double keeps everything in memory: persisting is a no-op. *)
Definition saveCodebaseSnapshot (s : State) : State := s.
Definition loadCodebaseSnapshot (s : State) : State := s.

Definition removeCodebaseCompletely (p : string) (s : State) : State :=
  {| indexedCodebases :=
       filter (fun q => negb (String.eqb q p)) (indexedCodebases s);
     indexingCodebases := JsMap.delete (indexingCodebases s) p;
     codebaseFileCount := JsMap.delete (codebaseFileCount s) p;
     codebaseInfoMap := JsMap.delete (codebaseInfoMap s) p |}.

(** Unlike [removeCodebaseCompletely], this one does not touch
    [indexingCodebases]. *)
Definition removeIndexedCodebase (p : string) (s : State) : State :=
  {| indexedCodebases :=
       filter (fun q => negb (String.eqb q p)) (indexedCodebases s);
     indexingCodebases := indexingCodebases s;
     codebaseFileCount := JsMap.delete (codebaseFileCount s) p;
     codebaseInfoMap := JsMap.delete (codebaseInfoMap s) p |}.

Definition reset (s : State) : State := initial.

(** *** Histories of a registry

    A call of one of the public methods that can change the state; a
    registry is what a list of calls makes of a new instance. *)
Inductive Call :=
| CallSetCodebaseIndexing (now p : string) (progress : Z)
| CallSetCodebaseIndexed (now p : string) (st : Stats)
| CallSetCodebaseIndexFailed (now p : string) (errorMessage : string)
                             (lastAttemptedPercentage : option Z)
| CallRemoveCodebaseCompletely (p : string)
| CallRemoveIndexedCodebase (p : string)
| CallReset
| CallSaveCodebaseSnapshot
| CallLoadCodebaseSnapshot.

Definition perform (s : State) (c : Call) : State :=
  match c with
  | CallSetCodebaseIndexing now p progress => setCodebaseIndexing now p progress s
  | CallSetCodebaseIndexed now p st => setCodebaseIndexed now p st s
  | CallSetCodebaseIndexFailed now p msg last => setCodebaseIndexFailed now p msg last s
  | CallRemoveCodebaseCompletely p => removeCodebaseCompletely p s
  | CallRemoveIndexedCodebase p => removeIndexedCodebase p s
  | CallReset => reset s
  | CallSaveCodebaseSnapshot => saveCodebaseSnapshot s
  | CallLoadCodebaseSnapshot => loadCodebaseSnapshot s
  end.

Definition run (history : list Call) : State := fold_left perform history initial.

(** The codebase path a call is about; [reset] is about all of them. *)
Definition call_touches (c : Call) (q : string) : bool :=
  match c with
  | CallSetCodebaseIndexing _ p _ | CallSetCodebaseIndexed _ p _
  | CallSetCodebaseIndexFailed _ p _ _ | CallRemoveCodebaseCompletely p
  | CallRemoveIndexedCodebase p => String.eqb p q
  | CallReset => true
  | CallSaveCodebaseSnapshot | CallLoadCodebaseSnapshot => false
  end.

Definition is_removeIndexedCodebase (c : Call) : bool :=
  match c with CallRemoveIndexedCodebase _ => true | _ => false end.

(** What the fields say about one and the same codebase agrees. *)
Definition consistent (s : State) : Prop :=
  NoDup (indexedCodebases s)
  /\ NoDup (JsMap.keys (codebaseInfoMap s))
  /\ (forall p, In p (indexedCodebases s) <-> getCodebaseStatus s p = st_indexed)
  /\ (forall p, In p (indexedCodebases s) -> getIndexingProgress s p = None)
  /\ (forall p n, JsMap.get (codebaseFileCount s) p = Some n <->
        exists chunks st t,
          getCodebaseInfo s p = Some (CodebaseInfoIndexed n chunks st t)).

End Registry.

(** ** JavaScript strings (ASCII) *)

Module Js.

Definition lower_ascii (c : ascii) : ascii :=
  let n := nat_of_ascii c in
  if ((65 <=? n) && (n <=? 90))%nat then ascii_of_nat (n + 32) else c.

(** [String.prototype.toLowerCase], on ASCII text. *)
Fixpoint toLowerCase (s : string) : string :=
  match s with
  | EmptyString => EmptyString
  | String c s' => String (lower_ascii c) (toLowerCase s')
  end.

(** [s.includes(pat)]. *)
Fixpoint includes (s pat : string) : bool :=
  if String.prefix pat s then true
  else match s with
       | EmptyString => false
       | String _ s' => includes s' pat
       end.

(** The character classes [\s] and [\w] of regular expressions, on ASCII. *)
Definition is_space (c : ascii) : bool :=
  let n := nat_of_ascii c in
  ((n =? 32) || ((9 <=? n) && (n <=? 13)))%nat.

Definition is_word (c : ascii) : bool :=
  let n := nat_of_ascii c in
  (((48 <=? n) && (n <=? 57)) || ((65 <=? n) && (n <=? 90)) || (n =? 95)
   || ((97 <=? n) && (n <=? 122)))%nat.

Fixpoint map_chars (f : ascii -> ascii) (s : string) : string :=
  match s with
  | EmptyString => EmptyString
  | String c s' => String (f c) (map_chars f s')
  end.

(** [s.split(/\s+/)]: the pieces between maximal runs of white space, the
    empty pieces at either end included. *)
Fixpoint split_ws_from (s : string) (cur : string) (in_sep : bool) : list string :=
  match s with
  | EmptyString => [cur]
  | String c s' =>
      if is_space c then
        if in_sep then split_ws_from s' cur true
        else cur :: split_ws_from s' EmptyString true
      else split_ws_from s' (cur ++ String c EmptyString) false
  end.

Definition split_ws (s : string) : list string := split_ws_from s EmptyString false.

(** The outcome of a call that may [throw]. *)
Inductive result (A : Type) :=
| Ok (a : A)
| Throw (msg : string).
Arguments Ok {A} a.
Arguments Throw {A} msg.

(** [Array.prototype.sort] with a comparator is stable: [stable_sort before]
    puts [x] in front of [y] when [before x y] holds and keeps the order of
    the input otherwise. *)
Fixpoint insert_sorted {A} (before : A -> A -> bool) (x : A) (l : list A) : list A :=
  match l with
  | [] => [x]
  | y :: l' =>
      if before x y then x :: y :: l' else y :: insert_sorted before x l'
  end.

Definition stable_sort {A} (before : A -> A -> bool) (l : list A) : list A :=
  fold_right (insert_sorted before) [] l.

(** The comparator [(a, b) => b.val - a.val]: larger values first. *)
Definition desc {A} (val : A -> Q) (x y : A) : bool := Qle_bool (val y) (val x).

(** The order of [ORDER BY key ASC]: smaller values first. *)
Definition asc {A} (val : A -> Q) (x y : A) : bool := Qle_bool (val x) (val y).

Fixpoint drop_while (p : ascii -> bool) (s : string) : string :=
  match s with
  | EmptyString => EmptyString
  | String c s' => if p c then drop_while p s' else s
  end.

Fixpoint trim_end (s : string) : string :=
  match s with
  | EmptyString => EmptyString
  | String c s' =>
      match trim_end s' with
      | EmptyString => if is_space c then EmptyString else String c EmptyString
      | t => String c t
      end
  end.

(** [s.trim()]. *)
Definition trim (s : string) : string := trim_end (drop_while is_space s).

(** [s.split(sep)] for a one-character separator. *)
Fixpoint split_on_from (sep : ascii) (s : string) (cur : string) : list string :=
  match s with
  | EmptyString => [cur]
  | String c s' =>
      if Ascii.eqb c sep then cur :: split_on_from sep s' EmptyString
      else split_on_from sep s' (cur ++ String c EmptyString)
  end.

Definition split_on (sep : ascii) (s : string) : list string :=
  split_on_from sep s EmptyString.

(** [arr.join(sep)]. *)
Fixpoint join (sep : string) (l : list string) : string :=
  match l with
  | [] => EmptyString
  | [x] => x
  | x :: l' => x ++ sep ++ join sep l'
  end.

(** [s.replace(/[...]/g, "")]: delete the characters of a class. *)
Fixpoint remove_chars (p : ascii -> bool) (s : string) : string :=
  match s with
  | EmptyString => EmptyString
  | String c s' => if p c then remove_chars p s' else String c (remove_chars p s')
  end.

Fixpoint str_take (n : nat) (s : string) : string :=
  match n, s with
  | S n', String c s' => String c (str_take n' s')
  | _, _ => EmptyString
  end.

Fixpoint str_drop (n : nat) (s : string) : string :=
  match n, s with
  | S n', String _ s' => str_drop n' s'
  | _, _ => s
  end.

Fixpoint strip_prefix (p s : string) : option string :=
  match p, s with
  | EmptyString, _ => Some s
  | String a p', String c s' => if Ascii.eqb a c then strip_prefix p' s' else None
  | String _ _, EmptyString => None
  end.

(** [x || d] for an optional count: [undefined] and [0] give the default. *)
Definition or_default (x : option nat) (d : nat) : nat :=
  match x with
  | Some (S n) => S n
  | _ => d
  end.

(** [arr.includes(x)] on an array of strings. *)
Definition arr_includes (l : list string) (x : string) : bool :=
  existsb (String.eqb x) l.

End Js.

(** ** Regular expressions, as far as the filter parsers use them

    A pattern is a sequence of literals and of greedy repetitions of a
    character class, some of them capturing.  [exec] is [s.match(re)] without
    the [g] flag: the leftmost match, found by backtracking from the longest
    repetitions; it yields the capture groups. *)

Module Regex.
Import Js.

Inductive Item :=
| Lit (s : string)
| Rep (cls : ascii -> bool) (lo : nat) (hi : option nat) (capture : bool).

Fixpoint run_length (cls : ascii -> bool) (s : string) : nat :=
  match s with
  | String c s' => if cls c then S (run_length cls s') else O
  | EmptyString => O
  end.

(** Try the counts [k], [k-1], ..., [lo] in this order. *)
Fixpoint try_counts {A} (f : nat -> option A) (lo : nat) (k : nat) : option A :=
  if (k <? lo)%nat then None
  else match f k with
       | Some r => Some r
       | None => match k with
                 | O => None
                 | S k' => try_counts f lo k'
                 end
       end.

Fixpoint match_here (items : list Item) (s : string) : option (list string) :=
  match items with
  | [] => Some []
  | Lit l :: items' =>
      match strip_prefix l s with
      | Some s' => match_here items' s'
      | None => None
      end
  | Rep cls lo hi capture :: items' =>
      let longest :=
        match hi with
        | Some h => Nat.min h (run_length cls s)
        | None => run_length cls s
        end in
      try_counts
        (fun k =>
           match match_here items' (str_drop k s) with
           | Some groups =>
               Some (if capture then str_take k s :: groups else groups)
           | None => None
           end)
        lo longest
  end.

Fixpoint exec (items : list Item) (s : string) : option (list string) :=
  match match_here items s with
  | Some groups => Some groups
  | None => match s with
            | EmptyString => None
            | String _ s' => exec items s'
            end
  end.

(** [.]: any character but a line terminator. *)
Definition dot (c : ascii) : bool :=
  negb ((nat_of_ascii c =? 10) || (nat_of_ascii c =? 13))%nat.

Definition quote (c : ascii) : bool :=
  ((nat_of_ascii c =? 39) || (nat_of_ascii c =? 34))%nat.

(** The pattern [(\w+)\s+in\s+\[(.{0,})\]] (the source writes the last
    repetition with a star). *)
Definition re_in : list Item :=
  [Rep is_word 1 None true; Rep is_space 1 None false; Lit "in";
   Rep is_space 1 None false; Lit "["; Rep dot 0 None true; Lit "]"].

(** [/(\w+)\s*==\s*(.+)/] *)
Definition re_eq : list Item :=
  [Rep is_word 1 None true; Rep is_space 0 None false; Lit "==";
   Rep is_space 0 None false; Rep dot 1 None true].

(** The pattern of the Qdrant parser: as [re_eq], but the right-hand side is
    a run of characters other than quotes, with an optional quote (single or
    double) on either side. *)
Definition re_eq_quoted : list Item :=
  [Rep is_word 1 None true; Rep is_space 0 None false; Lit "==";
   Rep is_space 0 None false; Rep quote 0 (Some 1%nat) false;
   Rep (fun c => negb (quote c)) 1 None true; Rep quote 0 (Some 1%nat) false].

End Regex.

(** ** The embedder's retry policy: [GeminiEmbedding] *)

Module Retry.

(** A thrown JavaScript value.  [Primitive] stands for everything for which
    [typeof error !== "object" || error === null]; an [Obj] records whether
    it is an [Error] instance and the three properties the classifier reads,
    each present only when it has the type the classifier tests for. *)
Inductive Thrown :=
| Primitive (repr : string)
| Obj (isError : bool) (code : option string) (status : option Z)
      (message : option string) (cause : option Thrown).

Definition networkErrorCodes : list string :=
  ["ECONNREFUSED"; "ETIMEDOUT"; "ENOTFOUND"; "EAI_AGAIN"]%string.

Definition retryableStatusCodes : list Z := [429; 500; 502; 503; 504]%Z.

Definition retryablePatterns : list string :=
  ["rate limit"; "quota exceeded"; "service unavailable"; "timeout";
   "connection"]%string.

Definition isRetryableError (error : Thrown) : bool :=
  match error with
  | Primitive _ => false
  | Obj _ code status message _ =>
      if match code with
         | Some c => Js.arr_includes networkErrorCodes c
         | None => false
         end then true
      else if match status with
              | Some n => existsb (Z.eqb n) retryableStatusCodes
              | None => false
              end then true
      else
        let errorMessage :=
          match message with
          | Some m => Js.toLowerCase m
          | None => EmptyString
          end in
        existsb (fun pattern => Js.includes errorMessage pattern) retryablePatterns
  end.

(** [error instanceof Error ? error.message : "Unknown error"]. *)
Definition messageOf (error : option Thrown) : string :=
  match error with
  | Some (Obj true _ _ (Some m) _) => m
  | Some (Obj true _ _ None _) => "undefined"
  | _ => "Unknown error"
  end.

(** [new Error(`${context}: ...`)] with [cause] set to the caught value. *)
Definition wrapError (context : string) (error : option Thrown) : Thrown :=
  Obj true None None (Some (context ++ ": " ++ messageOf error)%string) error.

(** *** The world the embedder runs in

    Every call of [client.models.embedContent] and every [setTimeout] wait is
    recorded; the answer of the provider to the [n]-th request is given by an
    oracle [api]. *)

Inductive Contents := One (text : string) | Many (texts : list string).

(** The [embeddings] field of a response: absent, or a list of embeddings
    whose [values] may themselves be absent. *)
Definition Response := option (list (option (list Q))).

Inductive Outcome (A : Type) :=
| Resolved (v : A)
| Rejected (e : Thrown).
Arguments Resolved {A} v.
Arguments Rejected {A} e.

Inductive Event := EvCall (c : Contents) | EvSleep (ms : Z).

Record World := { calls : nat; trace : list Event }.

Definition M (A : Type) := World -> Outcome A * World.

Definition ret {A} (v : A) : M A := fun w => (Resolved v, w).

Definition throw {A} (e : Thrown) : M A := fun w => (Rejected e, w).

Definition bind {A B} (m : M A) (k : A -> M B) : M B :=
  fun w => match m w with
           | (Resolved v, w') => k v w'
           | (Rejected e, w') => (Rejected e, w')
           end.

Definition try_catch {A} (m : M A) (handler : Thrown -> M A) : M A :=
  fun w => match m w with
           | (Resolved v, w') => (Resolved v, w')
           | (Rejected e, w') => handler e w'
           end.

Definition sleep (ms : Z) : M unit :=
  fun w => (Resolved tt, {| calls := calls w; trace := trace w ++ [EvSleep ms] |}).

Notation "x <- m ;; k" := (bind m (fun x => k))
  (at level 61, m at next level, right associativity).
Notation "m ;;; k" := (bind m (fun _ => k))
  (at level 61, right associativity).

Record EmbeddingVector := { vector : list Q; dimension : nat }.

Section Gemini.

(** The provider: its answer to the [n]-th request (counted from 0). *)
Variable api : nat -> Contents -> Outcome Response.
(** [Embedding.preprocessText] of the base class. *)
Variable preprocessText : string -> string.
Variable maxRetries : Z.
Variable baseDelay : Z.

Definition embedContent (c : Contents) : M Response :=
  fun w => (api (calls w) c,
            {| calls := S (calls w); trace := trace w ++ [EvCall c] |}).

(** The [for] loop of [executeWithRetry]; [remaining] counts the iterations
    the loop condition [attempt <= maxRetries] still allows. *)
Fixpoint retry_loop {T} (operation : M T) (context : string)
         (remaining : nat) (attempt : Z) (lastError : option Thrown) : M T :=
  match remaining with
  | O => throw (wrapError context lastError)
  | S remaining' =>
      try_catch operation (fun error =>
        if negb (isRetryableError error) then
          throw (wrapError context (Some error))
        else if (attempt =? maxRetries)%Z then
          throw (wrapError context (Some error))
        else
          let delay := Z.min (baseDelay * 2 ^ attempt) 10000 in
          sleep delay ;;;
          retry_loop operation context remaining' (attempt + 1) (Some error))
  end.

Definition executeWithRetry {T} (operation : M T) (context : string) : M T :=
  retry_loop operation context (Z.to_nat (maxRetries + 1)) 0 None.

Definition invalidResponse : Thrown :=
  Obj true None None (Some "Gemini API returned invalid response"%string) None.

Definition invalidEmbeddingData : Thrown :=
  Obj true None None (Some "Gemini API returned invalid embedding data"%string) None.

Definition embedOperation (processedText : string) : M EmbeddingVector :=
  response <- embedContent (One processedText) ;;
  match response with
  | Some (Some values :: _) =>
      ret {| vector := values; dimension := List.length values |}
  | _ => throw invalidResponse
  end.

Definition embed (text : string) : M EmbeddingVector :=
  executeWithRetry (embedOperation (preprocessText text)) "Gemini embedding failed".

Fixpoint mapEmbeddings (embeddings : list (option (list Q)))
  : M (list EmbeddingVector) :=
  match embeddings with
  | [] => ret []
  | Some values :: rest =>
      vs <- mapEmbeddings rest ;;
      ret ({| vector := values; dimension := List.length values |} :: vs)
  | None :: _ => throw invalidEmbeddingData
  end.

Definition batchOperation (processedTexts : list string) : M (list EmbeddingVector) :=
  response <- embedContent (Many processedTexts) ;;
  match response with
  | Some embeddings => mapEmbeddings embeddings
  | None => throw invalidResponse
  end.

Definition FALLBACK_DELAY_MS : Z := 100.

Definition bothFailed (individualError : Thrown) : Thrown :=
  Obj true None None
    (Some "Gemini batch embedding failed (both batch and individual attempts failed)"%string)
    (Some individualError).

(** The fallback loop over [processedTexts], from index [i]. *)
Fixpoint fallback_loop (i : nat) (texts : list string)
         (results : list EmbeddingVector) : M (list EmbeddingVector) :=
  match texts with
  | [] => ret results
  | text :: texts' =>
      r <- try_catch
             ((if (0 <? i)%nat then sleep FALLBACK_DELAY_MS else ret tt) ;;;
              embed text)
             (fun individualError => throw (bothFailed individualError)) ;;
      fallback_loop (S i) texts' (results ++ [r])
  end.

Definition embedBatch (texts : list string) : M (list EmbeddingVector) :=
  let processedTexts := map preprocessText texts in
  try_catch
    (executeWithRetry (batchOperation processedTexts) "Gemini batch embedding failed")
    (fun _ => fallback_loop 0 processedTexts []).

End Gemini.

Definition world0 : World := {| calls := 0; trace := [] |}.

(** The constructor's defaults: [config.maxRetries ?? 3], [config.baseDelay ?? 1000]. *)
Record GeminiEmbeddingConfig := {
  cfg_maxRetries : option Z;
  cfg_baseDelay : option Z
}.

Definition init_maxRetries (config : GeminiEmbeddingConfig) : Z :=
  match cfg_maxRetries config with Some n => n | None => 3 end.

Definition init_baseDelay (config : GeminiEmbeddingConfig) : Z :=
  match cfg_baseDelay config with Some n => n | None => 1000 end.

(** What [n] retried attempts leave in the trace, the first of them being
    attempt number [attempt]: a request, then a wait of
    [min (baseDelay * 2 ^ attempt) 10000] milliseconds, and so on. *)
Fixpoint retried (c : Contents) (baseDelay : Z) (n : nat) (attempt : Z) : list Event :=
  match n with
  | O => []
  | S n' =>
      EvCall c :: EvSleep (Z.min (baseDelay * 2 ^ attempt) 10000)
        :: retried c baseDelay n' (attempt + 1)
  end.

(** An operation that issues exactly one request [c] and then only inspects
    the answer; [out n] is what it yields when its request is the [n]-th. *)
Definition one_request {T} (operation : M T) (c : Contents) (out : nat -> Outcome T) : Prop :=
  forall w, operation w =
            (out (calls w),
             {| calls := S (calls w); trace := trace w ++ [EvCall c] |}).

(** What [embedOperation] and [batchOperation] make of the provider's answer. *)
Definition embed_outcome (o : Outcome Response) : Outcome EmbeddingVector :=
  match o with
  | Resolved (Some (Some values :: _)) =>
      Resolved {| vector := values; dimension := List.length values |}
  | Resolved _ => Rejected invalidResponse
  | Rejected e => Rejected e
  end.



(** Two providers used in the examples: one that is rate-limited twice and
    then answers, one that refuses the first request and answers afterwards. *)
Definition rateLimited : Thrown :=
  Obj true None (Some 429%Z) (Some "Rate limit exceeded"%string) None.

Definition invalidApiKey : Thrown :=
  Obj false None (Some 401%Z) (Some "Invalid API key"%string) None.

Definition api_rate_limited_twice (n : nat) (c : Contents) : Outcome Response :=
  match n with
  | 0%nat | 1%nat => Rejected rateLimited
  | _ => Resolved (Some [Some [1 # 10]])
  end.

Definition api_refuses_first (n : nat) (c : Contents) : Outcome Response :=
  match n with
  | 0%nat => Rejected invalidApiKey
  | _ => Resolved (Some [Some [1 # 10]])
  end.

(** The world after [n] retried attempts and one more request. *)
Definition after_attempts (w : World) (c : Contents) (baseDelay : Z) (n : nat) : World :=
  {| calls := calls w + n + 1;
     trace := trace w ++ retried c baseDelay n 0 ++ [EvCall c] |}.

(** The milliseconds spent in [setTimeout] waits along a trace. *)
Definition waited (events : list Event) : Z :=
  fold_right (fun ev total => match ev with
                              | EvSleep ms => (ms + total)%Z
                              | EvCall _ => total
                              end) 0%Z events.


End Retry.

(** ** The BM25 vectoriser: [SimpleBM25] *)

Module BM25.
Import Js.

(** The fields of the class; [vocabulary] and [idf] are what [learn] left. *)
Record Model := {
  k1 : Q;
  b : Q;
  minTermLength : nat;
  stopWords : list string;
  vocabulary : JsMap.t string nat;
  idf : JsMap.t string Q;
  avgDocLength : Q;
  trained : bool
}.

Record SparseVectorConfig := {
  minScore : option Q;
  maxTerms : option nat;
  normalize : bool
}.

Definition noConfig : SparseVectorConfig :=
  {| minScore := None; maxTerms := None; normalize := false |}.

Record SparseVector := { indices : list nat; values : list Q }.

Definition tokenize (m : Model) (text : string) : list string :=
  filter (fun term =>
            (minTermLength m <=? String.length term)%nat
            && negb (arr_includes (stopWords m) term))
    (split_ws
       (map_chars (fun c => if is_word c || is_space c then c else " "%char)
          (toLowerCase text))).

Definition calculateTermFrequency (tokens : list string) : JsMap.t string nat :=
  fold_left (fun termFreq token =>
               JsMap.set termFreq token
                 (match JsMap.get termFreq token with
                  | Some n => n
                  | None => 0%nat
                  end + 1)%nat)
    tokens JsMap.empty.

(** The BM25 weight of a term of frequency [tf] in a text of [docLength]
    tokens, as the loop body computes it. *)
Definition bm25_score (m : Model) (docLength : nat) (tf : nat) (idfScore : Q) : Q :=
  let normalizedTF :=
    (inject_Z (Z.of_nat tf) * (k1 m + 1))
    / (inject_Z (Z.of_nat tf)
       + k1 m * (1 - b m + (b m * inject_Z (Z.of_nat docLength)) / avgDocLength m)) in
  idfScore * normalizedTF.

(** One round of [termFreq.forEach]: the two arrays after the term. *)
Definition score_term (m : Model) (config : SparseVectorConfig) (docLength : nat)
           (acc : list nat * list Q) (entry : string * nat) : list nat * list Q :=
  let (term, tf) := entry in
  match JsMap.get (vocabulary m) term, JsMap.get (idf m) term with
  | Some vocabIndex, Some idfScore =>
      let score := bm25_score m docLength tf idfScore in
      match minScore config with
      | Some ms =>
          if negb (Qle_bool ms score) then acc
          else (fst acc ++ [vocabIndex], snd acc ++ [score])
      | None => (fst acc ++ [vocabIndex], snd acc ++ [score])
      end
  | _, _ => acc
  end.

(** [Math.min(...values)] on a non-empty array. *)
Definition list_min (v : Q) (vs : list Q) : Q :=
  fold_left (fun acc x => if Qle_bool acc x then acc else x) vs v.

Definition epsilon : Q := 1 # 1000000.

Definition sum_squares (vs : list Q) : Q :=
  fold_left (fun sum val => sum + val * val) vs 0.

Section Generate.
(** [Math.sqrt]. *)
Variable sqrt : Q -> Q.

Definition generate (m : Model) (text : string) (config : SparseVectorConfig)
  : result SparseVector :=
  if negb (trained m) then
    Throw "BM25 generator must be trained before generating vectors. Call learn() first."
  else
    let tokens := tokenize m text in
    let termFreq := calculateTermFrequency tokens in
    let docLength := List.length tokens in
    (* Calculate BM25 score for each term *)
    let '(indices0, values0) :=
      fold_left (score_term m config docLength) (JsMap.entries termFreq) ([], []) in
    (* Sort by score descending and apply maxTerms limit *)
    let '(indices1, values1) :=
      match maxTerms config with
      | Some mt =>
          if (mt <? List.length indices0)%nat then
            let combined := combine indices0 values0 in
            let kept := firstn mt (stable_sort (desc snd) combined) in
            (map fst kept, map snd kept)
          else (indices0, values0)
      | None => (indices0, values0)
      end in
    (* Ensure all values are positive *)
    let values2 :=
      match values1 with
      | [] => values1
      | v :: vs =>
          let minValue := list_min v vs in
          if Qle_bool minValue 0 then
            let shift := - minValue + epsilon in
            map (fun x => x + shift) values1
          else values1
      end in
    (* Normalize if requested *)
    let values3 :=
      if normalize config && (0 <? List.length values2)%nat then
        let norm := sqrt (sum_squares values2) in
        map (fun x => x / norm) values2
      else values2 in
    Ok {| indices := indices1; values := values3 |}.

(** *** The two orders of the steps, written on (index, value) pairs *)

(** The weights of the vocabulary terms of the text, unknown terms dropped. *)
Definition raw_weights (m : Model) (text : string) : list (nat * Q) :=
  let tokens := tokenize m text in
  flat_map (fun entry : string * nat =>
              match JsMap.get (vocabulary m) (fst entry),
                    JsMap.get (idf m) (fst entry) with
              | Some vocabIndex, Some idfScore =>
                  [(vocabIndex, bm25_score m (List.length tokens) (snd entry) idfScore)]
              | _, _ => []
              end)
    (JsMap.entries (calculateTermFrequency tokens)).

Definition apply_minScore (config : SparseVectorConfig) (ws : list (nat * Q))
  : list (nat * Q) :=
  match minScore config with
  | Some ms => filter (fun w => Qle_bool ms (snd w)) ws
  | None => ws
  end.

Definition apply_maxTerms (config : SparseVectorConfig) (ws : list (nat * Q))
  : list (nat * Q) :=
  match maxTerms config with
  | Some mt =>
      if (mt <? List.length ws)%nat then firstn mt (stable_sort (desc snd) ws)
      else ws
  | None => ws
  end.

(** Shift all values by [-min + epsilon] when some value is [<= 0]. *)
Definition shift_positive (ws : list (nat * Q)) : list (nat * Q) :=
  match map snd ws with
  | [] => ws
  | v :: vs =>
      let minValue := list_min v vs in
      if Qle_bool minValue 0 then
        map (fun w => (fst w, snd w + (- minValue + epsilon))) ws
      else ws
  end.

Definition apply_normalize (config : SparseVectorConfig) (ws : list (nat * Q))
  : list (nat * Q) :=
  if normalize config && (0 <? List.length ws)%nat then
    let norm := sqrt (sum_squares (map snd ws)) in
    map (fun w => (fst w, snd w / norm)) ws
  else ws.

Definition to_vector (ws : list (nat * Q)) : SparseVector :=
  {| indices := map fst ws; values := map snd ws |}.

(** The order of the specification: shift, then [minScore] and [maxTerms]. *)
Definition generate_shift_first (m : Model) (text : string)
           (config : SparseVectorConfig) : SparseVector :=
  to_vector
    (apply_normalize config
       (apply_maxTerms config
          (apply_minScore config
             (shift_positive (raw_weights m text))))).

(** The order of the code: [minScore] and [maxTerms], then shift. *)
Definition generate_filters_first (m : Model) (text : string)
           (config : SparseVectorConfig) : SparseVector :=
  to_vector
    (apply_normalize config
       (shift_positive
          (apply_maxTerms config
             (apply_minScore config (raw_weights m text))))).

End Generate.

(** The parameters for which the quotient in [bm25_score] is a quotient by a
    positive number, as it is for every model [learn] builds from the
    constructor's defaults. *)
Definition sane (m : Model) : Prop :=
  0 <= k1 m /\ 0 <= b m /\ b m <= 1 /\ (0 < avgDocLength m \/ vocabulary m = []).

(** A trained model in which the frequent term "the" has a negative IDF. *)
Definition demo_model : Model :=
  {| k1 := 12 # 10; b := 75 # 100; minTermLength := 2; stopWords := [];
     vocabulary := [("the", 0%nat); ("fox", 1%nat); ("dog", 2%nat)]%string;
     idf := [("the", - (8 # 10)); ("fox", 1); ("dog", 2)]%string;
     avgDocLength := 3; trained := true |}.

(** A rational approximation of [Math.sqrt] (to six decimals of
    [sqrt (num * den)], over [den]), for running the examples. *)
Definition approx_sqrt (x : Q) : Q :=
  Z.sqrt (Qnum x * Z.pos (Qden x) * 10 ^ 12) # (Qden x * 1000000).

(** *** The constructor and [learn] *)

Record BM25Config := {
  cfg_k1 : option Q;
  cfg_b : option Q;
  cfg_minTermLength : option nat;
  cfg_stopWords : option (list string)
}.

(** [new SimpleBM25(config)]: [k1 ?? 1.2], [b ?? 0.75], [minTermLength ?? 2],
    [stopWords ?? new Set()]; nothing learned yet. *)
Definition new (config : BM25Config) : Model :=
  {| k1 := match cfg_k1 config with Some x => x | None => 12 # 10 end;
     b := match cfg_b config with Some x => x | None => 75 # 100 end;
     minTermLength := match cfg_minTermLength config with Some n => n | None => 2%nat end;
     stopWords := match cfg_stopWords config with Some l => l | None => [] end;
     vocabulary := JsMap.empty; idf := JsMap.empty;
     avgDocLength := 0; trained := false |}.

(** [new Set(tokens)], as [forEach] visits it: the distinct tokens in the
    order of their first occurrence. *)
Definition uniqueTerms (tokens : list string) : list string :=
  JsMap.keys
    (fold_left (fun (seen : JsMap.t string unit) token => JsMap.set seen token tt)
       tokens JsMap.empty).

(** The map [docFreq] after the loop over the tokenized documents. *)
Definition documentFrequency (tokenizedDocs : list (list string)) : JsMap.t string nat :=
  fold_left
    (fun docFreq tokens =>
       fold_left
         (fun docFreq term =>
            JsMap.set docFreq term
              (match JsMap.get docFreq term with
               | Some n => n
               | None => 0%nat
               end + 1)%nat)
         (uniqueTerms tokens) docFreq)
    tokenizedDocs JsMap.empty.

Section Learn.
(** [Math.log]. *)
Variable ln : Q -> Q.

(** [log((N - df + 0.5) / (df + 0.5))]. *)
Definition idf_of (numDocs df : nat) : Q :=
  ln ((inject_Z (Z.of_nat numDocs) - inject_Z (Z.of_nat df) + (1 # 2))
      / (inject_Z (Z.of_nat df) + (1 # 2))).

(** The loop [docFreq.forEach] that fills [vocabulary] and [idf]; the third
    component is [vocabIndex]. *)
Definition build_vocabulary (numDocs : nat) (docFreq : JsMap.t string nat)
  : JsMap.t string nat * JsMap.t string Q * nat :=
  fold_left
    (fun (acc : JsMap.t string nat * JsMap.t string Q * nat) (e : string * nat) =>
       let '(vocabulary, idf, vocabIndex) := acc in
       let (term, df) := e in
       (JsMap.set vocabulary term vocabIndex,
        JsMap.set idf term (idf_of numDocs df),
        S vocabIndex))
    (JsMap.entries docFreq) (JsMap.empty, JsMap.empty, 0%nat).

(** [learn]: the model afterwards, or the error thrown, in which case the
    model is left as it was. *)
Definition learn (m : Model) (documents : list string) : result Model :=
  match documents with
  | [] => Throw "Cannot learn from empty corpus"
  | _ :: _ =>
      (* Tokenize all documents *)
      let tokenizedDocs := map (tokenize m) documents in
      (* Calculate average document length *)
      let totalLength :=
        fold_left (fun sum tokens => (sum + List.length tokens)%nat) tokenizedDocs 0%nat in
      let avg := inject_Z (Z.of_nat totalLength)
                 / inject_Z (Z.of_nat (List.length tokenizedDocs)) in
      (* Calculate document frequency for each term *)
      let docFreq := documentFrequency tokenizedDocs in
      (* Build vocabulary and calculate IDF *)
      let numDocs := List.length documents in
      let '(vocabulary', idf', _) := build_vocabulary numDocs docFreq in
      Ok {| k1 := k1 m; b := b m; minTermLength := minTermLength m;
            stopWords := stopWords m;
            vocabulary := vocabulary'; idf := idf';
            avgDocLength := avg; trained := true |}
  end.

End Learn.

Section GenerateBatch.
Variable sqrt : Q -> Q.

(** [texts.map((text) => this.generate(text, config))]. *)
Fixpoint generateBatch (m : Model) (texts : list string) (config : SparseVectorConfig)
  : result (list SparseVector) :=
  match texts with
  | [] => Ok []
  | text :: texts' =>
      match generate sqrt m text config with
      | Throw msg => Throw msg
      | Ok v =>
          match generateBatch m texts' config with
          | Throw msg => Throw msg
          | Ok vs => Ok (v :: vs)
          end
      end
  end.

End GenerateBatch.

Definition getVocabularySize (m : Model) : nat := List.length (vocabulary m).
Definition getAverageDocumentLength (m : Model) : Q := avgDocLength m.
Definition isTrained (m : Model) : bool := trained m.

(** The number of documents of the corpus in which a term occurs. *)
Definition documents_with (m : Model) (documents : list string) (term : string) : nat :=
  List.length (filter (fun doc => arr_includes (tokenize m doc) term) documents).

(** The characters a token is made of: [a-z], [0-9] and [_]. *)
Definition is_token_char (c : ascii) : bool :=
  let n := nat_of_ascii c in
  (((48 <=? n) && (n <=? 57)) || (n =? 95) || ((97 <=? n) && (n <=? 122)))%nat.

(** *** Serialisation

    [toJSON] writes an object with [JSON.stringify], [fromJSON] reads it back
    with [JSON.parse]; [ModelData] is that object (a number is read back as
    it was written). *)
Record ModelData := {
  data_k1 : Q;
  data_b : Q;
  data_minTermLength : nat;
  data_stopWords : option (list string);
  data_vocabulary : list (string * nat);
  data_idf : list (string * Q);
  data_avgDocLength : Q;
  data_trained : bool
}.

Definition toJSON (m : Model) : ModelData :=
  {| data_k1 := k1 m; data_b := b m; data_minTermLength := minTermLength m;
     data_stopWords := Some (stopWords m);
     data_vocabulary := JsMap.entries (vocabulary m);
     data_idf := JsMap.entries (idf m);
     data_avgDocLength := avgDocLength m;
     data_trained := trained m |}.

(** [new Map(entries)]. *)
Definition map_of_entries {V} (entries : list (string * V)) : JsMap.t string V :=
  fold_left (fun m e => JsMap.set m (fst e) (snd e)) entries JsMap.empty.

Definition fromJSON (data : ModelData) : Model :=
  let bm25 :=
    new {| cfg_k1 := Some (data_k1 data); cfg_b := Some (data_b data);
           cfg_minTermLength := Some (data_minTermLength data);
           cfg_stopWords :=
             Some (uniqueTerms (match data_stopWords data with
                                | Some l => l
                                | None => []
                                end)) |} in
  {| k1 := k1 bm25; b := b bm25; minTermLength := minTermLength bm25;
     stopWords := stopWords bm25;
     vocabulary := map_of_entries (data_vocabulary data);
     idf := map_of_entries (data_idf data);
     avgDocLength := data_avgDocLength data;
     trained := data_trained data |}.

(** *** Counting with a [Map], and the order of its keys *)

(** [map.get(k) || 0]. *)
Definition getd (m : JsMap.t string nat) (k : string) : nat :=
  match JsMap.get m k with Some n => n | None => 0%nat end.

(** [map.set(k, (map.get(k) || 0) + 1)]. *)
Definition bump (m : JsMap.t string nat) (k : string) : JsMap.t string nat :=
  JsMap.set m k (getd m k + 1)%nat.

Definition total (m : JsMap.t string nat) : nat := fold_right Nat.add 0%nat (map snd m).

(** The keys of a map with keys [seen] after setting the keys [ks] one
    after the other. *)
Definition add_keys (seen ks : list string) : list string :=
  fold_left (fun seen k => if arr_includes seen k then seen else seen ++ [k]) ks seen.

(** The distinct tokens of a corpus, in the order of their first occurrence. *)
Definition corpus_terms (m : Model) (documents : list string) : list string :=
  uniqueTerms (List.concat (map (tokenize m) documents)).

End BM25.

(** ** The local store: [LibSQLVectorDatabase]

    One collection is modelled: its [documents] table, its cached metadata
    and its BM25 generator.  The SQL engine is outside the repository; the
    statements the class issues are given their SQLite meaning on the table
    (a list of rows in rowid order), and what the engine makes of the text of
    a WHERE clause, of [vector_top_k] and of [vector_distance_cos] is a
    parameter. *)

Module LibSQL.
Import Js.

Record VectorDocument := {
  doc_id : string;
  doc_vector : list Q;
  doc_content : string;
  doc_relativePath : string;
  doc_startLine : Z;
  doc_endLine : Z;
  doc_fileExtension : string;
  doc_metadata : string  (* the JSON text of [metadata] *)
}.

(** A row of [documents]. *)
Record Row := {
  id : string;
  content : string;
  relative_path : string;
  start_line : Z;
  end_line : Z;
  file_extension : string;
  metadata : string;
  dense_vector : list Q;
  sparse_indices : option (list nat);
  sparse_values : option (list Q)
}.

Definition Table := list Row.

Inductive Value :=
| VText (s : string)
| VInt (n : Z)
| VVector (v : list Q)
| VIndices (l : list nat)
| VValues (l : list Q)
| VNull.

(** The value of a column of a row; [None] when there is no such column. *)
Definition column (r : Row) (name : string) : option Value :=
  if String.eqb name "id" then Some (VText (id r))
  else if String.eqb name "content" then Some (VText (content r))
  else if String.eqb name "relative_path" then Some (VText (relative_path r))
  else if String.eqb name "start_line" then Some (VInt (start_line r))
  else if String.eqb name "end_line" then Some (VInt (end_line r))
  else if String.eqb name "file_extension" then Some (VText (file_extension r))
  else if String.eqb name "metadata" then Some (VText (metadata r))
  else if String.eqb name "dense_vector" then Some (VVector (dense_vector r))
  else if String.eqb name "sparse_indices" then
    Some (match sparse_indices r with Some l => VIndices l | None => VNull end)
  else if String.eqb name "sparse_values" then
    Some (match sparse_values r with Some l => VValues l | None => VNull end)
  else None.

(** *** The statements, on the table *)

(** [INSERT OR REPLACE INTO documents ...]: a row with the same primary key
    is deleted, the new row gets a fresh rowid. *)
Definition insert_or_replace (t : Table) (r : Row) : Table :=
  filter (fun r' => negb (String.eqb (id r') (id r))) t ++ [r].

(** [DELETE FROM documents WHERE id IN (...)]. *)
Definition delete_where_id_in (ids : list string) (t : Table) : Table :=
  filter (fun r => negb (arr_includes ids (id r))) t.

(** [SELECT ... FROM documents WHERE id IN (...)]. *)
Definition select_where_id_in (ids : list string) (t : Table) : Table :=
  filter (fun r => arr_includes ids (id r)) t.

(** [... LIMIT n]. *)
Definition sql_limit {A} (n : nat) (rows : list A) : list A := firstn n rows.

Record CollectionMetadata := {
  dimension : nat;
  isHybrid : bool;
  documentCount : nat
}.

Record Collection := {
  documents : Table;
  metadataCache : option CollectionMetadata;
  bm25Generator : option BM25.Model
}.

Definition rowOfDocument (doc : VectorDocument) : Row :=
  {| id := doc_id doc; content := doc_content doc;
     relative_path := doc_relativePath doc;
     start_line := doc_startLine doc; end_line := doc_endLine doc;
     file_extension := doc_fileExtension doc; metadata := doc_metadata doc;
     dense_vector := doc_vector doc;
     sparse_indices := None; sparse_values := None |}.

Definition rowToDocument (row : Row) : VectorDocument :=
  {| doc_id := id row; doc_vector := []; doc_content := content row;
     doc_relativePath := relative_path row;
     doc_startLine := start_line row; doc_endLine := end_line row;
     doc_fileExtension := file_extension row; doc_metadata := metadata row |}.

(** [updateDocumentCount]: the cached count follows [SELECT COUNT( * )]. *)
Definition updateDocumentCount (c : Collection) : Collection :=
  {| documents := documents c;
     metadataCache :=
       match metadataCache c with
       | Some md => Some {| dimension := dimension md; isHybrid := isHybrid md;
                            documentCount := List.length (documents c) |}
       | None => None
       end;
     bm25Generator := bm25Generator c |}.

Definition insert (c : Collection) (docs : list VectorDocument) : result Collection :=
  match metadataCache c with
  | None => Throw "Collection metadata not found"
  | Some md =>
      match find (fun doc =>
                    negb (List.length (doc_vector doc) =? dimension md)%nat) docs with
      | Some doc =>
          Throw ("Vector dimension mismatch for document '" ++ doc_id doc ++ "'")%string
      | None =>
          Ok (updateDocumentCount
                {| documents :=
                     fold_left insert_or_replace (map rowOfDocument docs)
                       (documents c);
                   metadataCache := metadataCache c;
                   bm25Generator := bm25Generator c |})
      end
  end.

Definition mapFieldName (field : string) : string :=
  if String.eqb field "relativePath" then "relative_path"
  else if String.eqb field "startLine" then "start_line"
  else if String.eqb field "endLine" then "end_line"
  else if String.eqb field "fileExtension" then "file_extension"
  else field.

(** A value paired with the lines written by [console.warn]. *)
Definition Logged (A : Type) : Type := A * list string.

Definition parseFilterExpression (expr : string) : Logged string :=
  match (if includes expr " in " then Regex.exec Regex.re_in expr else None) with
  | Some [field; values] =>
      ((mapFieldName field ++ " IN ("
          ++ join "," (map trim (split_on "," values)) ++ ")")%string, [])
  | _ =>
      match (if includes expr "==" then Regex.exec Regex.re_eq expr else None) with
      | Some [field; value] =>
          ((mapFieldName field ++ " = " ++ trim value)%string, [])
      | _ => (expr, ["[LibSQLDB] Unrecognized filter expression: " ++ expr]%string)
      end
  end.

Record SearchOptions := {
  topK : option nat;
  threshold : option Q;
  filterExpr : option string
}.

Record VectorSearchResult := { document : VectorDocument; score : Q }.

Inductive RequestData := DataVector (v : list Q) | DataText (text : string).

Record HybridSearchRequest := { data : RequestData; anns_field : string }.

Record HybridSearchOptions := {
  limit : option nat;
  rerank_k : option Q;   (* [options.rerank.params.k] *)
  hybrid_filterExpr : option string
}.

(** [options?.rerank?.params?.k || 60]. *)
Definition rrf_k (options : HybridSearchOptions) : Q :=
  match rerank_k options with
  | Some k' => if Qeq_bool k' 0 then 60 else k'
  | None => 60
  end.

(** [Array.from(new Set(ids))]: first occurrences, in order. *)
Fixpoint dedupe (seen : list string) (ids : list string) : list string :=
  match ids with
  | [] => []
  | i :: ids' =>
      if arr_includes seen i then dedupe seen ids'
      else i :: dedupe (i :: seen) ids'
  end.

(** [computeRanks]: position, from 1, in the stable descending sort. *)
Definition computeRanks (scores : JsMap.t string Q) : JsMap.t string nat :=
  let sorted := stable_sort (desc snd) (JsMap.entries scores) in
  fst (fold_left (fun (acc : JsMap.t string nat * nat) (e : string * Q) =>
                    let (ranks, index) := acc in
                    (JsMap.set ranks (fst e) (index + 1)%nat, S index))
         sorted (JsMap.empty, 0%nat)).

(** The body of the loop of [applyRRF]: the fused score of one id. *)
Definition fused_score (denseRanks sparseRanks : JsMap.t string nat) (k : Q)
           (id : string) : Q :=
  let score := 0 in
  let score :=
    match JsMap.get denseRanks id with
    | Some denseRank => score + 1 / (k + inject_Z (Z.of_nat denseRank))
    | None => score
    end in
  let score :=
    match JsMap.get sparseRanks id with
    | Some sparseRank => score + 1 / (k + inject_Z (Z.of_nat sparseRank))
    | None => score
    end in
  score.

Definition applyRRF (denseResults sparseResults : JsMap.t string Q) (k : Q)
  : JsMap.t string Q :=
  let denseRanks := computeRanks denseResults in
  let sparseRanks := computeRanks sparseResults in
  let allIds := dedupe [] (JsMap.keys denseResults ++ JsMap.keys sparseResults) in
  fold_left
    (fun (rrfScores : JsMap.t string Q) (id : string) =>
       JsMap.set rrfScores id (fused_score denseRanks sparseRanks k id))
    allIds JsMap.empty.


Section Engine.

(** What the engine makes of the text of a WHERE clause: a predicate on
    rows, or [None] when it rejects the statement. *)
Variable sql_where : string -> option (Row -> bool).
(** [vector_top_k('idx_dense', q, n)] joined with [documents]. *)
Variable vector_top_k : Table -> list Q -> nat -> list Row.
Variable vector_distance_cos : list Q -> list Q -> Q.
(** [Math.sqrt] and [SimpleBM25.learn] (which needs [Math.log]). *)
Variable sqrt : Q -> Q.
Variable learn : BM25.Model -> list string -> BM25.Model.

Definition delete (c : Collection) (ids : list string) : result Collection :=
  let c1 := updateDocumentCount
              {| documents := delete_where_id_in ids (documents c);
                 metadataCache := metadataCache c;
                 bm25Generator := bm25Generator c |} in
  (* Re-train BM25 if hybrid collection *)
  match metadataCache c1, bm25Generator c1 with
  | Some md, Some bm25 =>
      let contents := map content (documents c1) in
      if isHybrid md && (0 <? List.length contents)%nat then
        Ok {| documents := documents c1; metadataCache := metadataCache c1;
              bm25Generator := Some (learn bm25 contents) |}
      else Ok c1
  | _, _ => Ok c1
  end.

(** The optional [WHERE] of a statement. *)
Definition where_predicate (whereClause : option string) : option (Row -> bool) :=
  match whereClause with
  | None => Some (fun _ => true)
  | Some w => sql_where w
  end.

Definition rowToResult (selected : list string) (row : Row)
           (outputFields : list string) : JsMap.t string Value :=
  fold_left
    (fun (result : JsMap.t string Value) (field : string) =>
       let dbField := mapFieldName field in
       match (if arr_includes selected dbField then column row dbField else None) with
       | Some v => JsMap.set result field v
       | None =>
           match (if arr_includes selected field then column row field else None) with
           | Some v => JsMap.set result field v
           | None => result
           end
       end)
    outputFields JsMap.empty.

Definition all_columns : list string :=
  ["id"; "content"; "relative_path"; "start_line"; "end_line"; "file_extension";
   "metadata"; "dense_vector"; "sparse_indices"; "sparse_values"]%string.

Definition query (c : Collection) (filter : string) (outputFields : list string)
           (limit : option nat) : Logged (result (list (JsMap.t string Value))) :=
  (* Build SELECT clause *)
  let selected :=
    match outputFields with
    | [] => all_columns
    | _ => map mapFieldName outputFields
    end in
  (* Apply filter *)
  let '(whereClause, warnings) :=
    match trim filter with
    | EmptyString => (None, [])
    | _ => let (w, ws) := parseFilterExpression filter in (Some w, ws)
    end in
  let n := or_default limit 100 in
  if negb (forallb (arr_includes all_columns) selected) then
    (Throw "SQL error: no such column", warnings)
  else
    match where_predicate whereClause with
    | None => (Throw "SQL error in WHERE clause", warnings)
    | Some p =>
        (Ok (map (fun row => rowToResult selected row outputFields)
               (sql_limit n (List.filter p (documents c)))),
         warnings)
    end.

Definition search (c : Collection) (queryVector : list Q) (options : SearchOptions)
  : Logged (result (list VectorSearchResult)) :=
  let topK := or_default (topK options) 10 in
  (* Apply filter if provided *)
  let '(whereClause, warnings) :=
    match filterExpr options with
    | Some (String _ _ as f) =>
        let (w, ws) := parseFilterExpression f in (Some w, ws)
    | _ => (None, [])
    end in
  match where_predicate whereClause with
  | None => (Throw "SQL error in WHERE clause", warnings)
  | Some p =>
      let distance := fun row => vector_distance_cos (dense_vector row) queryVector in
      let rows :=
        sql_limit topK
          (stable_sort (asc distance)
             (List.filter p (vector_top_k (documents c) queryVector (topK * 2)))) in
      (Ok (fold_left
             (fun searchResults row =>
                let score := 1 / (1 + distance row) in
                match threshold options with
                | Some th =>
                    if negb (Qle_bool th score) then searchResults
                    else searchResults
                           ++ [{| document := rowToDocument row; score := score |}]
                | None =>
                    searchResults
                      ++ [{| document := rowToDocument row; score := score |}]
                end)
             rows []),
       warnings)
  end.

Definition performDenseSearch (c : Collection) (queryVector : list Q) (limit : nat)
           (results : JsMap.t string Q) : JsMap.t string Q :=
  fold_left
    (fun results row =>
       let score := 1 / (1 + vector_distance_cos (dense_vector row) queryVector) in
       JsMap.set results (id row) score)
    (vector_top_k (documents c) queryVector (limit * 2)) results.

(** The score of a stored sparse vector against the query's terms. *)
Definition sparse_dot (queryMap : JsMap.t nat Q) (indices : list nat)
           (values : list Q) : Q :=
  fold_left
    (fun score iv =>
       match JsMap.get queryMap (fst iv) with
       | Some queryVal => score + snd iv * queryVal
       | None => score
       end)
    (combine indices values) 0.

(** Rows are expected as [insertHybrid] writes them: both sparse columns
    set, of equal length. *)
Definition performSparseSearch (c : Collection) (queryText : string)
           (results : JsMap.t string Q) : Logged (result (JsMap.t string Q)) :=
  match bm25Generator c with
  | None =>
      (Ok results,
       ["[LibSQLDB] BM25 generator not found. Sparse search skipped."%string])
  | Some bm25 =>
      if negb (BM25.trained bm25) then
        (Ok results,
         ["[LibSQLDB] BM25 model not trained. Sparse search skipped."%string])
      else
        match BM25.generate sqrt bm25 queryText BM25.noConfig with
        | Throw msg => (Throw msg, [])
        | Ok queryVector =>
            let queryMap :=
              fold_left
                (fun (qm : JsMap.t nat Q) iv => JsMap.set qm (fst iv) (snd iv))
                (combine (BM25.indices queryVector) (BM25.values queryVector))
                JsMap.empty in
            (Ok (fold_left
                   (fun results row =>
                      match sparse_indices row, sparse_values row with
                      | Some indices, Some values =>
                          let score := sparse_dot queryMap indices values in
                          if negb (Qle_bool score 0)
                          then JsMap.set results (id row) score
                          else results
                      | _, _ => results
                      end)
                   (documents c) results),
             [])
        end
  end.

(** The loop over [searchRequests]: the two result maps and the warnings. *)
Definition processRequest (c : Collection) (limit : nat)
           (state : Logged (result (JsMap.t string Q * JsMap.t string Q)))
           (request : HybridSearchRequest)
  : Logged (result (JsMap.t string Q * JsMap.t string Q)) :=
  match state with
  | (Throw msg, warnings) => (Throw msg, warnings)
  | (Ok (denseResults, sparseResults), warnings) =>
      if String.eqb (anns_field request) "vector"
         || String.eqb (anns_field request) "dense" then
        match data request with
        | DataVector queryVector =>
            (Ok (performDenseSearch c queryVector limit denseResults, sparseResults),
             warnings)
        | DataText _ => (Throw "TypeError: queryVector.join is not a function", warnings)
        end
      else if String.eqb (anns_field request) "sparse"
              || String.eqb (anns_field request) "sparse_vector" then
        match data request with
        | DataText queryText =>
            match performSparseSearch c queryText sparseResults with
            | (Ok sparseResults', ws) =>
                (Ok (denseResults, sparseResults'), warnings ++ ws)
            | (Throw msg, ws) => (Throw msg, warnings ++ ws)
            end
        | DataVector _ =>
            match bm25Generator c with
            | Some bm25 =>
                if BM25.trained bm25 then
                  (Throw "TypeError: text.toLowerCase is not a function", warnings)
                else
                  (Ok (denseResults, sparseResults),
                   warnings ++ ["[LibSQLDB] BM25 model not trained. Sparse search skipped."%string])
            | None =>
                (Ok (denseResults, sparseResults),
                 warnings ++ ["[LibSQLDB] BM25 generator not found. Sparse search skipped."%string])
            end
        end
      else (Ok (denseResults, sparseResults), warnings)
  end.

(** The ids of the [limit] best fused scores. *)
Definition topIds (rrfScores : JsMap.t string Q) (limit : nat) : list string :=
  map fst (firstn limit (stable_sort (desc snd) (JsMap.entries rrfScores))).

Definition hybridSearch (c : Collection) (searchRequests : list HybridSearchRequest)
           (options : HybridSearchOptions) : Logged (result (list VectorSearchResult)) :=
  match metadataCache c with
  | Some {| isHybrid := true |} =>
      let limit := or_default (limit options) 10 in
      (* Process search requests *)
      match fold_left (processRequest c limit) searchRequests
              (Ok (JsMap.empty, JsMap.empty), []) with
      | (Throw msg, warnings) => (Throw msg, warnings)
      | (Ok (denseResults, sparseResults), warnings) =>
          (* Apply RRF reranking *)
          let k := rrf_k options in
          let rrfScores := applyRRF denseResults sparseResults k in
          (* Fetch full documents for top results *)
          let topIds := topIds rrfScores limit in
          let docMap :=
            fold_left (fun (dm : JsMap.t string Row) row => JsMap.set dm (id row) row)
              (select_where_id_in topIds (documents c)) JsMap.empty in
          (Ok (fold_left
                 (fun results id =>
                    match JsMap.get docMap id with
                    | Some row =>
                        results
                          ++ [{| document := rowToDocument row;
                                 score := match JsMap.get rrfScores id with
                                          | Some sc => sc
                                          | None => 0
                                          end |}]
                    | None => results
                    end)
                 topIds []),
           warnings)
      end
  | _ => (Throw "Collection is not a hybrid collection", [])
  end.

End Engine.

(** The rows stored under an id. *)
Definition rows_with (x : string) (t : Table) : Table :=
  filter (fun r => String.eqb (id r) x) t.

(** What [query] returns for a row when the only output field is [id]. *)
Definition id_only (r : Row) : JsMap.t string Value := [("id"%string, VText (id r))].

(** The sparse request yields no terms: there is no trained generator, or
    [generate] finds no vocabulary term in the query text. *)
Definition sparse_query_empty (sqrt : Q -> Q) (c : Collection) (text : string) : Prop :=
  match bm25Generator c with
  | None => True
  | Some bm25 =>
      BM25.trained bm25 = false
      \/ exists sv, BM25.generate sqrt bm25 text BM25.noConfig = Ok sv
                    /\ BM25.indices sv = []
  end.

(** *** Collections and engines for the examples *)

Fixpoint unary (n : nat) : string :=
  match n with
  | O => EmptyString
  | S n' => String "x" (unary n')
  end.

Definition demo_doc (n : nat) : VectorDocument :=
  {| doc_id := unary n; doc_vector := []; doc_content := "c";
     doc_relativePath := "a.ts"; doc_startLine := Z.of_nat n; doc_endLine := Z.of_nat n;
     doc_fileExtension := ".ts"; doc_metadata := "{}" |}.

Definition demo_docs (n : nat) : list VectorDocument := map demo_doc (seq 1 n).

Definition empty_collection (dim : nat) (hybrid : bool) : Collection :=
  {| documents := [];
     metadataCache := Some {| dimension := dim; isHybrid := hybrid; documentCount := 0 |};
     bm25Generator := if hybrid then Some BM25.demo_model else None |}.

(** An engine that understands two WHERE clauses and rejects the rest, as
    SQLite rejects a clause that names a column the table does not have. *)
Definition demo_where (w : string) : option (Row -> bool) :=
  if String.eqb w "start_line > 5" then Some (fun r => (5 <? start_line r)%Z)
  else if String.eqb w "file_extension = '.ts'" then
    Some (fun r => String.eqb (file_extension r) ".ts")
  else None.

Definition no_learn (m : BM25.Model) (contents : list string) : BM25.Model := m.

(** An index that scans the table, and the squared Euclidean distance in
    the place of the cosine distance (both are never negative). *)
Definition scan_top_k (t : Table) (q : list Q) (n : nat) : list Row := firstn n t.

Definition squared_distance (u v : list Q) : Q :=
  fold_left (fun acc xy => acc + (fst xy - snd xy) * (fst xy - snd xy))
    (combine u v) 0.

Definition vec_doc (name : string) (v : list Q) (text : string) : VectorDocument :=
  {| doc_id := name; doc_vector := v; doc_content := text;
     doc_relativePath := "a.ts"; doc_startLine := 1; doc_endLine := 1;
     doc_fileExtension := ".ts"; doc_metadata := "{}" |}.

(** Three documents in the plane. *)
Definition plane_collection : Collection :=
  match insert (empty_collection 2 false)
          [vec_doc "far" [3; 0] "the dog"; vec_doc "near" [1; 0] "the fox";
           vec_doc "mid" [2; 0] "fox dog"] with
  | Ok c => c
  | Throw _ => empty_collection 2 false
  end.

(** The two requests of a hybrid search. *)
Definition dense_request (v : list Q) : HybridSearchRequest :=
  {| data := DataVector v; anns_field := "dense" |}.

Definition sparse_request (text : string) : HybridSearchRequest :=
  {| data := DataText text; anns_field := "sparse" |}.

Definition hybrid_row (name : string) (v : list Q) (text : string)
           (indices : list nat) (values : list Q) : Row :=
  {| id := name; content := text; relative_path := "a.ts"; start_line := 1;
     end_line := 1; file_extension := ".ts"; metadata := "{}"; dense_vector := v;
     sparse_indices := Some indices; sparse_values := Some values |}.


(** A dense collection of dimension 0 holding [demo_docs n]. *)
Definition demo_collection (n : nat) : Collection :=
  match insert (empty_collection 0 false) (demo_docs n) with
  | Ok c => c
  | Throw _ => empty_collection 0 false
  end.

(** Two rows whose ranks are exchanged between the two lists: "b" is the
    nearer to [[1; 0]], "a" has the larger weight for "fox". *)
Definition tie_collection : Collection :=
  {| documents :=
       [hybrid_row "b" [1; 0] "fox" [1]%nat [1];
        hybrid_row "a" [2; 0] "fox fox" [1]%nat [2]];
     metadataCache := Some {| dimension := 2; isHybrid := true; documentCount := 2 |};
     bm25Generator := Some BM25.demo_model |}.

(** An index that hands out the same rows as [scan_top_k], last row first. *)
Definition scan_top_k_rev (t : Table) (q : list Q) (n : nat) : list Row :=
  rev (firstn n t).

Definition default_options : HybridSearchOptions :=
  {| limit := None; rerank_k := None; hybrid_filterExpr := None |}.

(** *** Creating a collection, [insertHybrid], histories of a collection

    [createCollection] and [createHybridCollection] give the state of the new
    collection; the check that no collection of the name exists is about the
    directory, which holds one database file per collection. *)

Definition createCollection (dimension : nat) : Collection :=
  {| documents := [];
     metadataCache := Some {| dimension := dimension; isHybrid := false;
                              documentCount := 0 |};
     bm25Generator := None |}.

Definition createHybridCollection (bm25Config : BM25.BM25Config) (dimension : nat)
  : Collection :=
  {| documents := [];
     metadataCache := Some {| dimension := dimension; isHybrid := true;
                              documentCount := 0 |};
     bm25Generator := Some (BM25.new bm25Config) |}.

(** The row [insertHybrid] writes for a document and its sparse vector. *)
Definition rowOfHybridDocument (doc : VectorDocument) (sv : BM25.SparseVector) : Row :=
  {| id := doc_id doc; content := doc_content doc;
     relative_path := doc_relativePath doc;
     start_line := doc_startLine doc; end_line := doc_endLine doc;
     file_extension := doc_fileExtension doc; metadata := doc_metadata doc;
     dense_vector := doc_vector doc;
     sparse_indices := Some (BM25.indices sv);
     sparse_values := Some (BM25.values sv) |}.

Section Hybrid.
(** [Math.log], [Math.sqrt] and [config.bm25Config]. *)
Variables ln sqrt : Q -> Q.
Variable bm25Config : BM25.BM25Config.

(** [insertHybrid]: what it throws, if it throws, and the collection
    afterwards (the generator is put in place and trained before the rows
    are written). *)
Definition insertHybrid (c : Collection) (docs : list VectorDocument)
  : result unit * Collection :=
  match metadataCache c with
  | None => (Throw "Collection metadata not found", c)
  | Some md =>
      if negb (isHybrid md) then (Throw "Collection is not a hybrid collection", c)
      else
        (* Validate vector dimensions *)
        match find (fun doc =>
                      negb (List.length (doc_vector doc) =? dimension md)%nat) docs with
        | Some doc =>
            (Throw ("Vector dimension mismatch for document '" ++ doc_id doc ++ "'")%string,
             c)
        | None =>
            (* Get or create BM25 generator *)
            let bm25 := match bm25Generator c with
                        | Some g => g
                        | None => BM25.new bm25Config
                        end in
            (* Train BM25 on all documents (existing + new) *)
            let existingContents := map content (documents c) in
            let allContents := existingContents ++ map doc_content docs in
            match BM25.learn ln bm25 allContents with
            | Throw msg =>
                (Throw msg,
                 {| documents := documents c; metadataCache := metadataCache c;
                    bm25Generator := Some bm25 |})
            | Ok bm25' =>
                (* Generate sparse vectors *)
                match BM25.generateBatch sqrt bm25' (map doc_content docs)
                        BM25.noConfig with
                | Throw msg =>
                    (Throw msg,
                     {| documents := documents c; metadataCache := metadataCache c;
                        bm25Generator := Some bm25' |})
                | Ok sparseVectors =>
                    (Ok tt,
                     updateDocumentCount
                       {| documents :=
                            fold_left insert_or_replace
                              (map (fun ds => rowOfHybridDocument (fst ds) (snd ds))
                                 (combine docs sparseVectors))
                              (documents c);
                          metadataCache := metadataCache c;
                          bm25Generator := Some bm25' |})
                end
            end
        end
  end.

(** [bm25.learn(contents)] where the caller has checked that [contents] is
    not empty. *)
Definition learn_or_keep (m : BM25.Model) (contents : list string) : BM25.Model :=
  match BM25.learn ln m contents with
  | Ok m' => m'
  | Throw _ => m
  end.

(** A call that writes to the collection; a call that throws leaves the
    collection as the call left it. *)
Inductive Op :=
| OpInsert (docs : list VectorDocument)
| OpInsertHybrid (docs : list VectorDocument)
| OpDelete (ids : list string).

Definition step (c : Collection) (op : Op) : Collection :=
  match op with
  | OpInsert docs =>
      match insert c docs with
      | Ok c' => c'
      | Throw _ => c
      end
  | OpInsertHybrid docs => snd (insertHybrid c docs)
  | OpDelete ids =>
      match delete learn_or_keep c ids with
      | Ok c' => c'
      | Throw _ => c
      end
  end.

End Hybrid.

(** The collection keeps one row per id, counts its rows, and stores only
    vectors of its dimension. *)
Definition well_formed (dim : nat) (hybrid : bool) (c : Collection) : Prop :=
  NoDup (map id (documents c))
  /\ metadataCache c = Some {| dimension := dim; isHybrid := hybrid;
                               documentCount := List.length (documents c) |}
  /\ Forall (fun r => List.length (dense_vector r) = dim) (documents c).

End LibSQL.

(** ** The remote store adapter: [QdrantVectorDatabase]

    The gRPC client is outside the repository: what it answers to a search,
    scroll or query request is a parameter. *)

Module Qdrant.
Import Js.

(** The two shapes of filter the parser builds ([match any], [match keyword]). *)
Inductive Filter :=
| MatchAny (key : string) (values : list string)
| MatchKeyword (key : string) (value : string).

Definition could_not_parse (expr : string) : list string :=
  ["[QdrantDB] Could not parse filter expression: " ++ expr]%string.

Definition parseFilterExpression (expr : string) : LibSQL.Logged (option Filter) :=
  if includes expr " in " then
    match Regex.exec Regex.re_in expr with
    | Some [field; values] =>
        (Some (MatchAny field
                 (map (fun v => remove_chars Regex.quote (trim v))
                    (split_on "," values))), [])
    | _ => (None, could_not_parse expr)
    end
  else if includes expr "==" then
    match Regex.exec Regex.re_eq_quoted expr with
    | Some [field; value] => (Some (MatchKeyword field (trim value)), [])
    | _ => (None, could_not_parse expr)
    end
  else (None, could_not_parse expr).

(** A scored point as the client returns it. *)
Record Point := {
  point_id : string;
  point_content : string;
  point_relativePath : string;
  point_startLine : Z;
  point_endLine : Z;
  point_fileExtension : string;
  point_metadata : string;
  point_score : Q
}.

Definition toResult (vector : list Q) (p : Point) : LibSQL.VectorSearchResult :=
  {| LibSQL.document :=
       {| LibSQL.doc_id := point_id p; LibSQL.doc_vector := vector;
          LibSQL.doc_content := point_content p;
          LibSQL.doc_relativePath := point_relativePath p;
          LibSQL.doc_startLine := point_startLine p;
          LibSQL.doc_endLine := point_endLine p;
          LibSQL.doc_fileExtension := point_fileExtension p;
          LibSQL.doc_metadata := point_metadata p |};
     LibSQL.score := point_score p |}.

Inductive Data := DataVector (v : list Q) | DataText (text : string).

Record HybridSearchRequest := { data : Data; request_limit : option nat }.


(** [isTrained() ? generate(textQuery) : { indices: [], values: [] }]. *)
Definition sparseQueryOf (sqrt : Q -> Q) (bm25Generator : BM25.Model) (textQuery : string)
  : BM25.SparseVector :=
  match BM25.generate sqrt bm25Generator textQuery BM25.noConfig with
  | Ok sv => sv
  | Throw _ => {| BM25.indices := []; BM25.values := [] |}
  end.

Section Client.

(** [client.api("points").search] with vector, limit and optional filter. *)
Variable points_search : list Q -> nat -> option Filter -> list Point.
(** [client.api("points").scroll] with limit and optional filter. *)
Variable points_scroll : nat -> option Filter -> list Point.
(** [client.api("points").query]: dense prefetch (vector, limit), sparse
    prefetch (indices, values, limit), RRF fusion, limit, optional filter. *)
Variable points_query :
  list Q -> nat -> BM25.SparseVector -> nat -> nat -> option Filter -> list Point.
Variable sqrt : Q -> Q.
Variable bm25Generator : BM25.Model.

(** [if (filterExpr && filterExpr.trim().length > 0) ... parseFilterExpression]. *)
Definition requestFilter (filterExpr : option string)
  : LibSQL.Logged (option Filter) :=
  match filterExpr with
  | Some f =>
      if (0 <? String.length (trim f))%nat then parseFilterExpression f
      else (None, [])
  | None => (None, [])
  end.

Definition search (queryVector : list Q) (options : LibSQL.SearchOptions)
  : LibSQL.Logged (list LibSQL.VectorSearchResult) :=
  let (filter, warnings) := requestFilter (LibSQL.filterExpr options) in
  (map (toResult queryVector)
     (points_search queryVector (or_default (LibSQL.topK options) 10) filter),
   warnings).

(** [query]: the ids of the scrolled points (the payload projection is left out). *)
Definition query (filter : string) (limit : option nat)
  : LibSQL.Logged (list string) :=
  let (f, warnings) := requestFilter (Some filter) in
  (map point_id (points_scroll (or_default limit 100) f), warnings).

Definition isVector (r : HybridSearchRequest) : bool :=
  match data r with DataVector _ => true | DataText _ => false end.

Definition isText (r : HybridSearchRequest) : bool :=
  match data r with DataText _ => true | DataVector _ => false end.

Definition hybridSearch (searchRequests : list HybridSearchRequest)
           (options : LibSQL.HybridSearchOptions)
  : LibSQL.Logged (result (list LibSQL.VectorSearchResult)) :=
  match find isVector searchRequests, find isText searchRequests with
  | Some {| data := DataVector denseQuery; request_limit := denseLimit |},
    Some {| data := DataText textQuery; request_limit := textLimit |} =>
      (* Generate sparse vector using BM25 *)
      let w0 :=
        if BM25.trained bm25Generator then []
        else ["[QdrantDB] BM25 generator not trained. Hybrid search may have reduced quality."%string] in
      let sparseQuery := sparseQueryOf sqrt bm25Generator textQuery in
      let fallback :=
        search denseQuery
          {| LibSQL.topK := Some (or_default (LibSQL.limit options) 10);
             LibSQL.threshold := None;
             LibSQL.filterExpr := LibSQL.hybrid_filterExpr options |} in
      (* Validate sparse query has valid data *)
      if (List.length (BM25.indices sparseQuery) =? 0)%nat
         || (List.length (BM25.values sparseQuery) =? 0)%nat
         || negb (List.length (BM25.indices sparseQuery)
                  =? List.length (BM25.values sparseQuery))%nat then
        (Ok (fst fallback),
         w0 ++ ["[QdrantDB] Invalid or empty sparse query. Falling back to dense-only search."%string]
            ++ snd fallback)
      (* Validate all values are positive *)
      else if existsb (fun v => Qle_bool v 0) (BM25.values sparseQuery) then
        (Ok (fst fallback),
         w0 ++ ["[QdrantDB] Sparse query contains non-positive values! Falling back to dense-only search."%string]
            ++ snd fallback)
      else
        let (filter, warnings) := requestFilter (LibSQL.hybrid_filterExpr options) in
        (Ok (map (toResult [])
               (points_query denseQuery (or_default denseLimit 25) sparseQuery
                  (or_default textLimit 25)
                  (or_default (LibSQL.limit options) 10) filter)),
         w0 ++ warnings)
  | _, _ =>
      (Throw "Hybrid search requires one dense vector request (number[] data) and one text request (string data).",
       [])
  end.

End Client.

(** *** [hybridSearch] from the sparse query on

    What [hybridSearch] does once [sparseQuery] is there, whatever produced
    it: the two validations with their fallback to [search], then the fused
    query. *)
Section Validation.
Variable points_search : list Q -> nat -> option Filter -> list Point.
Variable points_query :
  list Q -> nat -> BM25.SparseVector -> nat -> nat -> option Filter -> list Point.


End Validation.

(** *** Point ids: [convertToNumericId] *)

(** [s.replace(pat, "")] for a string pattern: its first occurrence goes. *)
Fixpoint remove_first (pat s : string) : string :=
  match strip_prefix pat s with
  | Some rest => rest
  | None =>
      match s with
      | EmptyString => EmptyString
      | String c s' => String c (remove_first pat s')
      end
  end.

Definition hex_digit (c : ascii) : option N :=
  let n := nat_of_ascii c in
  if ((48 <=? n) && (n <=? 57))%nat then Some (N.of_nat (n - 48))
  else if ((97 <=? n) && (n <=? 102))%nat then Some (N.of_nat (n - 87))
  else if ((65 <=? n) && (n <=? 70))%nat then Some (N.of_nat (n - 55))
  else None.

Fixpoint hex_value (acc : N) (digits : string) : option N :=
  match digits with
  | EmptyString => Some acc
  | String c digits' =>
      match hex_digit c with
      | Some d => hex_value (16 * acc + d)%N digits'
      | None => None
      end
  end.

(** [BigInt(`0x${hex}`)]: white space after the literal is skipped; a
    literal without digits, or with any other character, is a SyntaxError. *)
Definition BigInt_0x (hex : string) : result N :=
  match trim_end hex with
  | EmptyString => Throw ("SyntaxError: Cannot convert 0x" ++ hex ++ " to a BigInt")
  | String _ _ as digits =>
      match hex_value 0 digits with
      | Some n => Ok n
      | None => Throw ("SyntaxError: Cannot convert 0x" ++ hex ++ " to a BigInt")
      end
  end.

Definition convertToNumericId (chunkId : string) : result N :=
  let hex := remove_first "chunk_" chunkId in
  BigInt_0x hex.

(** The ids of the form [chunk_] followed by 16 hexadecimal digits in lower
    case. *)
Definition is_lower_hex (c : ascii) : bool :=
  let n := nat_of_ascii c in
  (((48 <=? n) && (n <=? 57)) || ((97 <=? n) && (n <=? 102)))%nat.

Definition is_chunk_id (chunkId : string) : bool :=
  match strip_prefix "chunk_" chunkId with
  | Some hex =>
      (String.length hex =? 16)%nat
      && forallb is_lower_hex (list_ascii_of_string hex)
  | None => false
  end.

End Qdrant.

(** ** The in-memory double of the store: [FakeVectorDatabase]

    All collections are modelled, with the failure-injection flag.  A method
    is a function of the state that gives what the method throws or returns
    and the state afterwards; [simulateDelay] only waits. *)

Module FakeDB.
Import Js.

Record FakeCollection := {
  name : string;
  dimension : nat;
  isHybrid : bool;
  documents : list LibSQL.VectorDocument
}.

Record State := {
  collections : JsMap.t string FakeCollection;
  shouldFailNextOperation : bool;
  operationDelay : Z
}.

Definition initial : State :=
  {| collections := JsMap.empty; shouldFailNextOperation := false;
     operationDelay := 0 |}.

Definition M (A : Type) : Type := State -> result A * State.

Definition bind {A B} (m : M A) (k : A -> M B) : M B :=
  fun s => match m s with
           | (Ok a, s') => k a s'
           | (Throw msg, s') => (Throw msg, s')
           end.

Notation "m ;;; k" := (bind m (fun _ => k)) (at level 61, right associativity).

Definition with_collections (s : State) (cs : JsMap.t string FakeCollection) : State :=
  {| collections := cs; shouldFailNextOperation := shouldFailNextOperation s;
     operationDelay := operationDelay s |}.

Definition ensureLoaded (collectionName : string) : M unit :=
  fun s =>
    if negb (JsMap.has (collections s) collectionName) then
      (Throw ("Collection '" ++ collectionName ++ "' not found"), s)
    else (Ok tt, s).

Definition throwIfFailureInjected : M unit :=
  fun s =>
    if shouldFailNextOperation s then
      (Throw "Injected failure for testing",
       {| collections := collections s; shouldFailNextOperation := false;
          operationDelay := operationDelay s |})
    else (Ok tt, s).

Definition decimal (n : nat) : string := NilZero.string_of_uint (Nat.to_uint n).

Definition new_collection (collectionName : string) (dimension : nat) (hybrid : bool)
  : M unit :=
  fun s =>
    if JsMap.has (collections s) collectionName then
      (Throw ("Collection '" ++ collectionName ++ "' already exists"), s)
    else
      (Ok tt,
       with_collections s
         (JsMap.set (collections s) collectionName
            {| name := collectionName; dimension := dimension; isHybrid := hybrid;
               documents := [] |})).

Definition createCollection (collectionName : string) (dimension : nat) : M unit :=
  throwIfFailureInjected ;;; new_collection collectionName dimension false.

Definition createHybridCollection (collectionName : string) (dimension : nat) : M unit :=
  throwIfFailureInjected ;;; new_collection collectionName dimension true.

Definition dropCollection (collectionName : string) : M unit :=
  throwIfFailureInjected ;;;
  fun s => (Ok tt, with_collections s (JsMap.delete (collections s) collectionName)).

Definition hasCollection (s : State) (collectionName : string) : bool :=
  JsMap.has (collections s) collectionName.

Definition listCollections (s : State) : list string := JsMap.keys (collections s).

(** The loop that validates the vector dimensions, then the [push]. *)
Definition push_documents (collectionName : string) (collection : FakeCollection)
           (docs : list LibSQL.VectorDocument) : M unit :=
  fun s =>
    match find (fun doc => negb (List.length (LibSQL.doc_vector doc)
                                 =? dimension collection)%nat) docs with
    | Some doc =>
        (Throw ("Vector dimension mismatch: expected "
                ++ decimal (dimension collection) ++ ", got "
                ++ decimal (List.length (LibSQL.doc_vector doc))), s)
    | None =>
        (Ok tt,
         with_collections s
           (JsMap.set (collections s) collectionName
              {| name := name collection; dimension := dimension collection;
                 isHybrid := isHybrid collection;
                 documents := documents collection ++ docs |}))
    end.

(** [this.collections.get(collectionName)!] after [ensureLoaded]. *)
Definition the_collection {A} (collectionName : string) (k : FakeCollection -> M A) : M A :=
  fun s =>
    match JsMap.get (collections s) collectionName with
    | Some collection => k collection s
    | None => (Throw "TypeError: Cannot read properties of undefined", s)
    end.

Definition insert (collectionName : string) (docs : list LibSQL.VectorDocument) : M unit :=
  ensureLoaded collectionName ;;;
  throwIfFailureInjected ;;;
  the_collection collectionName (fun collection =>
    push_documents collectionName collection docs).

Definition insertHybrid (collectionName : string) (docs : list LibSQL.VectorDocument)
  : M unit :=
  ensureLoaded collectionName ;;;
  throwIfFailureInjected ;;;
  the_collection collectionName (fun collection =>
    if negb (isHybrid collection) then
      fun s => (Throw ("Collection '" ++ collectionName
                       ++ "' is not a hybrid collection"), s)
    else push_documents collectionName collection docs).

Definition delete (collectionName : string) (ids : list string) : M unit :=
  ensureLoaded collectionName ;;;
  throwIfFailureInjected ;;;
  the_collection collectionName (fun collection s =>
    (Ok tt,
     with_collections s
       (JsMap.set (collections s) collectionName
          {| name := name collection; dimension := dimension collection;
             isHybrid := isHybrid collection;
             documents :=
               filter (fun doc => negb (arr_includes ids (LibSQL.doc_id doc)))
                 (documents collection) |}))).

Definition getCollectionDocumentCount (s : State) (collectionName : string) : nat :=
  match JsMap.get (collections s) collectionName with
  | Some collection => List.length (documents collection)
  | None => 0
  end.

Definition getStoredDocuments (s : State) (collectionName : string)
  : list LibSQL.VectorDocument :=
  match JsMap.get (collections s) collectionName with
  | Some collection => documents collection
  | None => []
  end.

Definition isHybridCollection (s : State) (collectionName : string) : bool :=
  match JsMap.get (collections s) collectionName with
  | Some collection => isHybrid collection
  | None => false
  end.

Definition injectFailure (s : State) : State :=
  {| collections := collections s; shouldFailNextOperation := true;
     operationDelay := operationDelay s |}.

Definition setOperationDelay (ms : Z) (s : State) : State :=
  {| collections := collections s;
     shouldFailNextOperation := shouldFailNextOperation s; operationDelay := ms |}.

Definition reset (s : State) : State := initial.

(** The five methods that write, as calls. *)
Inductive Call :=
| CallCreateCollection (collectionName : string) (dimension : nat)
| CallCreateHybridCollection (collectionName : string) (dimension : nat)
| CallDropCollection (collectionName : string)
| CallInsert (collectionName : string) (docs : list LibSQL.VectorDocument)
| CallInsertHybrid (collectionName : string) (docs : list LibSQL.VectorDocument)
| CallDelete (collectionName : string) (ids : list string).

Definition perform (c : Call) : M unit :=
  match c with
  | CallCreateCollection n d => createCollection n d
  | CallCreateHybridCollection n d => createHybridCollection n d
  | CallDropCollection n => dropCollection n
  | CallInsert n docs => insert n docs
  | CallInsertHybrid n docs => insertHybrid n docs
  | CallDelete n ids => delete n ids
  end.

(** The collection a call needs to find before anything else, if any. *)
Definition needs_collection (c : Call) : option string :=
  match c with
  | CallInsert n _ | CallInsertHybrid n _ | CallDelete n _ => Some n
  | _ => None
  end.

End FakeDB.

(** * Properties *)

Unset Implicit Arguments.

Lemma eqb_refl {K} `{Eqb K} (x : K) : eqb x x = true.
Proof. now apply eqb_eq. Qed.

Lemma eqb_neq {K} `{Eqb K} (x y : K) : eqb x y = false <-> x <> y.
Proof.
split.
- intros E Hxy. apply eqb_eq in Hxy. congruence.
- intros N. destruct (eqb x y) eqn:E; [apply eqb_eq in E; contradiction | reflexivity].
Qed.


Section JsMapFacts.
Context {K V : Type} `{Eqb K}.
Implicit Types (m : JsMap.t K V) (k : K) (v : V).
Import JsMap.

Lemma get_set_same m k v : get (set m k v) k = Some v.
Proof.
  induction m as [|[k' v'] m IH]; simpl.
  - now rewrite eqb_refl.
  - destruct (eqb k' k) eqn:E; simpl; rewrite E; auto.
Qed.

Lemma get_set_other m k k' v : k <> k' -> get (set m k v) k' = get m k'.
Proof.
  intros N. induction m as [|[k0 v0] m IH]; simpl.
  - apply eqb_neq in N. now rewrite N.
  - destruct (eqb k0 k) eqn:E; simpl.
    + apply eqb_eq in E. subst k0.
      apply eqb_neq in N. now rewrite N.
    + now rewrite IH.
Qed.

Lemma get_delete_same m k : get (delete m k) k = None.
Proof.
  unfold delete. induction m as [|[k0 v0] m IH]; simpl; auto.
  destruct (eqb k0 k) eqn:E; simpl; auto. now rewrite E.
Qed.

Lemma get_delete_other m k k' : k <> k' -> get (delete m k) k' = get m k'.
Proof.
  intros N. unfold delete. induction m as [|[k0 v0] m IH]; simpl; auto.
  destruct (eqb k0 k) eqn:E; simpl.
  - apply eqb_eq in E. subst k0. apply eqb_neq in N. now rewrite N.
  - now rewrite IH.
Qed.

Lemma in_keys_get m k : In k (keys m) <-> get m k <> None.
Proof.
  unfold keys. induction m as [|[k0 v0] m IH]; simpl.
  - split; [tauto | congruence].
  - destruct (eqb k0 k) eqn:E.
    + apply eqb_eq in E. split; [congruence | auto].
    + apply eqb_neq in E. rewrite <- IH. split; [intros [?|?]; [contradiction | auto] | auto].
Qed.
End JsMapFacts.

Section RegistryFacts.
Import Registry.

Lemma includes_In l p : includes l p = true <-> In p l.
Proof.
  unfold includes. rewrite existsb_exists. split.
  - intros [q [Hq E]]. apply String.eqb_eq in E. now subst.
  - intros Hp. exists p. split; [assumption | apply String.eqb_refl].
Qed.

End RegistryFacts.

Section RegistryProperties.
Import Registry.

(** C8 (registry in-memory freshness).  Right after [setCodebaseIndexed p st],
    whatever the state was before, the indexed list contains [p], the info for
    [p] is the indexed record carrying [st], [p] is absent from the indexing
    list and has no progress; the same reads are obtained whether or not
    [saveCodebaseSnapshot] has run. *)
Theorem set_indexed_in_memory_fresh (now p : string) (st : Stats) (s : State) :
  let s' := setCodebaseIndexed now p st s in
  (In p (getIndexedCodebases s')
   /\ getCodebaseInfo s' p =
        Some (CodebaseInfoIndexed (indexedFiles st) (totalChunks st) (status st) now)
   /\ getCodebaseStatus s' p = st_indexed
   /\ ~ In p (getIndexingCodebases s')
   /\ getIndexingProgress s' p = None)
  /\ getIndexedCodebases (saveCodebaseSnapshot s') = getIndexedCodebases s'
  /\ getCodebaseInfo (saveCodebaseSnapshot s') p = getCodebaseInfo s' p
  /\ getIndexingCodebases (saveCodebaseSnapshot s') = getIndexingCodebases s'.
Proof.
  cbv zeta. split; [|repeat split; reflexivity].
  unfold getIndexedCodebases, getCodebaseInfo, getCodebaseStatus,
    getIndexingCodebases, getIndexingProgress, setCodebaseIndexed; simpl.
  repeat split.
  - destruct (includes (indexedCodebases s) p) eqn:E.
    + now apply includes_In.
    + apply in_or_app. right. now left.
  - apply get_set_same.
  - now rewrite get_set_same.
  - rewrite in_keys_get. rewrite get_delete_same. congruence.
  - apply get_delete_same.
Qed.

(** The scenario of the race-condition test: indexing at 50 %, then indexed. *)
Example registry_race_scenario :
  let s := setCodebaseIndexed "t1" "/test/project"
             {| indexedFiles := 10; totalChunks := 100; status := completed |}
             (setCodebaseIndexing "t0" "/test/project" 50 initial) in
  getIndexedCodebases s = ["/test/project"%string]
  /\ getIndexingCodebases s = []
  /\ getCodebaseStatus s "/test/project" = st_indexed.
Proof. repeat split. Qed.

End RegistryProperties.

Section RetryProperties.
Import Retry.
Variable api : nat -> Contents -> Outcome Response.
Variable preprocessText : string -> string.
Variables maxRetries baseDelay : Z.

Lemma retry_loop_resolved T (operation : M T) c out context r a last w v :
  one_request operation c out ->
  out (calls w) = Resolved v ->
  Retry.retry_loop maxRetries baseDelay operation context (S r) a last w =
  (Resolved v, {| calls := S (calls w); trace := trace w ++ [EvCall c] |}).
Proof.
  intros Hop Hv. simpl. unfold try_catch. now rewrite Hop, Hv.
Qed.

Lemma retry_loop_not_retryable T (operation : M T) c out context r a last w e :
  one_request operation c out ->
  out (calls w) = Rejected e ->
  isRetryableError e = false ->
  Retry.retry_loop maxRetries baseDelay operation context (S r) a last w =
  (Rejected (wrapError context (Some e)),
   {| calls := S (calls w); trace := trace w ++ [EvCall c] |}).
Proof.
  intros Hop He Hn. simpl. unfold try_catch. rewrite Hop, He, Hn. reflexivity.
Qed.

Lemma retry_loop_exhausted T (operation : M T) c out context r last w e :
  one_request operation c out ->
  out (calls w) = Rejected e ->
  Retry.retry_loop maxRetries baseDelay operation context (S r) maxRetries last w =
  (Rejected (wrapError context (Some e)),
   {| calls := S (calls w); trace := trace w ++ [EvCall c] |}).
Proof.
  intros Hop He. simpl. unfold try_catch. rewrite Hop, He, Z.eqb_refl.
  destruct (isRetryableError e); reflexivity.
Qed.

Lemma retry_loop_retry T (operation : M T) c out context r a last w e :
  one_request operation c out ->
  out (calls w) = Rejected e ->
  isRetryableError e = true ->
  a <> maxRetries ->
  Retry.retry_loop maxRetries baseDelay operation context (S r) a last w =
  Retry.retry_loop maxRetries baseDelay operation context r (a + 1) (Some e)
    {| calls := S (calls w);
       trace := (trace w ++ [EvCall c])
                  ++ [EvSleep (Z.min (baseDelay * 2 ^ a) 10000)] |}.
Proof.
  intros Hop He Hr Ha. simpl. unfold try_catch. rewrite Hop, He, Hr. simpl.
  apply Z.eqb_neq in Ha. rewrite Ha. reflexivity.
Qed.

(** [n] retryable failures in a row cost [n] requests and [n] waits with the
    exponential, capped delays, and leave the loop at attempt [a + n]. *)
Lemma retry_loop_retries T (operation : M T) c out context :
  one_request operation c out ->
  forall n r a last w,
    (forall i, (i < n)%nat ->
       exists e, out (calls w + i)%nat = Rejected e /\ isRetryableError e = true) ->
    (a + Z.of_nat n <= maxRetries)%Z ->
    exists last',
      Retry.retry_loop maxRetries baseDelay operation context (n + r) a last w =
      Retry.retry_loop maxRetries baseDelay operation context r (a + Z.of_nat n) last'
        {| calls := calls w + n;
           trace := trace w ++ retried c baseDelay n a |}.
Proof.
  intros Hop. induction n as [|n IH]; intros r a last w Hfail Hle.
  - exists last. simpl. rewrite Z.add_0_r, Nat.add_0_r, app_nil_r.
    destruct w; reflexivity.
  - destruct (Hfail 0%nat) as [e [He Hr]]; [lia|].
    rewrite Nat.add_0_r in He.
    change (S n + r)%nat with (S (n + r)).
    rewrite (@retry_loop_retry T operation c out context (n + r) a last w e Hop He Hr)
      by lia.
    edestruct (IH r (a + 1)%Z (Some e)
                 {| calls := S (calls w);
                    trace := (trace w ++ [EvCall c])
                               ++ [EvSleep (Z.min (baseDelay * 2 ^ a) 10000)] |})
      as [last' Hl].
    + intros i Hi. simpl. destruct (Hfail (S i)) as [e' He']; [lia|].
      exists e'. now rewrite Nat.add_succ_r in He'.
    + lia.
    + exists last'. rewrite Hl. simpl.
      replace (a + 1 + Z.of_nat n)%Z with (a + Z.pos (Pos.of_succ_nat n))%Z by lia.
      replace (S (calls w + n)) with (calls w + S n)%nat by lia.
      rewrite <- !app_assoc. reflexivity.
Qed.

(** The three ways [executeWithRetry] ends after [n] retried attempts. *)
Lemma executeWithRetry_outcomes T (operation : M T) c out context (n : nat) w :
  one_request operation c out ->
  (Z.of_nat n <= maxRetries)%Z ->
  (forall i, (i < n)%nat ->
     exists e, out (calls w + i)%nat = Rejected e /\ isRetryableError e = true) ->
  (forall v, out (calls w + n)%nat = Resolved v ->
     Retry.executeWithRetry maxRetries baseDelay operation context w =
     (Resolved v, after_attempts w c baseDelay n))
  /\ (forall e, out (calls w + n)%nat = Rejected e ->
        isRetryableError e = false \/ Z.of_nat n = maxRetries ->
        Retry.executeWithRetry maxRetries baseDelay operation context w =
        (Rejected (wrapError context (Some e)), after_attempts w c baseDelay n)).
Proof.
  intros Hop Hle Hfail.
  destruct (@retry_loop_retries T operation c out context Hop n
              (S (Z.to_nat (maxRetries - Z.of_nat n))) 0%Z None w Hfail)
    as [last' Hl]; [lia|].
  assert (Hrem : Z.to_nat (maxRetries + 1) =
                 (n + S (Z.to_nat (maxRetries - Z.of_nat n)))%nat) by lia.
  unfold Retry.executeWithRetry. rewrite Hrem, Hl. clear Hl Hrem.
  assert (HW : forall (x : Outcome T),
             (x, {| calls := S (calls w + n);
                    trace := (trace w ++ retried c baseDelay n 0) ++ [EvCall c] |})
             = (x, after_attempts w c baseDelay n)).
  { intros x. unfold after_attempts. rewrite <- app_assoc.
    replace (calls w + n + 1)%nat with (S (calls w + n)) by lia. reflexivity. }
  split.
  - intros v Hv. rewrite <- HW.
    erewrite retry_loop_resolved; [reflexivity | exact Hop | exact Hv].
  - intros e He [Hn | Hmax]; rewrite <- HW.
    + erewrite retry_loop_not_retryable; [reflexivity | exact Hop | exact He | exact Hn].
    + simpl (0 + Z.of_nat n)%Z. rewrite Hmax.
      erewrite retry_loop_exhausted; [reflexivity | exact Hop | exact He].
Qed.

End RetryProperties.

Section EmbedProperties.
Import Retry.
Variable api : nat -> Contents -> Outcome Response.
Variable preprocessText : string -> string.
Variables maxRetries baseDelay : Z.

Lemma embedOperation_one_request processedText :
  one_request (embedOperation api processedText) (One processedText)
    (fun n => embed_outcome (api n (One processedText))).
Proof.
  intros w. unfold embedOperation, bind, embedContent.
  destruct (api (calls w) (One processedText)) as [[[|[values|] rest]|]|e];
    reflexivity.
Qed.




End EmbedProperties.

Section FallbackLoop.
Import Retry.
Variable api : nat -> Contents -> Outcome Response.
Variable preprocessText : string -> string.
Variables maxRetries baseDelay : Z.







End FallbackLoop.


(** The classifier on the errors used by the unit tests. *)
Example isRetryableError_examples :
  Retry.isRetryableError (Retry.Obj false (Some "ECONNREFUSED"%string) None None None) = true
  /\ Retry.isRetryableError (Retry.Obj false None (Some 429%Z) None None) = true
  /\ Retry.isRetryableError (Retry.Obj false None (Some 503%Z) None None) = true
  /\ Retry.isRetryableError (Retry.Obj false None None (Some "Connection timeout"%string) None) = true
  /\ Retry.isRetryableError (Retry.Obj false None (Some 401%Z) (Some "Invalid API key"%string) None) = false
  /\ Retry.isRetryableError (Retry.Obj false None (Some 501%Z) (Some "Not Implemented"%string) None) = false
  /\ Retry.isRetryableError (Retry.Primitive "timeout") = false.
Proof. repeat split. Qed.



(** What the code does on that input: two requests, no wait, a result. *)
Example embedBatch_fallback_run :
  Retry.embedBatch Retry.api_refuses_first (fun s => s) 3 1000 ["text1"%string]
    Retry.world0 =
  (Retry.Resolved [{| Retry.vector := [1 # 10]; Retry.dimension := 1 |}],
   {| Retry.calls := 2;
      Retry.trace := [Retry.EvCall (Retry.Many ["text1"%string]);
                      Retry.EvCall (Retry.One "text1")] |}).
Proof. reflexivity. Qed.

Section BM25Properties.
Import Js BM25.
Variable sqrt : Q -> Q.

Lemma combine_fst_snd {A B} (l : list (A * B)) :
  combine (map fst l) (map snd l) = l.
Proof. induction l as [|[a c] l IH]; simpl; congruence. Qed.

Lemma apply_minScore_app config ws1 ws2 :
  apply_minScore config (ws1 ++ ws2) =
  apply_minScore config ws1 ++ apply_minScore config ws2.
Proof.
  unfold apply_minScore. destruct (minScore config); [apply filter_app | reflexivity].
Qed.

(** The loop over [termFreq] pushes exactly the weights that pass [minScore]. *)
Lemma score_term_fold m config docLength entries acc :
  let ws := apply_minScore config
              (flat_map (fun entry : string * nat =>
                 match JsMap.get (vocabulary m) (fst entry),
                       JsMap.get (idf m) (fst entry) with
                 | Some vocabIndex, Some idfScore =>
                     [(vocabIndex, bm25_score m docLength (snd entry) idfScore)]
                 | _, _ => []
                 end) entries) in
  fold_left (score_term m config docLength) entries acc =
  (fst acc ++ map fst ws, snd acc ++ map snd ws).
Proof.
  cbv zeta. revert acc.
  induction entries as [|[term tf] entries IH]; intros [ixs vs].
  - unfold apply_minScore; simpl. destruct (minScore config); simpl;
      now rewrite !app_nil_r.
  - simpl flat_map. rewrite apply_minScore_app. simpl fold_left. rewrite IH.
    unfold apply_minScore. simpl fst; simpl snd.
    destruct (JsMap.get (vocabulary m) term) as [vocabIndex|];
      [destruct (JsMap.get (idf m) term) as [idfScore|]|];
      destruct (minScore config) as [ms|]; simpl; try reflexivity.
    + destruct (Qle_bool ms (bm25_score m docLength tf idfScore)); simpl;
        now rewrite <- ?app_assoc.
    + now rewrite <- !app_assoc.
Qed.

Lemma shift_positive_fst ws : map fst (shift_positive ws) = map fst ws.
Proof.
  unfold shift_positive. destruct (map snd ws) as [|v vs]; [reflexivity|].
  destruct (Qle_bool (list_min v vs) 0); [|reflexivity].
  rewrite map_map. reflexivity.
Qed.

Lemma apply_normalize_fst config ws :
  map fst (apply_normalize sqrt config ws) = map fst ws.
Proof.
  unfold apply_normalize.
  destruct (normalize config && (0 <? List.length ws)%nat); [|reflexivity].
  rewrite map_map. reflexivity.
Qed.

(** [generate] computes the pipeline in which the filters come first. *)
Lemma generate_pipeline m text config :
  trained m = true ->
  generate sqrt m text config = Ok (generate_filters_first sqrt m text config).
Proof.
  intros Ht. unfold generate, generate_filters_first. rewrite Ht. simpl negb. cbv iota.
  rewrite score_term_fold. simpl fst; simpl snd. rewrite !app_nil_l.
  fold (raw_weights m text).
  set (ws := apply_minScore config (raw_weights m text)).
  assert (Hmax :
    match maxTerms config with
    | Some mt =>
        if (mt <? List.length (map fst ws))%nat
        then (map fst (firstn mt (stable_sort (desc snd) (combine (map fst ws) (map snd ws)))),
              map snd (firstn mt (stable_sort (desc snd) (combine (map fst ws) (map snd ws)))))
        else (map fst ws, map snd ws)
    | None => (map fst ws, map snd ws)
    end = (map fst (apply_maxTerms config ws), map snd (apply_maxTerms config ws))).
  { unfold apply_maxTerms. rewrite combine_fst_snd, length_map.
    destruct (maxTerms config) as [mt|]; [|reflexivity].
    destruct (mt <? List.length ws)%nat; reflexivity. }
  rewrite Hmax. clear Hmax.
  set (ws1 := apply_maxTerms config ws).
  unfold to_vector. f_equal. f_equal.
  - now rewrite apply_normalize_fst, shift_positive_fst.
  - assert (Hshift :
      match map snd ws1 with
      | [] => map snd ws1
      | v :: vs =>
          if Qle_bool (list_min v vs) 0
          then map (fun x => x + (- list_min v vs + epsilon)) (map snd ws1)
          else map snd ws1
      end = map snd (shift_positive ws1)).
    { unfold shift_positive. destruct (map snd ws1) as [|v vs] eqn:E; [now rewrite E|].
      destruct (Qle_bool (list_min v vs) 0); [|now rewrite E].
      rewrite <- E, !map_map. reflexivity. }
    rewrite Hshift. unfold apply_normalize. rewrite !length_map.
    destruct (normalize config && (0 <? List.length (shift_positive ws1))%nat);
      [|reflexivity].
    rewrite !map_map. reflexivity.
Qed.






Hypothesis sqrt_pos : forall x, 0 < x -> 0 < sqrt x.



End BM25Properties.

(** Under [sane] the BM25 quotient divides by a number that is at least the
    term frequency, so the rational model never divides by zero. *)
Lemma bm25_denominator_positive (m : BM25.Model) (docLength tf : nat) :
  BM25.sane m -> 0 < BM25.avgDocLength m -> (1 <= tf)%nat ->
  0 < inject_Z (Z.of_nat tf)
      + BM25.k1 m * (1 - BM25.b m
                     + (BM25.b m * inject_Z (Z.of_nat docLength)) / BM25.avgDocLength m).
Proof.
  intros (Hk & Hb0 & Hb1 & _) Havg Htf.
  assert (Htf' : 1 <= inject_Z (Z.of_nat tf)).
  { change 1 with (inject_Z 1). rewrite <- Zle_Qle. lia. }
  assert (Hdl : 0 <= inject_Z (Z.of_nat docLength)).
  { change 0 with (inject_Z 0). rewrite <- Zle_Qle. lia. }
  assert (Hq : 0 <= (BM25.b m * inject_Z (Z.of_nat docLength)) / BM25.avgDocLength m).
  { apply Qle_shift_div_l; [assumption|]. nra. }
  assert (0 <= BM25.k1 m * (1 - BM25.b m
            + (BM25.b m * inject_Z (Z.of_nat docLength)) / BM25.avgDocLength m)).
  { apply Qmult_le_0_compat; [assumption | lra]. }
  lra.
Qed.





(** C7 as stated fails: with [minScore = 0] the term of negative weight is
    dropped by the code before any shift, whereas shifting first keeps it. *)
Lemma generate_is_not_shift_first :
  ~ (forall (sqrt : Q -> Q) (m : BM25.Model) (text : string)
            (config : BM25.SparseVectorConfig),
       BM25.trained m = true ->
       Exists (fun w => snd w <= 0) (BM25.raw_weights m text) ->
       BM25.generate sqrt m text config =
       Js.Ok (BM25.generate_shift_first sqrt m text config)).
Proof.
  intros H.
  specialize (H BM25.approx_sqrt BM25.demo_model "the fox dog"%string
                {| BM25.minScore := Some 0; BM25.maxTerms := None;
                   BM25.normalize := false |} eq_refl).
  assert (Hneg : Exists (fun w => snd w <= 0)
                   (BM25.raw_weights BM25.demo_model "the fox dog")).
  { match goal with
    | |- Exists _ ?l => let l' := eval vm_compute in l in change l with l'
    end.
    apply Exists_cons_hd. simpl. unfold Qle. simpl. lia. }
  specialize (H Hneg). vm_compute in H. discriminate H.
Qed.

(** The two orders on that input: the code emits two terms, the order of the
    specification three. *)
Example generate_orders_differ :
  let config := {| BM25.minScore := Some 0; BM25.maxTerms := None;
                   BM25.normalize := false |} in
  (exists vs, BM25.generate BM25.approx_sqrt BM25.demo_model "the fox dog" config
              = Js.Ok {| BM25.indices := [1; 2]%nat; BM25.values := vs |})
  /\ BM25.indices (BM25.generate_shift_first BM25.approx_sqrt BM25.demo_model
                     "the fox dog" config) = [0; 1; 2]%nat.
Proof. split; [eexists; vm_compute; reflexivity | reflexivity]. Qed.

(** C7, as amended (order of the steps of [generate]).  For a trained model,
    [generate] applies [minScore] and then [maxTerms] (the [maxTerms] largest,
    by a stable descending sort) to the unshifted BM25 weights; only then, if
    a surviving value is [<= 0], all surviving values are shifted by
    [-min + 1e-6], [min] being the least surviving value; normalisation is
    last.  The emitted indices are those selected on the unshifted weights. *)
Theorem generate_filters_before_shift (sqrt : Q -> Q) (m : BM25.Model)
        (text : string) (config : BM25.SparseVectorConfig) :
  BM25.trained m = true ->
  BM25.generate sqrt m text config =
    Js.Ok (BM25.generate_filters_first sqrt m text config)
  /\ BM25.indices (BM25.generate_filters_first sqrt m text config) =
     map fst (BM25.apply_maxTerms config
                (BM25.apply_minScore config (BM25.raw_weights m text)))
  /\ BM25.epsilon == 1 / 1000000.
Proof.
  intros Ht. split; [now apply generate_pipeline|]. split.
  - unfold BM25.generate_filters_first, BM25.to_vector. simpl.
    now rewrite apply_normalize_fst, shift_positive_fst.
  - reflexivity.
Qed.

Lemma generate_filters_before_shift_witness :
  BM25.generate BM25.approx_sqrt BM25.demo_model "the fox dog"
    {| BM25.minScore := Some 0; BM25.maxTerms := None; BM25.normalize := false |}
  = Js.Ok (BM25.generate_filters_first BM25.approx_sqrt BM25.demo_model
             "the fox dog"
             {| BM25.minScore := Some 0; BM25.maxTerms := None;
                BM25.normalize := false |}).
Proof.
  exact (proj1 (generate_filters_before_shift BM25.approx_sqrt BM25.demo_model
                  "the fox dog"
                  {| BM25.minScore := Some 0; BM25.maxTerms := None;
                     BM25.normalize := false |} eq_refl)).
Defined.

(** ** Stable sorting *)

Section SortFacts.
Import Js.
Context {A : Type}.
Variable before : A -> A -> bool.

Lemma insert_sorted_perm x l : Permutation (insert_sorted before x l) (x :: l).
Proof.
  induction l as [|y l IH]; simpl; [reflexivity|].
  destruct (before x y); [reflexivity|].
  rewrite IH. apply perm_swap.
Qed.

Lemma stable_sort_perm l : Permutation (stable_sort before l) l.
Proof.
  induction l as [|x l IH]; simpl; [reflexivity|].
  change (fold_right (insert_sorted before) [] l) with (stable_sort before l).
  rewrite insert_sorted_perm. now apply perm_skip.
Qed.

Lemma stable_sort_In x l : In x (stable_sort before l) <-> In x l.
Proof.
  split; apply Permutation_in; [|symmetry]; apply stable_sort_perm.
Qed.

Lemma stable_sort_length l : List.length (stable_sort before l) = List.length l.
Proof. apply Permutation_length, stable_sort_perm. Qed.

Lemma stable_sort_cons x l :
  stable_sort before (x :: l) = insert_sorted before x (stable_sort before l).
Proof. reflexivity. Qed.

Hypothesis before_total : forall x y, before x y = true \/ before y x = true.
Hypothesis before_trans :
  forall x y z, before x y = true -> before y z = true -> before x z = true.

Lemma insert_sorted_sorted x l :
  StronglySorted (fun a c => before a c = true) l ->
  StronglySorted (fun a c => before a c = true) (insert_sorted before x l).
Proof.
  induction 1 as [|y l Hl IH Hy]; simpl.
  - constructor; constructor.
  - destruct (before x y) eqn:E.
    + constructor; [constructor; assumption|].
      constructor; [assumption|].
      eapply Forall_impl; [|exact Hy]. intros z Hz. now apply before_trans with y.
    + constructor; [assumption|].
      assert (Hyx : before y x = true) by (destruct (before_total x y); congruence).
      apply Forall_forall. intros z Hz.
      apply (Permutation_in _ (insert_sorted_perm x l)) in Hz.
      destruct Hz as [<- | Hz]; [assumption|].
      rewrite Forall_forall in Hy. now apply Hy.
Qed.

Lemma stable_sort_sorted l :
  StronglySorted (fun a c => before a c = true) (stable_sort before l).
Proof.
  induction l as [|x l IH]; [constructor|].
  rewrite stable_sort_cons. now apply insert_sorted_sorted.
Qed.



(** A list sorted strictly is the only sorted arrangement of its elements. *)
Lemma sorted_perm_unique l1 : forall l2,
  StronglySorted (fun a c => before a c = true) l1 ->
  StronglySorted (fun a c => before a c = true /\ before c a = false) l2 ->
  Permutation l1 l2 ->
  l1 = l2.
Proof.
  induction l1 as [|a l1 IH]; intros l2 H1 H2 HP.
  - apply Permutation_nil in HP. now subst.
  - destruct l2 as [|c l2]; [symmetry in HP; apply Permutation_nil in HP; discriminate|].
    inversion H1 as [|? ? Hs1 Ha]; subst. inversion H2 as [|? ? Hs2 Hc]; subst.
    rewrite Forall_forall in Ha, Hc.
    assert (a = c) as ->.
    { assert (Hin : In a (c :: l2))
        by (apply (Permutation_in _ HP); now left).
      destruct Hin as [-> | Hin]; [reflexivity|].
      assert (Hin' : In c (a :: l1))
        by (apply (Permutation_in _ (Permutation_sym HP)); now left).
      destruct Hin' as [-> | Hin']; [reflexivity|].
      destruct (Hc a Hin) as [_ Hac]. rewrite (Ha c Hin') in Hac. discriminate. }
    f_equal. apply IH; [assumption | assumption |].
    now apply Permutation_cons_inv with c.
Qed.

End SortFacts.

Lemma stable_sort_ext {A} (b1 b2 : A -> A -> bool) l :
  (forall x y, In x l -> In y l -> b1 x y = b2 x y) ->
  Js.stable_sort b1 l = Js.stable_sort b2 l.
Proof.
  induction l as [|x l IH]; intros H; [reflexivity|].
  rewrite !stable_sort_cons. rewrite <- IH by (intros; apply H; now right).
  assert (Hx : forall y, In y (Js.stable_sort b1 l) -> b1 x y = b2 x y).
  { intros y Hy. apply H; [now left | right; now apply (stable_sort_In b1)]. }
  revert Hx. generalize (Js.stable_sort b1 l). intros s.
  induction s as [|y s IHs]; intros Hx; simpl; [reflexivity|].
  rewrite <- (Hx y) by now left. destruct (b1 x y); [reflexivity|].
  f_equal. apply IHs. intros z Hz. apply Hx. now right.
Qed.

Lemma stable_sort_map {A B} (f : A -> B) (before : B -> B -> bool) l :
  Js.stable_sort before (map f l) =
  map f (Js.stable_sort (fun x y => before (f x) (f y)) l).
Proof.
  induction l as [|x l IH]; [reflexivity|].
  simpl map. rewrite !stable_sort_cons, IH. clear IH.
  induction (Js.stable_sort (fun x y => before (f x) (f y)) l) as [|y s IHs];
    simpl; [reflexivity|].
  destruct (before (f x) (f y)); simpl; [reflexivity | f_equal; exact IHs].
Qed.

Lemma desc_total {A} (val : A -> Q) x y :
  Js.desc val x y = true \/ Js.desc val y x = true.
Proof.
  unfold Js.desc. rewrite !Qle_bool_iff.
  destruct (Qlt_le_dec (val x) (val y)); [right; lra | left; lra].
Qed.

Lemma desc_trans {A} (val : A -> Q) x y z :
  Js.desc val x y = true -> Js.desc val y z = true -> Js.desc val x z = true.
Proof. unfold Js.desc. rewrite !Qle_bool_iff. lra. Qed.

Lemma asc_total {A} (val : A -> Q) x y :
  Js.asc val x y = true \/ Js.asc val y x = true.
Proof.
  unfold Js.asc. rewrite !Qle_bool_iff.
  destruct (Qlt_le_dec (val x) (val y)); [left; lra | right; lra].
Qed.

Lemma asc_trans {A} (val : A -> Q) x y z :
  Js.asc val x y = true -> Js.asc val y z = true -> Js.asc val x z = true.
Proof. unfold Js.asc. rewrite !Qle_bool_iff. lra. Qed.

Lemma In_firstn {A} (x : A) n l : In x (firstn n l) -> In x l.
Proof.
  intros H. rewrite <- (firstn_skipn n l). apply in_or_app. now left.
Qed.

(** ** The local store: insert, delete, query *)

Section StoreProperties.
Import Js LibSQL.
Variable sql_where : string -> option (Row -> bool).
Variable learn : BM25.Model -> list string -> BM25.Model.

Lemma rows_with_insert_or_replace x t r :
  rows_with x (insert_or_replace t r) =
  if String.eqb (id r) x then [r] else rows_with x t.
Proof.
  unfold rows_with, insert_or_replace. rewrite filter_app. simpl.
  destruct (String.eqb (id r) x) eqn:E.
  - apply String.eqb_eq in E. subst x.
    replace (filter _ (filter _ t)) with (@nil Row); [reflexivity|].
    induction t as [|r' t IH]; simpl; [reflexivity|].
    destruct (String.eqb (id r') (id r)) eqn:E'; simpl; [assumption|].
    now rewrite E'.
  - rewrite app_nil_r. induction t as [|r' t IH]; simpl; [reflexivity|].
    destruct (String.eqb (id r') (id r)) eqn:E'; simpl.
    + apply String.eqb_eq in E'. rewrite E', E. assumption.
    + destruct (String.eqb (id r') x); [f_equal|]; assumption.
Qed.

Lemma rows_with_fold_other x rows : forall t,
  (forall r, In r rows -> id r <> x) ->
  rows_with x (fold_left insert_or_replace rows t) = rows_with x t.
Proof.
  induction rows as [|r rows IH]; intros t H; simpl; [reflexivity|].
  rewrite IH by (intros; apply H; now right).
  rewrite rows_with_insert_or_replace.
  assert (N : id r <> x) by (apply H; now left).
  apply String.eqb_neq in N. now rewrite N.
Qed.

(** After the batch, the row stored under an id is the last document of the
    batch that carries this id. *)
Lemma rows_with_fold_last rows1 r rows2 t :
  (forall r', In r' rows2 -> id r' <> id r) ->
  rows_with (id r) (fold_left insert_or_replace (rows1 ++ r :: rows2) t) = [r].
Proof.
  intros H. rewrite fold_left_app. simpl.
  rewrite rows_with_fold_other by assumption.
  rewrite rows_with_insert_or_replace. now rewrite String.eqb_refl.
Qed.

Lemma last_occurrence (docs : list VectorDocument) (x : string) :
  (exists d, In d docs /\ doc_id d = x) ->
  exists docs1 d' docs2,
    docs = docs1 ++ d' :: docs2 /\ doc_id d' = x
    /\ forall e, In e docs2 -> doc_id e <> x.
Proof.
  induction docs as [|a docs IH]; intros [d [Hin Hd]]; [contradiction|].
  destruct (existsb (fun e => String.eqb (doc_id e) x) docs) eqn:E.
  - apply existsb_exists in E. destruct E as [e [He Heq]].
    apply String.eqb_eq in Heq.
    destruct IH as (docs1 & d' & docs2 & -> & Hd' & Hno); [eauto|].
    exists (a :: docs1), d', docs2. auto.
  - exists [], a, docs. split; [reflexivity|]. split.
    + destruct Hin as [-> | Hin]; [assumption|].
      exfalso. apply Bool.not_true_iff_false in E. apply E.
      apply existsb_exists. exists d. split; [assumption|].
      now apply String.eqb_eq.
    + intros e He Heq. apply Bool.not_true_iff_false in E. apply E.
      apply existsb_exists. exists e. split; [assumption|].
      now apply String.eqb_eq.
Qed.

Lemma rows_with_In x t r : In r (rows_with x t) <-> In r t /\ id r = x.
Proof.
  unfold rows_with. rewrite filter_In. now rewrite String.eqb_eq.
Qed.

Lemma arr_includes_In l x : arr_includes l x = true <-> In x l.
Proof.
  unfold arr_includes. rewrite existsb_exists. split.
  - intros [y [Hy E]]. apply String.eqb_eq in E. now subst.
  - intros H. exists x. split; [assumption | apply String.eqb_refl].
Qed.

Lemma insert_documents c docs c' :
  insert c docs = Ok c' ->
  documents c' = fold_left insert_or_replace (map rowOfDocument docs) (documents c).
Proof.
  unfold insert. destruct (metadataCache c) as [md|]; [|discriminate].
  destruct (find _ docs); [discriminate|].
  intros H. injection H as <-. reflexivity.
Qed.

Lemma insert_succeeds c docs md :
  metadataCache c = Some md ->
  Forall (fun d => List.length (doc_vector d) = dimension md) docs ->
  exists c', insert c docs = Ok c'.
Proof.
  intros Hmd Hdim. unfold insert. rewrite Hmd.
  destruct (find _ docs) as [d|] eqn:E; [|eauto].
  apply find_some in E. destruct E as [Hin Hne].
  rewrite Forall_forall in Hdim. rewrite (Hdim d Hin), Nat.eqb_refl in Hne.
  discriminate.
Qed.

Lemma query_ids_unfiltered c limit :
  query sql_where c "" ["id"%string] limit =
  (Ok (map id_only (firstn (or_default limit 100) (documents c))), []).
Proof.
  unfold query. simpl.
  replace (filter (fun _ : Row => true) (documents c)) with (documents c).
  - reflexivity.
  - induction (documents c) as [|r t IH]; simpl; congruence.
Qed.

Lemma delete_documents c ids :
  exists c', delete learn c ids = Ok c'
             /\ documents c' = delete_where_id_in ids (documents c).
Proof.
  unfold delete. simpl.
  destruct (metadataCache c) as [md|]; simpl; [|eauto].
  destruct (bm25Generator c) as [bm|]; [|eauto].
  destruct (isHybrid md && _); eauto.
Qed.

End StoreProperties.

(** C2 as stated fails: [query] without a limit returns at most 100 rows, so
    after inserting 101 documents one of their ids is not in the answer. *)
Lemma query_after_insert_misses_an_id :
  ~ (forall (sql_where : string -> option (LibSQL.Row -> bool))
            (c c' : LibSQL.Collection) (docs : list LibSQL.VectorDocument),
       LibSQL.insert c docs = Js.Ok c' ->
       forall d, In d docs ->
         exists rows warnings,
           LibSQL.query sql_where c' "" ["id"%string] None = (Js.Ok rows, warnings)
           /\ In [("id"%string, LibSQL.VText (LibSQL.doc_id d))] rows).
Proof.
  intros H.
  destruct (LibSQL.insert (LibSQL.empty_collection 0 false) (LibSQL.demo_docs 101))
    as [c'|msg] eqn:E; [|vm_compute in E; discriminate E].
  destruct (H (fun _ => None) _ c' _ E (LibSQL.demo_doc 101)) as (rows & ws & Hq & Hin).
  { unfold LibSQL.demo_docs. apply in_map, in_seq. lia. }
  rewrite query_ids_unfiltered in Hq. injection Hq as <- _.
  apply in_map_iff in Hin. destruct Hin as [r [Hr Hin]].
  injection Hr as Hr.
  assert (Hinc : Js.arr_includes
                   (map LibSQL.id (firstn 100 (LibSQL.documents c')))
                   (LibSQL.unary 101) = true).
  { apply arr_includes_In. apply in_map_iff. exists r. split; assumption. }
  rewrite (insert_documents _ _ _ E) in Hinc.
  vm_compute in Hinc. discriminate Hinc.
Qed.

(** C2, as amended (store contract).  Let the collection have metadata and
    the vectors of the batch its dimension.  Then [insert] succeeds, and
    afterwards: (1) a query with the empty filter projected to [id], whose
    limit (100 when omitted) is at least the number of stored documents,
    contains the id of every document of the batch; (2) under each id of the
    batch exactly one row is stored, that of the last document of the batch
    with this id, whatever was stored before; (3) [delete] of any ids
    succeeds, whether they exist or not, keeps the other rows, and no query
    with the empty filter returns a deleted id. *)
Theorem store_contract (sql_where : string -> option (LibSQL.Row -> bool))
        (learn : BM25.Model -> list string -> BM25.Model)
        (c : LibSQL.Collection) (docs : list LibSQL.VectorDocument)
        (md : LibSQL.CollectionMetadata) :
  LibSQL.metadataCache c = Some md ->
  Forall (fun d => List.length (LibSQL.doc_vector d) = LibSQL.dimension md) docs ->
  exists c',
    LibSQL.insert c docs = Js.Ok c'
    /\ (forall limit d,
          (List.length (LibSQL.documents c') <= Js.or_default limit 100)%nat ->
          In d docs ->
          exists rows,
            LibSQL.query sql_where c' "" ["id"%string] limit = (Js.Ok rows, [])
            /\ In [("id"%string, LibSQL.VText (LibSQL.doc_id d))] rows)
    /\ (forall docs1 d docs2,
          docs = docs1 ++ d :: docs2 ->
          (forall e, In e docs2 -> LibSQL.doc_id e <> LibSQL.doc_id d) ->
          LibSQL.rows_with (LibSQL.doc_id d) (LibSQL.documents c')
          = [LibSQL.rowOfDocument d])
    /\ (forall ids,
          exists c'',
            LibSQL.delete learn c' ids = Js.Ok c''
            /\ (forall r, In r (LibSQL.documents c') ->
                  ~ In (LibSQL.id r) ids -> In r (LibSQL.documents c''))
            /\ forall limit,
                 exists rows,
                   LibSQL.query sql_where c'' "" ["id"%string] limit
                   = (Js.Ok rows, [])
                   /\ forall i, In i ids ->
                        ~ In [("id"%string, LibSQL.VText i)] rows).
Proof.
  intros Hmd Hdim.
  destruct (insert_succeeds c docs md Hmd Hdim) as [c' Hc'].
  pose proof (insert_documents _ _ _ Hc') as Hdocs.
  exists c'. split; [assumption|].
  assert (Hlast : forall docs1 d docs2,
            docs = docs1 ++ d :: docs2 ->
            (forall e, In e docs2 -> LibSQL.doc_id e <> LibSQL.doc_id d) ->
            LibSQL.rows_with (LibSQL.doc_id d) (LibSQL.documents c')
            = [LibSQL.rowOfDocument d]).
  { intros docs1 d docs2 -> Hno. rewrite Hdocs, map_app. simpl map.
    apply (rows_with_fold_last (map LibSQL.rowOfDocument docs1)
             (LibSQL.rowOfDocument d)).
    intros r' Hr'. apply in_map_iff in Hr'. destruct Hr' as [e [<- He]].
    simpl. now apply Hno. }
  split; [|split; [exact Hlast|]].
  - intros limit d Hlen Hd.
    exists (map LibSQL.id_only (LibSQL.documents c')). split.
    + rewrite query_ids_unfiltered. now rewrite firstn_all2.
    + destruct (last_occurrence docs (LibSQL.doc_id d)) as (d1 & d' & d2 & E & Hid & Hno);
        [eauto|].
      rewrite <- Hid in Hno. pose proof (Hlast d1 d' d2 E Hno) as Hrow.
      assert (Hin : In (LibSQL.rowOfDocument d')
                      (LibSQL.rows_with (LibSQL.doc_id d') (LibSQL.documents c')))
        by (rewrite Hrow; now left).
      apply rows_with_In in Hin. destruct Hin as [Hin _].
      apply in_map_iff. exists (LibSQL.rowOfDocument d'). split; [|assumption].
      unfold LibSQL.id_only. simpl. now rewrite Hid.
  - intros ids. destruct (delete_documents learn c' ids) as [c'' [Hdel Hd'']].
    exists c''. split; [assumption|]. split.
    + intros r Hr Hnot. rewrite Hd''. unfold LibSQL.delete_where_id_in.
      apply filter_In. split; [assumption|].
      destruct (Js.arr_includes ids (LibSQL.id r)) eqn:E; [|reflexivity].
      apply arr_includes_In in E. contradiction.
    + intros limit. eexists. split; [apply query_ids_unfiltered|].
      intros i Hi Hin. apply in_map_iff in Hin. destruct Hin as [r [Hr Hin]].
      injection Hr as Hr. apply In_firstn in Hin. rewrite Hd'' in Hin.
      unfold LibSQL.delete_where_id_in in Hin. apply filter_In in Hin.
      destruct Hin as [_ Hneg]. rewrite Hr in Hneg.
      apply (proj2 (arr_includes_In ids i)) in Hi. rewrite Hi in Hneg. discriminate.
Qed.

Lemma store_contract_witness :
  exists c',
    LibSQL.insert (LibSQL.demo_collection 2) (LibSQL.demo_docs 3) = Js.Ok c'
    /\ (exists rows,
          LibSQL.query LibSQL.demo_where c' "" ["id"%string] None = (Js.Ok rows, [])
          /\ In [("id"%string, LibSQL.VText "xxx")] rows)
    /\ exists c'',
         LibSQL.delete LibSQL.no_learn c' ["xx"; "nope"]%string = Js.Ok c''
         /\ exists rows,
              LibSQL.query LibSQL.demo_where c'' "" ["id"%string] None = (Js.Ok rows, [])
              /\ ~ In [("id"%string, LibSQL.VText "xx")] rows.
Proof.
  destruct (store_contract LibSQL.demo_where LibSQL.no_learn
              (LibSQL.demo_collection 2) (LibSQL.demo_docs 3)
              {| LibSQL.dimension := 0; LibSQL.isHybrid := false;
                 LibSQL.documentCount := 2 |} eq_refl)
    as (c' & Hins & Hq & _ & Hdel).
  - repeat constructor.
  - exists c'. split; [exact Hins|]. split.
    + apply (Hq None (LibSQL.demo_doc 3)).
      * vm_compute in Hins. injection Hins as <-. simpl. lia.
      * right. right. now left.
    + destruct (Hdel ["xx"; "nope"]%string) as (c'' & Hd & _ & Hrows).
      exists c''. split; [exact Hd|].
      destruct (Hrows None) as (rows & Hr & Hno).
      exists rows. split; [exact Hr|]. apply Hno. now left.
Defined.

(** C10 (default limit of [query]).  When the limit is omitted, [query]
    returns at most 100 rows, whatever the filter and the output fields; and
    there is a collection of 101 documents of which the query with the empty
    filter returns only 100. *)
Theorem query_default_limit_100 :
  (forall (sql_where : string -> option (LibSQL.Row -> bool))
          (c : LibSQL.Collection) (filter : string) (outputFields : list string),
     match fst (LibSQL.query sql_where c filter outputFields None) with
     | Js.Ok rows => (List.length rows <= 100)%nat
     | Js.Throw _ => True
     end)
  /\ exists rows,
       List.length (LibSQL.documents (LibSQL.demo_collection 101)) = 101%nat
       /\ LibSQL.query LibSQL.demo_where (LibSQL.demo_collection 101) ""
            ["id"%string] None = (Js.Ok rows, [])
       /\ List.length rows = 100%nat.
Proof.
  split.
  - intros sql_where c filter outputFields. unfold LibSQL.query.
    destruct (Js.trim filter);
      [|destruct (LibSQL.parseFilterExpression filter) as [w ws]];
      (destruct (negb _); [exact I|]);
      (destruct (LibSQL.where_predicate sql_where _); [|exact I]);
      cbn [fst]; rewrite length_map; unfold LibSQL.sql_limit, Js.or_default;
      apply firstn_le_length.
  - eexists. split; [|split].
    + vm_compute. reflexivity.
    + apply query_ids_unfiltered.
    + rewrite length_map. vm_compute. reflexivity.
Qed.

(** Whatever the engine, a filter the LibSQL parser does not recognise is
    evaluated by the engine as the WHERE clause of the statement. *)
Lemma libsql_query_unrecognized
      (sql_where : string -> option (LibSQL.Row -> bool)) (c : LibSQL.Collection)
      (filter : string) (limit : option nat) (warnings : list string) :
  Js.trim filter <> EmptyString ->
  LibSQL.parseFilterExpression filter = (filter, warnings) ->
  LibSQL.query sql_where c filter ["id"%string] limit =
  match sql_where filter with
  | Some p =>
      (Js.Ok (map LibSQL.id_only
                (firstn (Js.or_default limit 100) (List.filter p (LibSQL.documents c)))),
       warnings)
  | None => (Js.Throw "SQL error in WHERE clause", warnings)
  end.
Proof.
  intros Hne Hparse. unfold LibSQL.query.
  destruct (Js.trim filter) eqn:E; [congruence|].
  rewrite Hparse. cbn -[firstn]. destruct (sql_where filter); reflexivity.
Qed.

(** C1 at the failing input.  The filter [startLine > 5] is outside the
    grammar.  The LibSQL parser warns and hands the text over as the WHERE
    clause: on a table of eight rows the statement is rejected (the table has
    no column [startLine]) and [query] throws; with the column name of the
    table, [start_line > 5], three rows are returned although the query
    with no filter returns eight.  The Qdrant parser, on the same text, warns
    and sends no filter. *)
Theorem libsql_unrecognized_filter_reaches_sql :
  let c := LibSQL.demo_collection 8 in
  let warning f := ("[LibSQLDB] Unrecognized filter expression: " ++ f)%string in
  LibSQL.parseFilterExpression "startLine > 5"
  = ("startLine > 5"%string, [warning "startLine > 5"%string])
  /\ LibSQL.query LibSQL.demo_where c "startLine > 5" ["id"%string] None
     = (Js.Throw "SQL error in WHERE clause", [warning "startLine > 5"%string])
  /\ (exists rows,
        LibSQL.query LibSQL.demo_where c "start_line > 5" ["id"%string] None
        = (Js.Ok rows, [warning "start_line > 5"%string])
        /\ List.length rows = 3%nat)
  /\ (exists rows,
        LibSQL.query LibSQL.demo_where c "" ["id"%string] None = (Js.Ok rows, [])
        /\ List.length rows = 8%nat)
  /\ Qdrant.parseFilterExpression "startLine > 5"
     = (None, Qdrant.could_not_parse "startLine > 5").
Proof.
  cbv zeta. split; [reflexivity|]. split; [reflexivity|].
  split; [eexists; split; [vm_compute; reflexivity | reflexivity]|].
  split; [eexists; split; [vm_compute; reflexivity | reflexivity]|].
  reflexivity.
Qed.

(** The Qdrant adapter does what C1 asks: with a filter outside the grammar,
    [search] and [query] warn and send the request they send without filter. *)
Lemma qdrant_unparsed_filter_ignored
      (points_search : list Q -> nat -> option Qdrant.Filter -> list Qdrant.Point)
      (points_scroll : nat -> option Qdrant.Filter -> list Qdrant.Point)
      (expr : string) (queryVector : list Q) (topK limit : option nat) :
  (0 <? String.length (Js.trim expr))%nat = true ->
  fst (Qdrant.parseFilterExpression expr) = None ->
  fst (Qdrant.search points_search queryVector
         {| LibSQL.topK := topK; LibSQL.threshold := None;
            LibSQL.filterExpr := Some expr |})
  = fst (Qdrant.search points_search queryVector
           {| LibSQL.topK := topK; LibSQL.threshold := None;
              LibSQL.filterExpr := None |})
  /\ fst (Qdrant.query points_scroll expr limit)
     = fst (Qdrant.query points_scroll "" limit)
  /\ snd (Qdrant.parseFilterExpression expr) = Qdrant.could_not_parse expr.
Proof.
  intros Hne Hnone. unfold Qdrant.search, Qdrant.query, Qdrant.requestFilter.
  cbn [LibSQL.filterExpr LibSQL.topK]. rewrite Hne.
  destruct (Qdrant.parseFilterExpression expr) as [f ws] eqn:E.
  cbn [fst] in Hnone. subst f. cbn [fst snd]. split; [reflexivity|].
  split; [reflexivity|].
  revert E. unfold Qdrant.parseFilterExpression.
  destruct (Js.includes expr " in ").
  - destruct (Regex.exec Regex.re_in expr) as [[|? [|? [|? ?]]]|];
      intros E; try discriminate E; injection E as <-; reflexivity.
  - destruct (Js.includes expr "==").
    + destruct (Regex.exec Regex.re_eq_quoted expr) as [[|? [|? [|? ?]]]|];
        intros E; try discriminate E; injection E as <-; reflexivity.
    + intros E; injection E as <-; reflexivity.
Qed.

(** ** Dense search *)

Lemma StronglySorted_firstn {A} (R : A -> A -> Prop) n l :
  StronglySorted R l -> StronglySorted R (firstn n l).
Proof.
  revert l. induction n as [|n IH]; intros l H; [constructor|].
  destruct l as [|x l]; [constructor|]. simpl.
  inversion H as [|? ? Hs Hx]; subst. constructor; [now apply IH|].
  rewrite Forall_forall in *. intros y Hy. apply Hx. now apply In_firstn in Hy.
Qed.

Lemma StronglySorted_filter {A} (R : A -> A -> Prop) (p : A -> bool) l :
  StronglySorted R l -> StronglySorted R (filter p l).
Proof.
  induction 1 as [|x l Hs IH Hx]; simpl; [constructor|].
  destruct (p x); [|assumption]. constructor; [assumption|].
  rewrite Forall_forall in *. intros y Hy. apply filter_In in Hy. now apply Hx.
Qed.

Lemma StronglySorted_map {A B} (R : A -> A -> Prop) (R' : B -> B -> Prop)
      (f : A -> B) l :
  (forall x y, R x y -> R' (f x) (f y)) ->
  StronglySorted R l -> StronglySorted R' (map f l).
Proof.
  intros HR. induction 1 as [|x l Hs IH Hx]; simpl; constructor; [assumption|].
  apply Forall_map. eapply Forall_impl; [|exact Hx]. intros y. apply HR.
Qed.

Lemma fold_push_filter_map {A B} (keep : A -> bool) (g : A -> B) rows : forall acc,
  fold_left (fun acc row => if keep row then acc ++ [g row] else acc) rows acc
  = acc ++ map g (filter keep rows).
Proof.
  induction rows as [|r rows IH]; intros acc; simpl; [now rewrite app_nil_r|].
  rewrite IH. destruct (keep r); simpl; [now rewrite <- app_assoc | reflexivity].
Qed.

Lemma score_range (d : Q) : 0 <= d -> 0 < 1 / (1 + d) /\ 1 / (1 + d) <= 1.
Proof.
  intros Hd. split.
  - apply Qlt_shift_div_l; lra.
  - apply Qle_shift_div_r; lra.
Qed.

Lemma score_antitone (d1 d2 : Q) :
  0 <= d1 -> d1 <= d2 -> 1 / (1 + d2) <= 1 / (1 + d1).
Proof.
  intros H1 H12. apply Qle_shift_div_r; [lra|].
  assert (E : 1 / (1 + d1) * (1 + d2) == (1 + d2) / (1 + d1)) by (field; lra).
  rewrite E. apply Qle_shift_div_l; lra.
Qed.

Lemma score_order_iff (d1 d2 : Q) :
  0 <= d1 -> 0 <= d2 -> (1 / (1 + d2) <= 1 / (1 + d1) <-> d1 <= d2).
Proof.
  intros H1 H2. split; [|now apply score_antitone].
  intros H. destruct (Qlt_le_dec d2 d1) as [Hlt|]; [|assumption].
  pose proof (score_antitone d2 d1 H2 (Qlt_le_weak _ _ Hlt)) as H'.
  assert (E : 1 / (1 + d1) == 1 / (1 + d2)) by lra.
  assert (E1 : (1 / (1 + d1)) * ((1 + d1) * (1 + d2)) == 1 + d2) by (field; lra).
  assert (E2 : (1 / (1 + d2)) * ((1 + d1) * (1 + d2)) == 1 + d1) by (field; lra).
  rewrite E in E1. lra.
Qed.

Section SearchProperties.
Import Js LibSQL.
Variable sql_where : string -> option (Row -> bool).
Variable vector_top_k : Table -> list Q -> nat -> list Row.
Variable vector_distance_cos : list Q -> list Q -> Q.
Hypothesis distance_nonneg : forall u v, 0 <= vector_distance_cos u v.

(** [search], written as a pipeline: candidates, WHERE, ORDER BY distance,
    LIMIT, scoring, threshold. *)
Lemma search_pipeline c queryVector options results warnings :
  search sql_where vector_top_k vector_distance_cos c queryVector options
  = (Ok results, warnings) ->
  exists p rows,
    rows = firstn (or_default (topK options) 10)
             (stable_sort
                (asc (fun row => vector_distance_cos (dense_vector row) queryVector))
                (filter p
                   (vector_top_k (documents c) queryVector
                      (or_default (topK options) 10 * 2))))
    /\ results =
       filter (fun r => match threshold options with
                        | Some th => Qle_bool th (score r)
                        | None => true
                        end)
         (map (fun row =>
                 {| document := rowToDocument row;
                    score := 1 / (1 + vector_distance_cos (dense_vector row)
                                        queryVector) |}) rows).
Proof.
  unfold search.
  destruct (match filterExpr options with
            | Some (String _ _ as f) =>
                let (w, ws) := parseFilterExpression f in (Some w, ws)
            | _ => (None, [])
            end) as [whereClause ws].
  destruct (where_predicate sql_where whereClause) as [p|]; [|discriminate].
  intros H. injection H as <- _. exists p. eexists. split; [reflexivity|].
  unfold sql_limit.
  set (rows := firstn _ _). clearbody rows.
  match goal with
  | |- fold_left ?f rows [] = ?rhs =>
      enough (G : forall acc, fold_left f rows acc = acc ++ rhs) by apply (G [])
  end.
  induction rows as [|r rows IH]; intros acc; simpl; [now rewrite app_nil_r|].
  rewrite IH. destruct (threshold options) as [th|]; simpl.
  - destruct (Qle_bool th _); simpl; [now rewrite <- app_assoc | reflexivity].
  - now rewrite <- app_assoc.
Qed.

End SearchProperties.

(** C5 (dense search).  Whenever [search] returns, its results are those of
    the rows ordered by distance and cut at [topK], each scored
    [1 / (1 + distance)], the results below the threshold being removed
    after the scoring; they are in descending order of score; every score is
    in (0, 1]; and the score never increases when the distance grows.  The
    cosine distance of the engine is taken to be non-negative. *)
Theorem dense_search_descending_scores
        (sql_where : string -> option (LibSQL.Row -> bool))
        (vector_top_k : LibSQL.Table -> list Q -> nat -> list LibSQL.Row)
        (vector_distance_cos : list Q -> list Q -> Q)
        (c : LibSQL.Collection) (queryVector : list Q)
        (options : LibSQL.SearchOptions)
        (results : list LibSQL.VectorSearchResult) (warnings : list string) :
  (forall u v, 0 <= vector_distance_cos u v) ->
  LibSQL.search sql_where vector_top_k vector_distance_cos c queryVector options
  = (Js.Ok results, warnings) ->
  (exists p rows,
     rows = firstn (Js.or_default (LibSQL.topK options) 10)
              (Js.stable_sort
                 (Js.asc (fun row =>
                            vector_distance_cos (LibSQL.dense_vector row) queryVector))
                 (filter p
                    (vector_top_k (LibSQL.documents c) queryVector
                       (Js.or_default (LibSQL.topK options) 10 * 2)%nat)))
     /\ results =
        filter (fun r => match LibSQL.threshold options with
                         | Some th => Qle_bool th (LibSQL.score r)
                         | None => true
                         end)
          (map (fun row =>
                  {| LibSQL.document := LibSQL.rowToDocument row;
                     LibSQL.score :=
                       1 / (1 + vector_distance_cos (LibSQL.dense_vector row)
                                  queryVector) |}) rows))
  /\ StronglySorted (fun a b => LibSQL.score b <= LibSQL.score a) results
  /\ Forall (fun r => 0 < LibSQL.score r /\ LibSQL.score r <= 1) results
  /\ (forall th, LibSQL.threshold options = Some th ->
        Forall (fun r => th <= LibSQL.score r) results)
  /\ (forall d1 d2, 0 <= d1 -> d1 <= d2 -> 1 / (1 + d2) <= 1 / (1 + d1)).
Proof.
  intros Hd Hs.
  destruct (search_pipeline _ _ _ _ _ _ _ _ Hs) as (p & rows & Hrows & Hres).
  split; [exists p, rows; split; assumption|].
  split; [|split; [|split]].
  - rewrite Hres. apply StronglySorted_filter.
    apply StronglySorted_map with
      (R := fun a b => Js.asc (fun row => vector_distance_cos (LibSQL.dense_vector row)
                                            queryVector) a b = true).
    + intros x y Hxy. simpl. unfold Js.asc in Hxy. apply Qle_bool_iff in Hxy.
      apply score_antitone; [apply Hd | assumption].
    + rewrite Hrows. apply StronglySorted_firstn, stable_sort_sorted.
      * intros; apply asc_total.
      * intros x y z; apply asc_trans.
  - rewrite Hres. apply Forall_forall. intros r Hr.
    apply filter_In in Hr. destruct Hr as [Hr _].
    apply in_map_iff in Hr. destruct Hr as [row [<- _]]. simpl.
    apply score_range, Hd.
  - intros th Hth. rewrite Hres, Hth. apply Forall_forall. intros r Hr.
    apply filter_In in Hr. destruct Hr as [_ Hr]. now apply Qle_bool_iff.
  - apply score_antitone.
Qed.

Lemma squared_distance_nonneg (u v : list Q) : 0 <= LibSQL.squared_distance u v.
Proof.
  unfold LibSQL.squared_distance.
  assert (G : forall l acc, 0 <= acc ->
            0 <= fold_left (fun (acc : Q) (xy : Q * Q) =>
                              acc + (fst xy - snd xy) * (fst xy - snd xy)) l acc).
  { induction l as [|[x y] l IH]; intros acc Hacc; simpl; [assumption|].
    apply IH. assert (H : 0 <= (x - y) * (x - y)).
    { generalize (x - y). intros z. nra. }
    lra. }
  apply G. lra.
Qed.

Lemma dense_search_descending_scores_witness :
  exists results,
    LibSQL.search LibSQL.demo_where LibSQL.scan_top_k LibSQL.squared_distance
      LibSQL.plane_collection [0; 0]
      {| LibSQL.topK := Some 2%nat; LibSQL.threshold := Some (1 # 4);
         LibSQL.filterExpr := None |} = (Js.Ok results, [])
    /\ map (fun r => LibSQL.doc_id (LibSQL.document r)) results = ["near"%string]
    /\ StronglySorted (fun a b => LibSQL.score b <= LibSQL.score a) results
    /\ Forall (fun r => 0 < LibSQL.score r /\ LibSQL.score r <= 1) results.
Proof.
  eexists. split; [vm_compute; reflexivity|]. split; [reflexivity|].
  pose proof (dense_search_descending_scores LibSQL.demo_where LibSQL.scan_top_k
                LibSQL.squared_distance LibSQL.plane_collection [0; 0]
                {| LibSQL.topK := Some 2%nat; LibSQL.threshold := Some (1 # 4);
                   LibSQL.filterExpr := None |} _ []
                squared_distance_nonneg eq_refl) as (_ & Hsorted & Hrange & _).
  split; assumption.
Defined.

(** ** Reciprocal rank fusion *)

Section MapListFacts.
Context {K V : Type} `{Eqb K}.
Implicit Types (m : JsMap.t K V) (k : K) (v : V).

Lemma set_fresh m k v : ~ In k (JsMap.keys m) -> JsMap.set m k v = m ++ [(k, v)].
Proof.
  unfold JsMap.keys. induction m as [|[k0 v0] m IH]; simpl; intros Hk; [reflexivity|].
  destruct (eqb k0 k) eqn:E.
  - apply eqb_eq in E. tauto.
  - rewrite IH; [reflexivity | tauto].
Qed.

Lemma keys_set m k v :
  JsMap.keys (JsMap.set m k v) =
  if JsMap.has m k then JsMap.keys m else JsMap.keys m ++ [k].
Proof.
  unfold JsMap.keys, JsMap.has. induction m as [|[k0 v0] m IH]; simpl; [reflexivity|].
  destruct (eqb k0 k) eqn:E; simpl; [reflexivity|].
  rewrite IH. destruct (JsMap.get m k); reflexivity.
Qed.

Lemma has_In m k : JsMap.has m k = true <-> In k (JsMap.keys m).
Proof.
  rewrite in_keys_get. unfold JsMap.has.
  destruct (JsMap.get m k); split; congruence.
Qed.

Lemma NoDup_keys_set m k v :
  NoDup (JsMap.keys m) -> NoDup (JsMap.keys (JsMap.set m k v)).
Proof.
  intros Hnd. rewrite keys_set. destruct (JsMap.has m k) eqn:E; [assumption|].
  apply NoDup_app; [assumption | repeat constructor; simpl; tauto |].
  intros x Hx [<- | []]. apply has_In in Hx. congruence.
Qed.

(** Filling a map from a list of distinct new keys appends them in order. *)
Lemma fold_set_fresh {X} (key : X -> K) (val : X -> V) xs : forall m,
  NoDup (map key xs) ->
  (forall x, In x xs -> ~ In (key x) (JsMap.keys m)) ->
  fold_left (fun m x => JsMap.set m (key x) (val x)) xs m
  = m ++ map (fun x => (key x, val x)) xs.
Proof.
  induction xs as [|x xs IH]; intros m Hnd Hfresh; simpl; [now rewrite app_nil_r|].
  inversion Hnd as [|? ? Hx Hnd']; subst.
  rewrite set_fresh by (apply Hfresh; now left).
  rewrite IH; [now rewrite <- app_assoc | assumption |].
  intros y Hy. unfold JsMap.keys. rewrite map_app, in_app_iff. simpl.
  intros [Hin | [Heq | []]].
  - apply (Hfresh y); [now right | assumption].
  - apply Hx. rewrite Heq. now apply in_map.
Qed.

Lemma get_map_pairs {X} (key : X -> K) (val : X -> V) xs x :
  NoDup (map key xs) -> In x xs ->
  JsMap.get (map (fun x => (key x, val x)) xs) (key x) = Some (val x).
Proof.
  induction xs as [|y xs IH]; intros Hnd Hin; [contradiction|].
  inversion Hnd as [|? ? Hy Hnd']; subst. simpl.
  destruct Hin as [-> | Hin]; [now rewrite eqb_refl|].
  destruct (eqb (key y) (key x)) eqn:E.
  - apply eqb_eq in E. exfalso. apply Hy. rewrite E. now apply in_map.
  - now apply IH.
Qed.

End MapListFacts.

Section RankFacts.
Import Js LibSQL.

Lemma dedupe_spec ids : forall seen x,
  In x (dedupe seen ids) <-> In x ids /\ ~ In x seen.
Proof.
  induction ids as [|i ids IH]; intros seen x; simpl; [tauto|].
  destruct (arr_includes seen i) eqn:E.
  - apply arr_includes_In in E. rewrite IH. split.
    + intros [H1 H2]. auto.
    + intros [[<- | H1] H2]; [contradiction | auto].
  - assert (Hi : ~ In i seen) by (rewrite <- arr_includes_In; congruence).
    simpl. rewrite IH. simpl. split.
    + intros [<- | [H1 H2]]; [auto | split; [auto | tauto]].
    + intros [[<- | H1] H2]; [now left|].
      destruct (String.eqb i x) eqn:Ex.
      * apply String.eqb_eq in Ex. now left.
      * apply String.eqb_neq in Ex. right. split; [assumption | tauto].
Qed.

Lemma dedupe_NoDup ids : forall seen, NoDup (dedupe seen ids).
Proof.
  induction ids as [|i ids IH]; intros seen; simpl; [constructor|].
  destruct (arr_includes seen i); [apply IH|].
  constructor; [|apply IH]. rewrite dedupe_spec. simpl. tauto.
Qed.

Lemma dedupe_NoDup_id ids : NoDup ids -> dedupe [] ids = ids.
Proof.
  assert (G : forall seen, NoDup ids -> (forall x, In x ids -> ~ In x seen) ->
              dedupe seen ids = ids).
  { induction ids as [|i ids IH]; intros seen Hnd Hs; simpl; [reflexivity|].
    inversion Hnd as [|? ? Hi Hnd']; subst.
    destruct (arr_includes seen i) eqn:E.
    - apply arr_includes_In in E. exfalso. apply (Hs i); [now left | assumption].
    - f_equal. apply IH; [assumption|]. intros x Hx [<- | Hin]; [contradiction|].
      apply (Hs x); [now right | assumption]. }
  intros Hnd. apply G; [assumption | intros x _ []].
Qed.

(** [computeRanks] numbers the entries of the descending sort from 1. *)
Lemma computeRanks_spec (scores : JsMap.t string Q) :
  NoDup (JsMap.keys scores) ->
  computeRanks scores =
  combine (map fst (stable_sort (desc snd) scores)) (seq 1 (List.length scores)).
Proof.
  intros Hnd. unfold computeRanks, JsMap.entries.
  assert (Hnd' : NoDup (map fst (stable_sort (desc snd) scores))).
  { eapply Permutation_NoDup; [|exact Hnd].
    apply Permutation_map. symmetry. apply stable_sort_perm. }
  rewrite <- (stable_sort_length (desc snd) scores).
  generalize dependent (stable_sort (desc snd) scores). intros sorted Hnd'.
  assert (G : forall (ranks : JsMap.t string nat) i,
            (forall e, In e sorted -> ~ In (fst e) (JsMap.keys ranks)) ->
            fold_left
              (fun (acc : JsMap.t string nat * nat) (e : string * Q) =>
                 let (ranks, index) := acc in
                 (JsMap.set ranks (fst e) (index + 1)%nat, S index))
              sorted (ranks, i)
            = (ranks ++ combine (map fst sorted) (seq (i + 1) (List.length sorted)),
               (i + List.length sorted)%nat)).
  { induction sorted as [|e sorted IH]; intros ranks i Hfresh; simpl.
    - now rewrite app_nil_r, Nat.add_0_r.
    - inversion Hnd' as [|? ? He Hnd'']; subst.
      rewrite set_fresh by (apply Hfresh; now left).
      rewrite IH; [|assumption|].
      + rewrite <- app_assoc. simpl.
        replace (S i + 1)%nat with (S (i + 1)) by lia.
        f_equal. lia.
      + intros e' He'. unfold JsMap.keys. rewrite map_app, in_app_iff. simpl.
        intros [Hin | [Heq | []]].
        * apply (Hfresh e'); [now right | assumption].
        * apply He. rewrite Heq. now apply in_map. }
  rewrite G by (intros e _ []). reflexivity.
Qed.

End RankFacts.

Section FusionFacts.
Import Js LibSQL.

Lemma applyRRF_entries (dense sparse : JsMap.t string Q) (k : Q) :
  applyRRF dense sparse k =
  map (fun id => (id, fused_score (computeRanks dense) (computeRanks sparse) k id))
    (dedupe [] (JsMap.keys dense ++ JsMap.keys sparse)).
Proof.
  unfold applyRRF.
  rewrite (fold_set_fresh (fun id : string => id)
             (fused_score (computeRanks dense) (computeRanks sparse) k)).
  - reflexivity.
  - rewrite map_id. apply dedupe_NoDup.
  - intros x _ [].
Qed.

Lemma applyRRF_keys (dense sparse : JsMap.t string Q) (k : Q) :
  JsMap.keys (applyRRF dense sparse k)
  = dedupe [] (JsMap.keys dense ++ JsMap.keys sparse).
Proof.
  rewrite applyRRF_entries. unfold JsMap.keys. rewrite map_map. simpl. apply map_id.
Qed.





End FusionFacts.

Section HybridFacts.
Import Js LibSQL.
Variable vector_top_k : Table -> list Q -> nat -> list Row.
Variable vector_distance_cos : list Q -> list Q -> Q.
Variable sqrt : Q -> Q.

Lemma keys_fold_set_subset {X V} (key : X -> string) (val : JsMap.t string V -> X -> option V)
      (xs : list X) : forall (m : JsMap.t string V) k,
  In k (JsMap.keys
          (fold_left (fun m x => match val m x with
                                 | Some v => JsMap.set m (key x) v
                                 | None => m
                                 end) xs m)) ->
  In k (JsMap.keys m) \/ In k (map key xs).
Proof.
  induction xs as [|x xs IH]; intros m k Hk; simpl in *; [now left|].
  apply IH in Hk. destruct Hk as [Hk | Hk]; [|right; now right].
  destruct (val m x) as [v|]; [|now left].
  rewrite keys_set in Hk. destruct (JsMap.has m (key x)); [now left|].
  apply in_app_or in Hk. destruct Hk as [Hk | [<- | []]]; [now left | right; now left].
Qed.

Lemma NoDup_keys_fold_set {X V} (key : X -> string) (val : JsMap.t string V -> X -> option V)
      (xs : list X) : forall (m : JsMap.t string V),
  NoDup (JsMap.keys m) ->
  NoDup (JsMap.keys
           (fold_left (fun m x => match val m x with
                                  | Some v => JsMap.set m (key x) v
                                  | None => m
                                  end) xs m)).
Proof.
  induction xs as [|x xs IH]; intros m Hm; simpl; [assumption|].
  apply IH. destruct (val m x); [now apply NoDup_keys_set | assumption].
Qed.

Lemma performDenseSearch_keys c queryVector limit :
  NoDup (JsMap.keys (performDenseSearch vector_top_k vector_distance_cos c
                       queryVector limit []))
  /\ forall k,
       In k (JsMap.keys (performDenseSearch vector_top_k vector_distance_cos c
                           queryVector limit [])) ->
       In k (map id (vector_top_k (documents c) queryVector (limit * 2))).
Proof.
  unfold performDenseSearch.
  pose (val := fun (_ : JsMap.t string Q) (row : Row) =>
                 Some (1 / (1 + vector_distance_cos (dense_vector row) queryVector))).
  split.
  - apply (NoDup_keys_fold_set id val). constructor.
  - intros k Hk. apply (keys_fold_set_subset id val) in Hk.
    destruct Hk as [[] | Hk]; assumption.
Qed.

Lemma performSparseSearch_ok c queryText :
  exists sparseResults warnings,
    performSparseSearch sqrt c queryText [] = (Ok sparseResults, warnings)
    /\ NoDup (JsMap.keys sparseResults)
    /\ forall k, In k (JsMap.keys sparseResults) -> In k (map id (documents c)).
Proof.
  unfold performSparseSearch.
  destruct (bm25Generator c) as [bm25|];
    [|do 2 eexists; split; [reflexivity | split; [constructor | intros k []]]].
  destruct (BM25.trained bm25) eqn:Ht; simpl;
    [|do 2 eexists; split; [reflexivity | split; [constructor | intros k []]]].
  rewrite (generate_pipeline sqrt bm25 queryText BM25.noConfig Ht).
  generalize (BM25.generate_filters_first sqrt bm25 queryText BM25.noConfig).
  intros queryVector.
  set (queryMap := fold_left
                     (fun (qm : JsMap.t nat Q) (iv : nat * Q) =>
                        JsMap.set qm (fst iv) (snd iv))
                     (combine (BM25.indices queryVector) (BM25.values queryVector))
                     JsMap.empty).
  pose (val := fun (_ : JsMap.t string Q) (row : Row) =>
                 match sparse_indices row, sparse_values row with
                 | Some indices, Some values =>
                     if negb (Qle_bool (sparse_dot queryMap indices values) 0)
                     then Some (sparse_dot queryMap indices values) else None
                 | _, _ => None
                 end).
  assert (E : forall rows m,
            fold_left
              (fun (results : JsMap.t string Q) (row : Row) =>
                 match sparse_indices row, sparse_values row with
                 | Some indices, Some values =>
                     if negb (Qle_bool (sparse_dot queryMap indices values) 0)
                     then JsMap.set results (id row) (sparse_dot queryMap indices values)
                     else results
                 | _, _ => results
                 end) rows m
            = fold_left (fun m x => match val m x with
                                    | Some v => JsMap.set m (id x) v
                                    | None => m
                                    end) rows m).
  { induction rows as [|r rows IH]; intros m; simpl; [reflexivity|].
    rewrite IH. f_equal. unfold val.
    destruct (sparse_indices r), (sparse_values r); try reflexivity.
    destruct (negb _); reflexivity. }
  do 2 eexists. split; [reflexivity|]. rewrite E. split.
  - apply NoDup_keys_fold_set. constructor.
  - intros k Hk. apply keys_fold_set_subset in Hk. destruct Hk as [[] | Hk]; assumption.
Qed.

(** The row map of [hybridSearch] has a row for every listed id of the table. *)
Lemma docMap_get (rows : list Row) : forall (dm : JsMap.t string Row) x,
  (exists r, JsMap.get dm x = Some r /\ id r = x) \/ In x (map id rows) ->
  exists r,
    JsMap.get (fold_left (fun (dm : JsMap.t string Row) row => JsMap.set dm (id row) row)
                 rows dm) x = Some r
    /\ id r = x.
Proof.
  induction rows as [|row rows IH]; intros dm x H; simpl.
  - destruct H as [H | []]. exact H.
  - apply IH. destruct (String.eqb (id row) x) eqn:E.
    + apply String.eqb_eq in E. left. exists row. split; [|assumption].
      rewrite <- E. apply get_set_same.
    + apply String.eqb_neq in E. destruct H as [[r [Hr Hid]] | [Hx | Hx]].
      * left. exists r. split; [|assumption]. now rewrite get_set_other.
      * contradiction.
      * now right.
Qed.

Lemma collect_results (docMap : JsMap.t string Row) (rrfScores : JsMap.t string Q)
      (ids : list string) :
  (forall x, In x ids -> exists r, JsMap.get docMap x = Some r /\ id r = x) ->
  (forall x, In x ids -> In x (JsMap.keys rrfScores)) ->
  forall acc,
  exists results,
    fold_left
      (fun results x =>
         match JsMap.get docMap x with
         | Some row =>
             results ++ [{| document := rowToDocument row;
                            score := match JsMap.get rrfScores x with
                                     | Some sc => sc
                                     | None => 0
                                     end |}]
         | None => results
         end) ids acc = acc ++ results
    /\ Forall2 (fun r x => doc_id (document r) = x
                           /\ JsMap.get rrfScores x = Some (score r)) results ids.
Proof.
  induction ids as [|x ids IH]; intros Hrow Hkey acc; simpl.
  - exists []. split; [now rewrite app_nil_r | constructor].
  - destruct (Hrow x (or_introl eq_refl)) as [row [Hget Hid]]. rewrite Hget.
    destruct (JsMap.get rrfScores x) as [sc|] eqn:Hsc.
    + destruct (IH (fun y Hy => Hrow y (or_intror Hy))
                   (fun y Hy => Hkey y (or_intror Hy))
                   (acc ++ [{| document := rowToDocument row; score := sc |}]))
        as [results [Hfold Hall]].
      exists ({| document := rowToDocument row; score := sc |} :: results).
      split; [rewrite Hfold, <- app_assoc; reflexivity|].
      constructor; [split; [exact Hid | exact Hsc] | exact Hall].
    + exfalso. apply (proj1 (in_keys_get rrfScores x) (Hkey x (or_introl eq_refl))).
      exact Hsc.
Qed.

End HybridFacts.

Section HybridSearchRun.
Import Js LibSQL.
Variable vector_top_k : Table -> list Q -> nat -> list Row.
Variable vector_distance_cos : list Q -> list Q -> Q.
Variable sqrt : Q -> Q.

Lemma topIds_in_keys (rrfScores : JsMap.t string Q) limit x :
  In x (topIds rrfScores limit) -> In x (JsMap.keys rrfScores).
Proof.
  unfold topIds, JsMap.keys, JsMap.entries. intros H.
  apply in_map_iff in H. destruct H as [e [<- He]].
  apply In_firstn in He. apply stable_sort_In in He. now apply in_map.
Qed.

(** A hybrid search with one dense and one sparse request runs to the end:
    it returns, in the order of [topIds], the documents of the best fused
    scores, each with its fused score. *)
Lemma hybridSearch_run c md v text options :
  metadataCache c = Some md -> isHybrid md = true ->
  (forall r, In r (vector_top_k (documents c) v (or_default (limit options) 10 * 2)) ->
             In r (documents c)) ->
  exists sparse warnings results,
    performSparseSearch sqrt c text [] = (Ok sparse, warnings)
    /\ NoDup (JsMap.keys sparse)
    /\ hybridSearch vector_top_k vector_distance_cos sqrt c
         [dense_request v; sparse_request text] options = (Ok results, warnings)
    /\ Forall2 (fun r x =>
                  doc_id (document r) = x
                  /\ JsMap.get
                       (applyRRF
                          (performDenseSearch vector_top_k vector_distance_cos c v
                             (or_default (limit options) 10) [])
                          sparse (rrf_k options)) x = Some (score r))
         results
         (topIds
            (applyRRF
               (performDenseSearch vector_top_k vector_distance_cos c v
                  (or_default (limit options) 10) [])
               sparse (rrf_k options))
            (or_default (limit options) 10)).
Proof.
  intros Hmd Hhyb Hsub.
  destruct (performSparseSearch_ok sqrt c text) as (sparse & warnings & Hs & Hnd & Hin).
  destruct (performDenseSearch_keys vector_top_k vector_distance_cos c v
              (or_default (limit options) 10)) as [_ Hdin].
  exists sparse, warnings.
  set (dense := performDenseSearch vector_top_k vector_distance_cos c v
                  (or_default (limit options) 10) []) in *.
  set (fused := applyRRF dense sparse (rrf_k options)).
  set (ids := topIds fused (or_default (limit options) 10)).
  destruct (collect_results
              (fold_left (fun (dm : JsMap.t string Row) row => JsMap.set dm (id row) row)
                 (select_where_id_in ids (documents c)) JsMap.empty)
              fused ids) with (acc := @nil VectorSearchResult)
    as [results [Hfold Hall]].
  - intros x Hx. apply docMap_get. right.
    assert (Hk : In x (JsMap.keys fused)) by (eapply topIds_in_keys; exact Hx).
    unfold fused in Hk. rewrite applyRRF_keys in Hk.
    apply dedupe_spec in Hk. destruct Hk as [Hk _].
    assert (Hdoc : In x (map id (documents c))).
    { apply in_app_or in Hk. destruct Hk as [Hk | Hk].
      - apply Hdin in Hk. apply in_map_iff in Hk. destruct Hk as [r [<- Hr]].
        apply in_map. now apply Hsub.
      - now apply Hin. }
    apply in_map_iff in Hdoc. destruct Hdoc as [r [<- Hr]].
    apply in_map. unfold select_where_id_in. apply filter_In. split; [assumption|].
    now apply arr_includes_In.
  - intros x Hx. eapply topIds_in_keys; exact Hx.
  - exists results. split; [assumption|]. split; [assumption|]. split; [|exact Hall].
    unfold hybridSearch. rewrite Hmd. destruct md as [dim hyb cnt].
    simpl in Hhyb. subst hyb.
    change (fold_left (processRequest vector_top_k vector_distance_cos sqrt c
                         (or_default (limit options) 10))
              [dense_request v; sparse_request text] (Ok (JsMap.empty, JsMap.empty), []))
      with (match performSparseSearch sqrt c text [] with
            | (Ok sparseResults', ws) => (Ok (dense, sparseResults'), [] ++ ws)
            | (Throw msg, ws) =>
                (@Throw (JsMap.t string Q * JsMap.t string Q) msg, [] ++ ws)
            end).
    rewrite Hs. simpl app. cbv iota beta.
    fold fused. fold ids. rewrite Hfold. reflexivity.
Qed.

End HybridSearchRun.

(** ** Hybrid search without sparse results *)

Section FallbackFacts.
Import Js LibSQL.
Variable sql_where : string -> option (Row -> bool).
Variable vector_top_k : Table -> list Q -> nat -> list Row.
Variable vector_distance_cos : list Q -> list Q -> Q.
Variable sqrt : Q -> Q.

Lemma sparse_dot_empty indices values : sparse_dot [] indices values = 0.
Proof.
  unfold sparse_dot. generalize (combine indices values). intros l.
  induction l as [|iv l IH]; simpl; [reflexivity | exact IH].
Qed.

Lemma sparse_empty_no_results c text :
  sparse_query_empty sqrt c text ->
  exists warnings, performSparseSearch sqrt c text [] = (Ok [], warnings).
Proof.
  unfold sparse_query_empty, performSparseSearch.
  destruct (bm25Generator c) as [bm25|]; [|eauto].
  destruct (BM25.trained bm25) eqn:Ht; simpl; [|eauto].
  intros [Hf | [sv [Hsv Hidx]]]; [discriminate|].
  rewrite Hsv, Hidx. simpl. exists []. f_equal. f_equal.
  induction (documents c) as [|row rows IH]; simpl; [reflexivity|].
  destruct (sparse_indices row), (sparse_values row); try exact IH.
  rewrite sparse_dot_empty. exact IH.
Qed.

Lemma performDenseSearch_entries c v limit :
  NoDup (map id (vector_top_k (documents c) v (limit * 2))) ->
  performDenseSearch vector_top_k vector_distance_cos c v limit [] =
  map (fun row => (id row, 1 / (1 + vector_distance_cos (dense_vector row) v)))
    (vector_top_k (documents c) v (limit * 2)).
Proof.
  intros Hnd. unfold performDenseSearch.
  rewrite (fold_set_fresh id
             (fun row => 1 / (1 + vector_distance_cos (dense_vector row) v)));
    [reflexivity | assumption | intros x _ []].
Qed.

Lemma or_default_idem x d : (0 < d)%nat -> or_default (Some (or_default x d)) d = or_default x d.
Proof.
  intros Hd. unfold or_default. destruct x as [[|n]|]; try reflexivity;
    destruct d; [lia | reflexivity | lia | reflexivity].
Qed.

(** [search] with neither filter nor threshold. *)
Lemma search_plain c v topK :
  search sql_where vector_top_k vector_distance_cos c v
    {| topK := topK; threshold := None; filterExpr := None |}
  = (Ok (map (fun row =>
                {| document := rowToDocument row;
                   score := 1 / (1 + vector_distance_cos (dense_vector row) v) |})
           (firstn (or_default topK 10)
              (stable_sort (asc (fun row => vector_distance_cos (dense_vector row) v))
                 (vector_top_k (documents c) v (or_default topK 10 * 2))))),
     []).
Proof.
  unfold search, where_predicate, sql_limit. cbn [LibSQL.topK threshold filterExpr].
  replace (filter (fun _ : Row => true) (vector_top_k (documents c) v (or_default topK 10 * 2)))
    with (vector_top_k (documents c) v (or_default topK 10 * 2))
    by (induction (vector_top_k _ _ _); simpl; congruence).
  f_equal. f_equal.
  match goal with
  | |- fold_left ?f ?rows [] = ?rhs =>
      enough (G : forall acc, fold_left f rows acc = acc ++ rhs) by apply (G [])
  end.
  induction (firstn _ _) as [|r rows IH]; intros acc; simpl; [now rewrite app_nil_r|].
  rewrite IH. now rewrite <- app_assoc.
Qed.

(** Values that decrease strictly with the rank. *)
Lemma rank_values_sorted (k : Q) (ids : list string) : forall s,
  0 <= k -> (1 <= s)%nat ->
  StronglySorted
    (fun a c : string * Q =>
       desc snd a c = true /\ desc snd c a = false)
    (map (fun xi : string * nat => (fst xi, 0 + 1 / (k + inject_Z (Z.of_nat (snd xi)))))
       (combine ids (seq s (List.length ids)))).
Proof.
  induction ids as [|x ids IH]; intros s Hk Hs; simpl; [constructor|].
  constructor; [apply IH; [assumption | lia]|].
  apply Forall_map. apply Forall_forall. intros [y j] Hin. simpl.
  assert (Hj : (S s <= j)%nat).
  { apply in_combine_r in Hin. apply in_seq in Hin. lia. }
  assert (Hsq : 0 < k + inject_Z (Z.of_nat s)).
  { assert (1 <= inject_Z (Z.of_nat s)).
    { change 1 with (inject_Z 1). rewrite <- Zle_Qle. lia. }
    lra. }
  assert (Hlt : k + inject_Z (Z.of_nat s) < k + inject_Z (Z.of_nat j)).
  { assert (inject_Z (Z.of_nat s) < inject_Z (Z.of_nat j));
      [rewrite <- Zlt_Qlt; lia | lra]. }
  assert (Hstrict : 0 + 1 / (k + inject_Z (Z.of_nat j))
                    < 0 + 1 / (k + inject_Z (Z.of_nat s))).
  { assert (E : 1 / (k + inject_Z (Z.of_nat s))
                - 1 / (k + inject_Z (Z.of_nat j))
                == (inject_Z (Z.of_nat j) - inject_Z (Z.of_nat s))
                   / ((k + inject_Z (Z.of_nat s)) * (k + inject_Z (Z.of_nat j))))
      by (field; lra).
    assert (0 < (inject_Z (Z.of_nat j) - inject_Z (Z.of_nat s))
                / ((k + inject_Z (Z.of_nat s)) * (k + inject_Z (Z.of_nat j)))).
    { apply Qlt_shift_div_l; [nra | lra]. }
    lra. }
  unfold desc. simpl. split.
  - apply Qle_bool_iff. lra.
  - apply Bool.not_true_iff_false. rewrite Qle_bool_iff. lra.
Qed.

End FallbackFacts.

Section FallbackRanking.
Import Js LibSQL.
Variable sql_where : string -> option (Row -> bool).
Variable vector_top_k : Table -> list Q -> nat -> list Row.
Variable vector_distance_cos : list Q -> list Q -> Q.
Variable sqrt : Q -> Q.
Hypothesis distance_nonneg : forall u v, 0 <= vector_distance_cos u v.

Lemma get_combine_In {V} (ids : list string) : forall (l : list V) x i,
  NoDup ids -> In (x, i) (combine ids l) -> JsMap.get (combine ids l) x = Some i.
Proof.
  induction ids as [|a ids IH]; intros l x i Hnd Hin; [contradiction|].
  destruct l as [|b l]; [contradiction|].
  inversion Hnd as [|? ? Ha Hnd']; subst. simpl in *.
  destruct Hin as [Heq | Hin].
  - injection Heq as -> ->. now rewrite String.eqb_refl.
  - destruct (String.eqb a x) eqn:E.
    + apply String.eqb_eq in E. subst a. apply in_combine_l in Hin. contradiction.
    + now apply IH.
Qed.

Lemma map_fst_combine_seq (ids : list string) s :
  map fst (combine ids (seq s (List.length ids))) = ids.
Proof.
  revert s. induction ids as [|a ids IH]; intros s; simpl; [reflexivity|].
  now rewrite IH.
Qed.

Lemma Forall2_ids (results : list VectorSearchResult) (ids : list string)
      (P : VectorSearchResult -> string -> Prop) :
  Forall2 (fun r x => doc_id (document r) = x /\ P r x) results ids ->
  map (fun r => doc_id (document r)) results = ids.
Proof.
  induction 1 as [|r x results ids [Hr _] _ IH]; simpl; [reflexivity|].
  now rewrite Hr, IH.
Qed.

(** With an empty sparse list, sorting by fused score is sorting by dense
    rank: the best fused ids are the ids nearest to the query. *)
Lemma topIds_dense_only c v limit k :
  NoDup (map id (vector_top_k (documents c) v (limit * 2))) ->
  0 <= k ->
  topIds (applyRRF (performDenseSearch vector_top_k vector_distance_cos c v limit [])
            [] k) limit
  = map id
      (firstn limit
         (stable_sort (asc (fun row => vector_distance_cos (dense_vector row) v))
            (vector_top_k (documents c) v (limit * 2)))).
Proof.
  intros Hnd Hk.
  set (C := vector_top_k (documents c) v (limit * 2)) in *.
  set (dist := fun row : Row => vector_distance_cos (dense_vector row) v).
  set (g := fun row : Row => (id row, 1 / (1 + dist row))).
  rewrite (performDenseSearch_entries vector_top_k vector_distance_cos c v limit Hnd).
  set (sortedC := stable_sort (asc dist) C).
  change (topIds (applyRRF (map g C) [] k) limit = map id (firstn limit sortedC)).
  assert (HsortD : stable_sort (desc snd) (map g C) = map g sortedC).
  { rewrite stable_sort_map. f_equal. apply stable_sort_ext.
    intros x y _ _. unfold desc, asc, g. simpl.
    apply eq_true_iff_eq. rewrite !Qle_bool_iff.
    apply score_order_iff; apply distance_nonneg. }
  set (S := map id sortedC).
  assert (HS : map fst (map g sortedC) = S)
    by (unfold S; rewrite map_map; reflexivity).
  assert (HndS : NoDup S).
  { unfold S. eapply Permutation_NoDup; [|exact Hnd].
    apply Permutation_map. symmetry. apply stable_sort_perm. }
  assert (Hkeys : JsMap.keys (map g C) = map id C)
    by (unfold JsMap.keys; rewrite map_map; reflexivity).
  assert (Hranks : computeRanks (map g C) = combine S (seq 1 (List.length S))).
  { rewrite computeRanks_spec by (rewrite Hkeys; exact Hnd).
    rewrite HsortD, HS. unfold S, sortedC.
    now rewrite !length_map, stable_sort_length. }
  set (h := fun x : string =>
              (x, fused_score (computeRanks (map g C)) (computeRanks []) k x)).
  assert (Hfused : applyRRF (map g C) [] k = map h (map id C)).
  { rewrite applyRRF_entries. fold h. f_equal.
    rewrite Hkeys. unfold JsMap.keys. simpl. rewrite app_nil_r.
    now apply dedupe_NoDup_id. }
  assert (HhS : map h S
                = map (fun xi : string * nat =>
                         (fst xi, 0 + 1 / (k + inject_Z (Z.of_nat (snd xi)))))
                    (combine S (seq 1 (List.length S)))).
  { rewrite <- (map_fst_combine_seq S 1) at 1. rewrite map_map.
    apply map_ext_in. intros [x i] Hin. simpl. unfold h, fused_score.
    rewrite Hranks, (get_combine_In S _ x i HndS Hin). reflexivity. }
  assert (Hsorted : stable_sort (desc snd) (applyRRF (map g C) [] k) = map h S).
  { apply (sorted_perm_unique (desc (@snd string Q))).
    - apply stable_sort_sorted; [apply desc_total | apply desc_trans].
    - rewrite HhS. apply rank_values_sorted; [assumption | lia].
    - etransitivity; [apply stable_sort_perm|].
      rewrite Hfused. apply Permutation_map.
      unfold S. apply Permutation_map. symmetry. apply stable_sort_perm. }
  unfold topIds, JsMap.entries. rewrite Hsorted.
  rewrite <- firstn_map, map_map. simpl. rewrite map_id.
  unfold S. now rewrite firstn_map.
Qed.

(** The ranking of a hybrid search whose sparse request yields no terms is
    the ranking of the dense-only search with the same limit. *)
Lemma libsql_fallback_ranking c md v text options :
  metadataCache c = Some md -> isHybrid md = true ->
  (forall r, In r (vector_top_k (documents c) v (or_default (limit options) 10 * 2)) ->
             In r (documents c)) ->
  NoDup (map id (vector_top_k (documents c) v (or_default (limit options) 10 * 2))) ->
  0 <= rrf_k options ->
  sparse_query_empty sqrt c text ->
  exists results warnings dense_results,
    hybridSearch vector_top_k vector_distance_cos sqrt c
      [dense_request v; sparse_request text] options = (Ok results, warnings)
    /\ search sql_where vector_top_k vector_distance_cos c v
         {| topK := limit options; threshold := None; filterExpr := None |}
       = (Ok dense_results, [])
    /\ map (fun r => doc_id (document r)) results
       = map (fun r => doc_id (document r)) dense_results.
Proof.
  intros Hmd Hhyb Hsub Hnd Hk Hempty.
  destruct (hybridSearch_run vector_top_k vector_distance_cos sqrt c md v text
              options Hmd Hhyb Hsub)
    as (sparse & warnings & results & Hs & _ & Hrun & Hall).
  destruct (sparse_empty_no_results sqrt c text Hempty) as [ws Hs'].
  rewrite Hs' in Hs. injection Hs as <- <-.
  exists results, ws. eexists. split; [exact Hrun|].
  split; [apply search_plain|].
  rewrite (Forall2_ids _ _ _ Hall), topIds_dense_only by assumption.
  rewrite !map_map. reflexivity.
Qed.

End FallbackRanking.






Section FusedScores.
Import Js LibSQL.





End FusedScores.



Lemma tie_collection_candidates top_k v n :
  top_k = LibSQL.scan_top_k \/ top_k = LibSQL.scan_top_k_rev ->
  forall r, In r (top_k (LibSQL.documents LibSQL.tie_collection) v n) ->
            In r (LibSQL.documents LibSQL.tie_collection).
Proof.
  intros [-> | ->] r Hr.
  - unfold LibSQL.scan_top_k in Hr. eapply In_firstn; exact Hr.
  - unfold LibSQL.scan_top_k_rev in Hr. apply in_rev in Hr.
    eapply In_firstn; exact Hr.
Qed.

(** C3 as stated fails: ids of equal fused score are not returned in id
    order.  In [tie_collection] the ids "b" and "a" exchange their ranks
    between the two lists, so both have the fused score 1/61 + 1/62; the
    search returns "b" before "a", the order in which the engine returned
    the dense candidates. *)
Lemma hybrid_search_ties_not_by_id :
  ~ (forall (vector_top_k : LibSQL.Table -> list Q -> nat -> list LibSQL.Row)
            (vector_distance_cos : list Q -> list Q -> Q) (sqrt : Q -> Q)
            (c : LibSQL.Collection) (md : LibSQL.CollectionMetadata)
            (v : list Q) (text : string) (options : LibSQL.HybridSearchOptions)
            (results : list LibSQL.VectorSearchResult) (warnings : list string),
       LibSQL.metadataCache c = Some md ->
       LibSQL.isHybrid md = true ->
       (forall r,
          In r (vector_top_k (LibSQL.documents c) v
                  (Js.or_default (LibSQL.limit options) 10 * 2)%nat) ->
          In r (LibSQL.documents c)) ->
       0 <= LibSQL.rrf_k options ->
       LibSQL.hybridSearch vector_top_k vector_distance_cos sqrt c
         [LibSQL.dense_request v; LibSQL.sparse_request text] options
       = (Js.Ok results, warnings) ->
       forall i j ri rj,
         (i < j)%nat ->
         nth_error results i = Some ri -> nth_error results j = Some rj ->
         LibSQL.score ri == LibSQL.score rj ->
         String.leb (LibSQL.doc_id (LibSQL.document ri))
                    (LibSQL.doc_id (LibSQL.document rj)) = true).
Proof.
  intros H.
  specialize (H LibSQL.scan_top_k LibSQL.squared_distance BM25.approx_sqrt
                LibSQL.tie_collection
                {| LibSQL.dimension := 2; LibSQL.isHybrid := true;
                   LibSQL.documentCount := 2 |}
                [1; 0] "fox"%string LibSQL.default_options
                _ _ eq_refl eq_refl
                (tie_collection_candidates _ _ _ (or_introl eq_refl))
                ltac:(unfold Qle; simpl; lia) eq_refl
                0%nat 1%nat _ _ ltac:(lia) eq_refl eq_refl).
  vm_compute in H. specialize (H eq_refl). discriminate H.
Qed.

(** The run behind it, and the same search over an engine that returns the
    same dense candidates in the other order. *)
Example hybrid_search_tie_runs :
  let ids := fun run : LibSQL.Logged (Js.result (list LibSQL.VectorSearchResult)) =>
               match fst run with
               | Js.Ok results =>
                   map (fun r => LibSQL.doc_id (LibSQL.document r)) results
               | Js.Throw _ => []
               end in
  ids (LibSQL.hybridSearch LibSQL.scan_top_k LibSQL.squared_distance
         BM25.approx_sqrt LibSQL.tie_collection
         [LibSQL.dense_request [1; 0]; LibSQL.sparse_request "fox"]
         LibSQL.default_options) = ["b"; "a"]%string
  /\ ids (LibSQL.hybridSearch LibSQL.scan_top_k_rev LibSQL.squared_distance
            BM25.approx_sqrt LibSQL.tie_collection
            [LibSQL.dense_request [1; 0]; LibSQL.sparse_request "fox"]
            LibSQL.default_options) = ["a"; "b"]%string.
Proof. split; vm_compute; reflexivity. Qed.

(** ** The fallback ranking and the dense-only ranking *)

Section RankingsCompared.
Import Js.

Context {A : Type}.
Variable key : A -> Q.









End RankingsCompared.

Section FallbackCompared.
Import Js LibSQL.
Variable sql_where : string -> option (Row -> bool).
Variables top_k_hybrid top_k_search : Table -> list Q -> nat -> list Row.
Variable vector_distance_cos : list Q -> list Q -> Q.
Variable sqrt : Q -> Q.
Hypothesis distance_nonneg : forall u v, 0 <= vector_distance_cos u v.


End FallbackCompared.





(** C4 as stated fails for the LibSQL store: with two candidates at the same
    distance from the query, the fallback of the hybrid search lists them in
    the order in which the engine returned them to its statement, the
    dense-only search in the order in which they reached its [ORDER BY]; the
    two rankings then hold the same ids in different orders. *)
Lemma hybrid_fallback_ties_differ :
  ~ (forall (sql_where : string -> option (LibSQL.Row -> bool))
            (top_k_hybrid top_k_search :
               LibSQL.Table -> list Q -> nat -> list LibSQL.Row)
            (vector_distance_cos : list Q -> list Q -> Q) (sqrt : Q -> Q)
            (c : LibSQL.Collection) (md : LibSQL.CollectionMetadata)
            (v : list Q) (text : string) (options : LibSQL.HybridSearchOptions)
            (results dense_results : list LibSQL.VectorSearchResult)
            (warnings dense_warnings : list string),
       (forall u w, 0 <= vector_distance_cos u w) ->
       LibSQL.metadataCache c = Some md ->
       LibSQL.isHybrid md = true ->
       (forall r,
          In r (top_k_hybrid (LibSQL.documents c) v
                  (Js.or_default (LibSQL.limit options) 10 * 2)%nat) ->
          In r (LibSQL.documents c)) ->
       NoDup (map LibSQL.id
                (top_k_hybrid (LibSQL.documents c) v
                   (Js.or_default (LibSQL.limit options) 10 * 2)%nat)) ->
       Permutation
         (top_k_hybrid (LibSQL.documents c) v
            (Js.or_default (LibSQL.limit options) 10 * 2)%nat)
         (top_k_search (LibSQL.documents c) v
            (Js.or_default (LibSQL.limit options) 10 * 2)%nat) ->
       0 <= LibSQL.rrf_k options ->
       LibSQL.sparse_query_empty sqrt c text ->
       LibSQL.hybridSearch top_k_hybrid vector_distance_cos sqrt c
         [LibSQL.dense_request v; LibSQL.sparse_request text] options
       = (Js.Ok results, warnings) ->
       LibSQL.search sql_where top_k_search vector_distance_cos c v
         {| LibSQL.topK := LibSQL.limit options; LibSQL.threshold := None;
            LibSQL.filterExpr := None |}
       = (Js.Ok dense_results, dense_warnings) ->
       map (fun r => LibSQL.doc_id (LibSQL.document r)) results
       = map (fun r => LibSQL.doc_id (LibSQL.document r)) dense_results).
Proof.
  intros H.
  pose (run := LibSQL.hybridSearch LibSQL.scan_top_k LibSQL.squared_distance
                 BM25.approx_sqrt LibSQL.tie_collection
                 [LibSQL.dense_request [3 # 2; 0]; LibSQL.sparse_request "zzz"]
                 LibSQL.default_options).
  pose (dense_run := LibSQL.search LibSQL.demo_where LibSQL.scan_top_k_rev
                       LibSQL.squared_distance LibSQL.tie_collection [3 # 2; 0]
                       {| LibSQL.topK := None; LibSQL.threshold := None;
                          LibSQL.filterExpr := None |}).
  specialize (H LibSQL.demo_where LibSQL.scan_top_k LibSQL.scan_top_k_rev
                LibSQL.squared_distance BM25.approx_sqrt LibSQL.tie_collection
                {| LibSQL.dimension := 2; LibSQL.isHybrid := true;
                   LibSQL.documentCount := 2 |}
                [3 # 2; 0] "zzz"%string LibSQL.default_options
                (match fst run with Js.Ok r => r | Js.Throw _ => [] end)
                (match fst dense_run with Js.Ok r => r | Js.Throw _ => [] end)
                (snd run) (snd dense_run)
                squared_distance_nonneg eq_refl eq_refl
                (tie_collection_candidates _ _ _ (or_introl eq_refl))).
  specialize (H ltac:(repeat constructor; simpl; intuition discriminate)
                (Permutation_rev _)
                ltac:(unfold Qle; simpl; lia)
                ltac:(right; eexists; split; [vm_compute; reflexivity | reflexivity])
                ltac:(vm_compute; reflexivity) ltac:(vm_compute; reflexivity)).
  vm_compute in H. discriminate H.
Qed.

(** The two runs behind it. *)
Example hybrid_fallback_tie_runs :
  let ids := fun run : LibSQL.Logged (Js.result (list LibSQL.VectorSearchResult)) =>
               match fst run with
               | Js.Ok results =>
                   map (fun r => LibSQL.doc_id (LibSQL.document r)) results
               | Js.Throw _ => []
               end in
  ids (LibSQL.hybridSearch LibSQL.scan_top_k LibSQL.squared_distance
         BM25.approx_sqrt LibSQL.tie_collection
         [LibSQL.dense_request [3 # 2; 0]; LibSQL.sparse_request "zzz"]
         LibSQL.default_options) = ["b"; "a"]%string
  /\ ids (LibSQL.search LibSQL.demo_where LibSQL.scan_top_k_rev
            LibSQL.squared_distance LibSQL.tie_collection [3 # 2; 0]
            {| LibSQL.topK := None; LibSQL.threshold := None;
               LibSQL.filterExpr := None |}) = ["a"; "b"]%string.
Proof. split; vm_compute; reflexivity. Qed.

(** ** The definitions on the inputs of the unit tests *)

Example tokenize_example :
  BM25.tokenize BM25.demo_model "The quick-fox, the DOG a"
  = ["the"; "quick"; "fox"; "the"; "dog"]%string.
Proof. reflexivity. Qed.

Example calculateTermFrequency_example :
  BM25.calculateTermFrequency ["the"; "quick"; "fox"; "the"]%string
  = [("the", 2); ("quick", 1); ("fox", 1)]%string%nat.
Proof. reflexivity. Qed.

Example split_ws_example : Js.split_ws " a  b " = [""; "a"; "b"; ""]%string.
Proof. reflexivity. Qed.

Example parseFilterExpression_examples :
  LibSQL.parseFilterExpression "fileExtension == '.ts'"
  = ("file_extension = '.ts'"%string, [])
  /\ LibSQL.parseFilterExpression "fileExtension in ['.ts', '.js']"
     = ("file_extension IN ('.ts','.js')"%string, [])
  /\ LibSQL.parseFilterExpression "relativePath == 'src/app.ts'"
     = ("relative_path = 'src/app.ts'"%string, [])
  /\ Qdrant.parseFilterExpression "fileExtension == '.ts'"
     = (Some (Qdrant.MatchKeyword "fileExtension" ".ts"), [])
  /\ Qdrant.parseFilterExpression "fileExtension in ['.ts', '.js']"
     = (Some (Qdrant.MatchAny "fileExtension" [".ts"; ".js"]%string), []).
Proof. repeat split. Qed.

(** The test "should filter by fileExtension" of the LibSQL store. *)
Example query_filter_example :
  exists rows,
    LibSQL.query LibSQL.demo_where LibSQL.plane_collection "fileExtension == '.ts'"
      ["id"%string] None = (Js.Ok rows, [])
    /\ List.length rows = 3%nat.
Proof. eexists. split; [vm_compute; reflexivity | reflexivity]. Qed.

(** A tie of fused scores: "b" is first in the dense list only, "a" first in
    the sparse list only; the dense id comes first. *)
Example applyRRF_tie :
  LibSQL.topIds (LibSQL.applyRRF [("b"%string, 1 # 2)] [("a"%string, 3)] 60) 10
  = ["b"; "a"]%string
  /\ LibSQL.applyRRF [("b"%string, 1 # 2)] [("a"%string, 3)] 60
     = [("b"%string, 0 + 1 / (60 + inject_Z 1)); ("a"%string, 0 + 1 / (60 + inject_Z 1))].
Proof. split; reflexivity. Qed.

(** * Further properties of the code *)

(** ** The registry over its whole history *)

Section RegistryHistory.
Import Registry.

Lemma keys_delete {V} (m : JsMap.t string V) k :
  JsMap.keys (JsMap.delete m k) = filter (fun q => negb (String.eqb q k)) (JsMap.keys m).
Proof.
  unfold JsMap.keys, JsMap.delete. induction m as [|[k0 v0] m IH]; [reflexivity|].
  cbn [filter map fst]. change (eqb k0 k) with (String.eqb k0 k).
  destruct (String.eqb k0 k); cbn [negb map fst]; now rewrite IH.
Qed.

Lemma NoDup_keys_delete {V} (m : JsMap.t string V) k :
  NoDup (JsMap.keys m) -> NoDup (JsMap.keys (JsMap.delete m k)).
Proof. intros H. rewrite keys_delete. now apply NoDup_filter. Qed.

Lemma In_remove_path l p q :
  In q (filter (fun x => negb (String.eqb x p)) l) <-> In q l /\ q <> p.
Proof.
  rewrite filter_In. rewrite negb_true_iff. now rewrite String.eqb_neq.
Qed.

Lemma get_In_NoDup {V} (m : JsMap.t string V) k v :
  NoDup (JsMap.keys m) -> (In (k, v) m <-> JsMap.get m k = Some v).
Proof.
  unfold JsMap.keys. induction m as [|[k0 v0] m IH]; simpl; intros Hnd.
  - split; [tauto | discriminate].
  - inversion Hnd as [|? ? Hk0 Hnd']; subst.
    destruct (String.eqb k0 k) eqn:E.
    + apply String.eqb_eq in E. subst k0. split.
      * intros [H | H]; [congruence|].
        exfalso. apply Hk0. apply in_map_iff. now exists (k, v).
      * intros H. left. congruence.
    + apply String.eqb_neq in E. rewrite <- IH by assumption. split.
      * intros [H | H]; [congruence | assumption].
      * auto.
Qed.

Ltac reg_unfold :=
  unfold getIndexedCodebases, getCodebaseInfo, getCodebaseStatus,
    getIndexingCodebases, getIndexingProgress in *; simpl in *.

Ltac reg_maps p q :=
  destruct (string_dec q p) as [-> | ?];
  [ rewrite ?get_set_same, ?get_delete_same
  | rewrite ?(@get_set_other _ _ _ _ q p), ?(@get_delete_other _ _ _ _ q p) by assumption ].

Lemma consistent_initial : consistent initial.
Proof.
  repeat split; try constructor; reg_unfold; try tauto; try discriminate.
  intros (? & ? & ? & ?). discriminate.
Qed.

Lemma consistent_perform s c : consistent s -> consistent (perform s c).
Proof.
  intros H.
  destruct c as [now q progress | now q st | now q msg last | q | q | | |];
    try exact H; try apply consistent_initial;
    destruct H as (Hnd & Hkeys & Hidx & Hprog & Hcount).
  - (* setCodebaseIndexing *)
    unfold consistent; reg_unfold. repeat split.
    + now apply NoDup_filter.
    + now apply NoDup_keys_set.
    + rewrite In_remove_path. intros [Hp Hn].
      rewrite get_set_other by congruence. now apply Hidx.
    + rewrite In_remove_path. reg_maps p q; simpl; [discriminate|].
      intros H. split; [now apply Hidx | congruence].
    + intros p. rewrite In_remove_path. intros [Hp Hn].
      rewrite get_set_other by congruence. now apply Hprog.
    + reg_maps p q; [discriminate | apply Hcount].
    + reg_maps p q; [intros (? & ? & ? & ?); discriminate | apply Hcount].
  - (* setCodebaseIndexed *)
    unfold consistent; reg_unfold. repeat split.
    + destruct (includes (indexedCodebases s) q) eqn:E; [assumption|].
      apply NoDup_app; [assumption | repeat constructor; simpl; tauto |].
      intros x Hx [<- | []]. apply includes_In in Hx. congruence.
    + now apply NoDup_keys_set.
    + reg_maps p q; [reflexivity|].
      intros H. apply Hidx.
      destruct (includes (indexedCodebases s) q); [assumption|].
      apply in_app_or in H. destruct H as [H | [H | []]]; [assumption | congruence].
    + reg_maps p q.
      * intros _. destruct (includes (indexedCodebases s) p) eqn:E.
        -- now apply includes_In.
        -- apply in_or_app. right. now left.
      * intros H. apply Hidx in H.
        destruct (includes (indexedCodebases s) q); [assumption|].
        apply in_or_app. now left.
    + intros p. reg_maps p q; [reflexivity|].
      intros H. apply Hprog.
      destruct (includes (indexedCodebases s) q); [assumption|].
      apply in_app_or in H. destruct H as [H | [H | []]]; [assumption | congruence].
    + reg_maps p q; [|apply Hcount].
      intros H. injection H as <-. eauto.
    + reg_maps p q; [|apply Hcount].
      intros (? & ? & ? & H). congruence.
  - (* setCodebaseIndexFailed *)
    unfold consistent; reg_unfold. repeat split.
    + now apply NoDup_filter.
    + now apply NoDup_keys_set.
    + rewrite In_remove_path. intros [Hp Hn].
      rewrite get_set_other by congruence. now apply Hidx.
    + rewrite In_remove_path. reg_maps p q; simpl; [discriminate|].
      intros H. split; [now apply Hidx | congruence].
    + intros p. rewrite In_remove_path. intros [Hp Hn].
      rewrite get_delete_other by congruence. now apply Hprog.
    + reg_maps p q; [discriminate | apply Hcount].
    + reg_maps p q; [intros (? & ? & ? & ?); discriminate | apply Hcount].
  - (* removeCodebaseCompletely *)
    unfold consistent; reg_unfold. repeat split.
    + now apply NoDup_filter.
    + now apply NoDup_keys_delete.
    + rewrite In_remove_path. intros [Hp Hn].
      rewrite get_delete_other by congruence. now apply Hidx.
    + rewrite In_remove_path. reg_maps p q; simpl; [discriminate|].
      intros H. split; [now apply Hidx | congruence].
    + intros p. rewrite In_remove_path. intros [Hp Hn].
      rewrite get_delete_other by congruence. now apply Hprog.
    + reg_maps p q; [discriminate | apply Hcount].
    + reg_maps p q; [intros (? & ? & ? & ?); discriminate | apply Hcount].
  - (* removeIndexedCodebase *)
    unfold consistent; reg_unfold. repeat split.
    + now apply NoDup_filter.
    + now apply NoDup_keys_delete.
    + rewrite In_remove_path. intros [Hp Hn].
      rewrite get_delete_other by congruence. now apply Hidx.
    + rewrite In_remove_path. reg_maps p q; simpl; [discriminate|].
      intros H. split; [now apply Hidx | congruence].
    + intros p. rewrite In_remove_path. intros [Hp Hn]. now apply Hprog.
    + reg_maps p q; [discriminate | apply Hcount].
    + reg_maps p q; [intros (? & ? & ? & ?); discriminate | apply Hcount].
Qed.

Lemma consistent_fold history : forall s,
  consistent s -> consistent (fold_left perform history s).
Proof.
  induction history as [|c history IH]; intros s H; simpl; [assumption|].
  apply IH. now apply consistent_perform.
Qed.

Lemma consistent_run history : consistent (run history).
Proof. apply consistent_fold. apply consistent_initial. Qed.

Lemma failed_In s p :
  NoDup (JsMap.keys (codebaseInfoMap s)) ->
  In p (getFailedCodebases s) <-> getCodebaseStatus s p = st_indexfailed.
Proof.
  intros Hnd. unfold getFailedCodebases, getCodebaseStatus, JsMap.entries.
  rewrite in_map_iff. split.
  - intros [[q i] [<- Hin]]. apply filter_In in Hin. destruct Hin as [Hin Hst].
    apply get_In_NoDup in Hin; [|assumption]. simpl in *. rewrite Hin.
    destruct (info_status i); congruence.
  - destruct (JsMap.get (codebaseInfoMap s) p) as [i|] eqn:E; [|discriminate].
    intros Hst. exists (p, i). split; [reflexivity|].
    apply filter_In. split; [now apply get_In_NoDup|]. simpl. now rewrite Hst.
Qed.

(** X1.  Whatever calls were made on a new registry, its fields agree: the
    indexed list has no duplicates; a path is in it exactly when its status is
    "indexed", and then it is not in the indexing list; the failed list holds
    exactly the paths of status "indexfailed"; and a file count is recorded
    for a path exactly when its info is an indexed record with that count. *)
Theorem registry_states_agree (history : list Call) (p : string) :
  let s := run history in
  NoDup (getIndexedCodebases s)
  /\ (In p (getIndexedCodebases s) <-> getCodebaseStatus s p = st_indexed)
  /\ (In p (getFailedCodebases s) <-> getCodebaseStatus s p = st_indexfailed)
  /\ (In p (getIndexedCodebases s) -> ~ In p (getIndexingCodebases s))
  /\ (forall n, JsMap.get (codebaseFileCount s) p = Some n <->
        exists chunks st t,
          getCodebaseInfo s p = Some (CodebaseInfoIndexed n chunks st t)).
Proof.
  cbv zeta. destruct (consistent_run history) as (Hnd & Hkeys & Hidx & Hprog & Hcount).
  split; [|split; [|split; [|split]]].
  - exact Hnd.
  - apply Hidx.
  - now apply failed_In.
  - intros Hin. unfold getIndexingCodebases. rewrite in_keys_get.
    apply Hprog in Hin. unfold getIndexingProgress in Hin. congruence.
  - intros n. apply Hcount.
Qed.

Lemma tracked_fold history : forall s,
  forallb (fun c => negb (is_removeIndexedCodebase c)) history = true ->
  (forall p n, getIndexingProgress s p = Some n <->
     exists t, getCodebaseInfo s p = Some (CodebaseInfoIndexing n t)) ->
  forall p n,
    getIndexingProgress (fold_left perform history s) p = Some n <->
    exists t, getCodebaseInfo (fold_left perform history s) p
              = Some (CodebaseInfoIndexing n t).
Proof.
  induction history as [|c history IH]; intros s Hall H; [exact H|].
  simpl in Hall. apply andb_prop in Hall. destruct Hall as [Hc Hall].
  simpl. apply IH; [assumption|]. clear IH Hall.
  destruct c as [now q progress | now q st | now q msg last | q | q | | |];
    try discriminate Hc; try exact H; intros p n; reg_unfold;
    try (split; [discriminate | intros [? ?]; discriminate]).
  - reg_maps p q; [|apply H].
    split; [intros E; injection E as <-; eauto | intros [? E]; congruence].
  - reg_maps p q; [|apply H].
    split; [discriminate | intros [? ?]; discriminate].
  - reg_maps p q; [|apply H].
    split; [discriminate | intros [? ?]; discriminate].
  - reg_maps p q; [|apply H].
    split; [discriminate | intros [? ?]; discriminate].
Qed.

(** X2.  As long as [removeIndexedCodebase] is not among the calls, the
    indexing map follows the info map: a path is listed as indexing exactly
    when its status is "indexing", and its progress is the percentage of its
    info record. *)
Theorem registry_indexing_agrees (history : list Call) (p : string) :
  forallb (fun c => negb (is_removeIndexedCodebase c)) history = true ->
  let s := run history in
  (In p (getIndexingCodebases s) <-> getCodebaseStatus s p = st_indexing)
  /\ (forall n, getIndexingProgress s p = Some n <->
        exists t, getCodebaseInfo s p = Some (CodebaseInfoIndexing n t)).
Proof.
  intros Hall. cbv zeta.
  assert (T : forall p n,
             getIndexingProgress (run history) p = Some n <->
             exists t, getCodebaseInfo (run history) p
                       = Some (CodebaseInfoIndexing n t)).
  { apply tracked_fold; [assumption|].
    intros q n. reg_unfold. split; [discriminate | intros [? ?]; discriminate]. }
  split; [|intros n; apply T].
  unfold getIndexingCodebases. rewrite in_keys_get.
  fold (getIndexingProgress (run history) p).
  unfold getCodebaseStatus. fold (getCodebaseInfo (run history) p).
  destruct (getIndexingProgress (run history) p) as [n|] eqn:E.
  - apply T in E. destruct E as [t E]. rewrite E. simpl. split; congruence.
  - split; [congruence|].
    destruct (getCodebaseInfo (run history) p) as [[n t| |]|] eqn:Ei;
      try discriminate.
    intros _. assert (E' : getIndexingProgress (run history) p = Some n)
      by (apply T; eauto).
    congruence.
Qed.

Lemma registry_indexing_agrees_witness :
  let history := [CallSetCodebaseIndexing "t0" "/a" 0;
                  CallSetCodebaseIndexing "t1" "/b" 10;
                  CallSetCodebaseIndexed "t2" "/a"
                    {| indexedFiles := 3; totalChunks := 7; status := completed |};
                  CallSetCodebaseIndexing "t3" "/b" 60]%string in
  getIndexingCodebases (run history) = ["/b"%string]
  /\ (In "/b"%string (getIndexingCodebases (run history))
      <-> getCodebaseStatus (run history) "/b" = st_indexing)
  /\ (forall n, getIndexingProgress (run history) "/b" = Some n <->
        exists t, getCodebaseInfo (run history) "/b"
                  = Some (CodebaseInfoIndexing n t)).
Proof.
  cbv zeta. split; [reflexivity|].
  apply (registry_indexing_agrees
           [CallSetCodebaseIndexing "t0" "/a" 0;
            CallSetCodebaseIndexing "t1" "/b" 10;
            CallSetCodebaseIndexed "t2" "/a"
              {| indexedFiles := 3; totalChunks := 7; status := completed |};
            CallSetCodebaseIndexing "t3" "/b" 60]%string "/b"%string).
  reflexivity.
Defined.

(** X3.  [removeCodebaseCompletely] leaves no trace of the path: it is not
    indexed, not indexing, not failed, has no info and no progress.
    [removeIndexedCodebase] clears the same except the indexing map: the
    progress of the path stays what it was, so a path that was indexing is
    still listed as indexing while its status is "not_found". *)
Theorem remove_completely_vs_indexed (s : State) (p : string) :
  (let s' := removeCodebaseCompletely p s in
   ~ In p (getIndexedCodebases s') /\ ~ In p (getIndexingCodebases s')
   /\ ~ In p (getFailedCodebases s')
   /\ getCodebaseInfo s' p = None /\ getIndexingProgress s' p = None
   /\ getCodebaseStatus s' p = st_not_found)
  /\ (let s' := removeIndexedCodebase p s in
      ~ In p (getIndexedCodebases s') /\ ~ In p (getFailedCodebases s')
      /\ getCodebaseInfo s' p = None /\ getCodebaseStatus s' p = st_not_found
      /\ getIndexingProgress s' p = getIndexingProgress s p
      /\ (In p (getIndexingCodebases s') <-> In p (getIndexingCodebases s))).
Proof.
  assert (F : forall m : JsMap.t string CodebaseInfo,
            ~ In p (map fst (filter (fun e => match info_status (snd e) with
                                              | st_indexfailed => true
                                              | _ => false end)
                               (JsMap.entries (JsMap.delete m p))))).
  { intros m Hin. apply in_map_iff in Hin. destruct Hin as [[q i] [<- Hin]].
    apply filter_In in Hin. destruct Hin as [Hin _].
    assert (K : In q (JsMap.keys (JsMap.delete m q)))
      by (apply in_map_iff; now exists (q, i)).
    apply in_keys_get in K. apply K. apply get_delete_same. }
  cbv zeta. split; reg_unfold; unfold getFailedCodebases; simpl;
    rewrite ?in_keys_get, ?get_delete_same, ?In_remove_path;
    repeat apply conj; try reflexivity; try tauto; try apply F.
Qed.

(** X4.  A call about one path leaves every other path as it was: its
    membership in the indexed list, its progress, its info, its status and
    its file count.  Saving and loading change nothing at all. *)
Theorem registry_calls_are_local (s : State) (c : Call) (q : string) :
  call_touches c q = false ->
  let s' := perform s c in
  (In q (getIndexedCodebases s') <-> In q (getIndexedCodebases s))
  /\ getIndexingProgress s' q = getIndexingProgress s q
  /\ getCodebaseInfo s' q = getCodebaseInfo s q
  /\ getCodebaseStatus s' q = getCodebaseStatus s q
  /\ JsMap.get (codebaseFileCount s') q = JsMap.get (codebaseFileCount s) q.
Proof.
  intros Hq. cbv zeta.
  destruct c as [now p progress | now p st | now p msg last | p | p | | |];
    simpl in Hq; try discriminate Hq;
    try (apply String.eqb_neq in Hq); reg_unfold;
    rewrite ?In_remove_path,
      ?(@get_set_other _ _ _ _ p q), ?(@get_delete_other _ _ _ _ p q) by assumption;
    (split; [|split; [|split; [|split]]]); try reflexivity; try tauto;
    try (split; [tauto | intros; split; [assumption | congruence]]).
  destruct (includes (indexedCodebases s) p); [tauto|].
  rewrite in_app_iff. simpl. split; [|tauto].
  intros [H | [H | []]]; [assumption | contradiction].
Qed.

Lemma registry_calls_are_local_witness :
  let s := run [CallSetCodebaseIndexing "t0" "/a" 40]%string in
  getCodebaseStatus
    (perform s (CallSetCodebaseIndexFailed "t1" "/b" "boom" None)) "/a"
  = st_indexing.
Proof.
  cbv zeta.
  rewrite (proj1 (proj2 (proj2 (proj2
             (registry_calls_are_local
                (run [CallSetCodebaseIndexing "t0" "/a" 40]%string)
                (CallSetCodebaseIndexFailed "t1" "/b" "boom" None) "/a"%string
                eq_refl))))).
  reflexivity.
Defined.

End RegistryHistory.

(** ** The embedder against an arbitrary provider *)

Section RetryTotal.
Import Retry.
Variables maxRetries baseDelay : Z.

(** Among the first [k + 1] requests there is a first one that is not a
    retryable failure, or all but the last are retryable failures. *)
Lemma first_final_attempt {T} (out : nat -> Outcome T) (w : World) (k : nat) :
  exists n, (n <= k)%nat
    /\ (forall i, (i < n)%nat ->
          exists e, out (calls w + i)%nat = Rejected e /\ isRetryableError e = true)
    /\ (n = k
        \/ (exists v, out (calls w + n)%nat = Resolved v)
        \/ (exists e, out (calls w + n)%nat = Rejected e
                      /\ isRetryableError e = false)).
Proof.
  induction k as [|k [n (Hle & Hfail & Hend)]].
  - exists 0%nat. repeat split; [lia | | now left]. intros i Hi. lia.
  - destruct Hend as [-> | Hend].
    + destruct (out (calls w + k)%nat) as [v|e] eqn:E.
      * exists k. repeat split; [lia | assumption | right; left; eauto].
      * destruct (isRetryableError e) eqn:Er.
        -- exists (S k). repeat split; [lia | | now left].
           intros i Hi. destruct (Nat.eq_dec i k) as [-> | Hne]; [eauto|].
           apply Hfail. lia.
        -- exists k. repeat split; [lia | assumption | right; right; eauto].
    + exists n. repeat split; [lia | assumption | now right].
Qed.

(** Every run of [executeWithRetry] is one of those of
    [executeWithRetry_outcomes]. *)
Lemma executeWithRetry_total T (operation : M T) c out context w :
  one_request operation c out ->
  (0 <= maxRetries)%Z ->
  exists n, (Z.of_nat n <= maxRetries)%Z
    /\ (forall i, (i < n)%nat ->
          exists e, out (calls w + i)%nat = Rejected e /\ isRetryableError e = true)
    /\ snd (executeWithRetry maxRetries baseDelay operation context w)
       = after_attempts w c baseDelay n
    /\ match out (calls w + n)%nat with
       | Resolved v =>
           fst (executeWithRetry maxRetries baseDelay operation context w)
           = Resolved v
       | Rejected e =>
           fst (executeWithRetry maxRetries baseDelay operation context w)
           = Rejected (wrapError context (Some e))
           /\ (isRetryableError e = false \/ Z.of_nat n = maxRetries)
       end.
Proof.
  intros Hop Hmax.
  destruct (first_final_attempt out w (Z.to_nat maxRetries))
    as (n & Hle & Hfail & Hend).
  assert (Hn : (Z.of_nat n <= maxRetries)%Z) by lia.
  destruct (@executeWithRetry_outcomes maxRetries baseDelay T operation c out
              context n w Hop Hn Hfail) as [Hres Hrej].
  exists n. split; [assumption|]. split; [assumption|].
  destruct (out (calls w + n)%nat) as [v|e] eqn:E.
  - rewrite (Hres v eq_refl). split; reflexivity.
  - assert (Hwhy : isRetryableError e = false \/ Z.of_nat n = maxRetries).
    { destruct Hend as [-> | [[v Hv] | [e' [He' Hr]]]].
      - right. lia.
      - discriminate.
      - left. congruence. }
    rewrite (Hrej e eq_refl Hwhy). repeat split. assumption.
Qed.

Lemma waited_app (l1 l2 : list Event) : waited (l1 ++ l2) = (waited l1 + waited l2)%Z.
Proof.
  unfold waited. induction l1 as [|[c|ms] l1 IH]; simpl; [reflexivity | assumption|].
  rewrite IH. lia.
Qed.

(** The waits of [n] retried attempts: never negative, at most ten seconds
    each, and at most the geometric sum of the uncapped delays. *)
Lemma waited_retried c (n : nat) : forall a,
  (0 < baseDelay)%Z -> (0 <= a)%Z ->
  (0 <= waited (retried c baseDelay n a)
   /\ waited (retried c baseDelay n a) <= 10000 * Z.of_nat n
   /\ waited (retried c baseDelay n a)
      <= baseDelay * 2 ^ a * (2 ^ Z.of_nat n - 1))%Z.
Proof.
  induction n as [|n IH]; intros a Hb Ha.
  - simpl. lia.
  - destruct (IH (a + 1)%Z Hb ltac:(lia)) as (H0 & H1 & H2).
    change (waited (retried c baseDelay (S n) a))
      with (Z.min (baseDelay * 2 ^ a) 10000
            + waited (retried c baseDelay n (a + 1)))%Z.
    assert (Hp : (0 < 2 ^ a)%Z) by (apply Z.pow_pos_nonneg; lia).
    assert (Hq : (0 < 2 ^ Z.of_nat n)%Z) by (apply Z.pow_pos_nonneg; lia).
    rewrite Z.pow_add_r in H2 by lia. rewrite Z.pow_1_r in H2.
    rewrite Nat2Z.inj_succ, Z.pow_succ_r by lia.
    assert (Hd : (0 < baseDelay * 2 ^ a)%Z) by nia.
    repeat split; lia || nia.
Qed.

End RetryTotal.

Section RetryExtras.
Import Retry.

(** X5.  Whatever the provider answers, [embed] with [maxRetries >= 0] ends
    after [n + 1] requests for some [n <= maxRetries]: the first [n] were
    rejected with retryable errors and each was followed by its backoff wait;
    request [n] either gave a usable answer, which is returned, or failed,
    and then its failure is thrown as [Gemini embedding failed: ...] with the
    failure as cause, which happens only if the failure is not retryable or
    [n = maxRetries]. *)
Theorem embed_ends_within_maxRetries
        (api : nat -> Contents -> Outcome Response)
        (preprocessText : string -> string) (maxRetries baseDelay : Z)
        (text : string) (w : World) :
  (0 <= maxRetries)%Z ->
  let c := One (preprocessText text) in
  let run := embed api preprocessText maxRetries baseDelay text w in
  exists n : nat,
    (Z.of_nat n <= maxRetries)%Z
    /\ (forall i, (i < n)%nat ->
          exists e, embed_outcome (api (calls w + i)%nat c) = Rejected e
                    /\ isRetryableError e = true)
    /\ snd run = after_attempts w c baseDelay n
    /\ match embed_outcome (api (calls w + n)%nat c) with
       | Resolved v => fst run = Resolved v
       | Rejected e =>
           fst run = Rejected (wrapError "Gemini embedding failed" (Some e))
           /\ (isRetryableError e = false \/ Z.of_nat n = maxRetries)
       end.
Proof.
  intros Hmax. cbv zeta. unfold embed.
  apply (@executeWithRetry_total maxRetries baseDelay EmbeddingVector
           (embedOperation api (preprocessText text)) (One (preprocessText text))
           (fun n => embed_outcome (api n (One (preprocessText text))))
           "Gemini embedding failed" w).
  - apply embedOperation_one_request.
  - assumption.
Qed.

Lemma embed_ends_within_maxRetries_witness :
  exists n : nat,
    (Z.of_nat n <= 3)%Z
    /\ snd (embed api_rate_limited_twice (fun s => s) 3 1000 "fox" world0)
       = after_attempts world0 (One "fox") 1000 n.
Proof.
  destruct (embed_ends_within_maxRetries api_rate_limited_twice (fun s => s)
              3 1000 "fox" world0 ltac:(lia))
    as (n & Hn & _ & Hw & _).
  exists n. split; [exact Hn | exact Hw].
Defined.

(** X6.  With [maxRetries >= 0] and a positive [baseDelay], one [embed]
    sends at least one and at most [maxRetries + 1] requests, and the time it
    spends waiting between them is never negative, at most ten seconds per
    retry, and at most [baseDelay * (2 ^ maxRetries - 1)] milliseconds. *)
Theorem embed_cost_bounded
        (api : nat -> Contents -> Outcome Response)
        (preprocessText : string -> string) (maxRetries baseDelay : Z)
        (text : string) (w : World) :
  (0 <= maxRetries)%Z -> (0 < baseDelay)%Z ->
  let w' := snd (embed api preprocessText maxRetries baseDelay text w) in
  (calls w < calls w')%nat
  /\ (Z.of_nat (calls w') <= Z.of_nat (calls w) + maxRetries + 1)%Z
  /\ (0 <= waited (trace w') - waited (trace w))%Z
  /\ (waited (trace w') - waited (trace w) <= 10000 * maxRetries)%Z
  /\ (waited (trace w') - waited (trace w)
      <= baseDelay * (2 ^ maxRetries - 1))%Z.
Proof.
  intros Hmax Hb. cbv zeta. unfold embed.
  destruct (@executeWithRetry_total maxRetries baseDelay EmbeddingVector
              (embedOperation api (preprocessText text))
              (One (preprocessText text))
              (fun n => embed_outcome (api n (One (preprocessText text))))
              "Gemini embedding failed" w
              (embedOperation_one_request api (preprocessText text)) Hmax)
    as (n & Hn & _ & Hw & _).
  rewrite Hw. unfold after_attempts. cbn [calls trace].
  rewrite !waited_app.
  destruct (waited_retried baseDelay (One (preprocessText text)) n 0 Hb ltac:(lia))
    as (H0 & H1 & H2).
  change (waited [EvCall (One (preprocessText text))]) with 0%Z.
  rewrite Z.pow_0_r, Z.mul_1_r in H2.
  assert (Hpow : (2 ^ Z.of_nat n <= 2 ^ maxRetries)%Z)
    by (apply Z.pow_le_mono_r; lia).
  assert (Hgeo : (baseDelay * (2 ^ Z.of_nat n - 1)
                  <= baseDelay * (2 ^ maxRetries - 1))%Z)
    by (apply Z.mul_le_mono_nonneg_l; lia).
  repeat split; lia.
Qed.

Lemma embed_cost_bounded_witness :
  let w' := snd (embed api_rate_limited_twice (fun s => s) 3 1000 "fox" world0) in
  (waited (trace w') - waited (trace world0) <= 1000 * (2 ^ 3 - 1))%Z
  /\ waited (trace w') = 3000%Z.
Proof.
  cbv zeta. split; [|reflexivity].
  apply (embed_cost_bounded api_rate_limited_twice (fun s => s) 3 1000 "fox" world0);
    lia.
Defined.

(** X7.  The constructor stores a negative [maxRetries] as it is given.
    With it the retry loop is not entered: [embed] sends no request and
    rejects with [Gemini embedding failed: Unknown error] and no cause;
    [embedBatch] sends no request either, rejects a non-empty batch and
    resolves the empty batch to the empty list. *)
Theorem negative_maxRetries_sends_nothing
        (api : nat -> Contents -> Outcome Response)
        (preprocessText : string -> string) (config : GeminiEmbeddingConfig)
        (n : Z) (text : string) (texts : list string) (w : World) :
  cfg_maxRetries config = Some n -> (n < 0)%Z ->
  let maxRetries := init_maxRetries config in
  let baseDelay := init_baseDelay config in
  embed api preprocessText maxRetries baseDelay text w
  = (Rejected (Obj true None None
                 (Some "Gemini embedding failed: Unknown error"%string) None), w)
  /\ embedBatch api preprocessText maxRetries baseDelay (text :: texts) w
     = (Rejected
          (bothFailed
             (Obj true None None
                (Some "Gemini embedding failed: Unknown error"%string) None)), w)
  /\ embedBatch api preprocessText maxRetries baseDelay [] w = (Resolved [], w).
Proof.
  intros Hcfg Hneg. cbv zeta. unfold init_maxRetries. rewrite Hcfg.
  assert (Hz : Z.to_nat (n + 1) = 0%nat) by lia.
  assert (He : forall t w0,
             embed api preprocessText n (init_baseDelay config) t w0
             = (Rejected (Obj true None None
                            (Some "Gemini embedding failed: Unknown error"%string)
                            None), w0)).
  { intros t w0. unfold embed, executeWithRetry. rewrite Hz. reflexivity. }
  split; [apply He|].
  unfold embedBatch, try_catch, executeWithRetry. rewrite Hz. simpl.
  unfold bind, try_catch. simpl. rewrite He. split; reflexivity.
Qed.

Lemma negative_maxRetries_sends_nothing_witness :
  embedBatch api_refuses_first (fun s => s) (-1) 1000 [] world0
  = (Resolved [], world0).
Proof.
  apply (negative_maxRetries_sends_nothing api_refuses_first (fun s => s)
           {| cfg_maxRetries := Some (-1)%Z; cfg_baseDelay := None |}
           (-1) "a" [] world0 eq_refl).
  reflexivity.
Defined.

(** The fallback loop either resolves with one more vector per text, or
    rejects with the failure of one per-text [embed] as cause. *)
Lemma fallback_loop_shape api preprocessText maxRetries baseDelay texts :
  forall i results w,
    match fst (fallback_loop api preprocessText maxRetries baseDelay i texts
                 results w) with
    | Resolved vs =>
        List.length vs = (List.length results + List.length texts)%nat
    | Rejected e =>
        exists text w1 e',
          In text texts
          /\ fst (embed api preprocessText maxRetries baseDelay text w1)
             = Rejected e'
          /\ e = bothFailed e'
    end.
Proof.
  induction texts as [|text texts IH]; intros i results w.
  - simpl. lia.
  - cbn [fallback_loop]. unfold bind at 1. unfold try_catch, bind.
    destruct ((if (0 <? i)%nat then sleep FALLBACK_DELAY_MS else ret tt) w)
      as [[[]|e0] w0] eqn:Es.
    + destruct (embed api preprocessText maxRetries baseDelay text w0)
        as [[v|e] w1] eqn:Ee.
      * specialize (IH (S i) (results ++ [v]) w1).
        destruct (fst (fallback_loop api preprocessText maxRetries baseDelay
                         (S i) texts (results ++ [v]) w1)) as [vs|e'].
        -- rewrite IH, length_app. simpl. lia.
        -- destruct IH as (t & w2 & e2 & Hin & He2 & ->).
           exists t, w2, e2. repeat split; [now right | assumption].
      * simpl. exists text, w0, e. rewrite Ee. repeat split. now left.
    + destruct (0 <? i)%nat; discriminate Es.
Qed.

(** X8.  What [embedBatch] can answer, whatever the provider does.  A
    rejection is always the "both batch and individual attempts failed"
    error whose cause is the failure of [embed] on one of the preprocessed
    texts; in particular the empty batch is never rejected.  A result is
    either the one of the batch request, or, when that request failed, a list
    with exactly one vector per text. *)
Theorem embedBatch_answers
        (api : nat -> Contents -> Outcome Response)
        (preprocessText : string -> string) (maxRetries baseDelay : Z)
        (texts : list string) (w : World) :
  let batch :=
    executeWithRetry maxRetries baseDelay
      (batchOperation api (map preprocessText texts))
      "Gemini batch embedding failed" w in
  match fst (embedBatch api preprocessText maxRetries baseDelay texts w) with
  | Rejected e =>
      texts <> []
      /\ exists text w1 e',
           In text (map preprocessText texts)
           /\ fst (embed api preprocessText maxRetries baseDelay text w1)
              = Rejected e'
           /\ e = bothFailed e'
  | Resolved vs =>
      fst batch = Resolved vs
      \/ (exists e, fst batch = Rejected e)
         /\ List.length vs = List.length texts
  end.
Proof.
  cbv zeta. unfold embedBatch, try_catch.
  destruct (executeWithRetry maxRetries baseDelay
              (batchOperation api (map preprocessText texts))
              "Gemini batch embedding failed" w) as [[vs|e] w0] eqn:Eb.
  - simpl. now left.
  - pose proof (fallback_loop_shape api preprocessText maxRetries baseDelay
                  (map preprocessText texts) 0%nat [] w0) as H.
    destruct (fst (fallback_loop api preprocessText maxRetries baseDelay 0
                     (map preprocessText texts) [] w0)) as [vs|e'].
    + right. split; [simpl; eauto|]. rewrite H, length_map. reflexivity.
    + split; [|exact H].
      destruct H as (t & _ & _ & Hin & _). intros ->. contradiction.
Qed.

End RetryExtras.

(** ** The BM25 vectoriser: tokens, counts, [learn] and [generate] *)

Section CountingFacts.
Import Js BM25.

Lemma getd_bump m k k' :
  getd (bump m k) k' = (getd m k' + if String.eqb k k' then 1 else 0)%nat.
Proof.
  unfold getd, bump. destruct (String.eqb k k') eqn:E.
  - apply String.eqb_eq in E. subst k'. now rewrite get_set_same.
  - apply String.eqb_neq in E. rewrite get_set_other by assumption. lia.
Qed.

Lemma total_bump m k : total (bump m k) = S (total m).
Proof.
  unfold total, bump, getd. induction m as [|[k0 v0] m IH]; simpl; [reflexivity|].
  destruct (String.eqb k0 k) eqn:E; simpl.
  - lia.
  - rewrite IH. lia.
Qed.

Lemma keys_bump m k :
  JsMap.keys (bump m k) = if JsMap.has m k then JsMap.keys m else JsMap.keys m ++ [k].
Proof. apply keys_set. Qed.

Lemma getd_fold_bump tokens : forall m k,
  getd (fold_left bump tokens m) k = (getd m k + count_occ string_dec tokens k)%nat.
Proof.
  induction tokens as [|t tokens IH]; intros m k; simpl; [lia|].
  rewrite IH, getd_bump.
  destruct (string_dec t k) as [-> | N].
  - rewrite String.eqb_refl. lia.
  - apply String.eqb_neq in N. rewrite N. lia.
Qed.

Lemma total_fold_bump tokens : forall m,
  total (fold_left bump tokens m) = (total m + List.length tokens)%nat.
Proof.
  induction tokens as [|t tokens IH]; intros m; simpl; [lia|].
  rewrite IH, total_bump. lia.
Qed.

(** The keys after a run of [set]s depend on the keys only. *)
Lemma keys_fold_set_any {V W} (f : JsMap.t string V -> string -> V)
      (g : JsMap.t string W -> string -> W) ks :
  forall (m : JsMap.t string V) (m' : JsMap.t string W),
    JsMap.keys m = JsMap.keys m' ->
    JsMap.keys (fold_left (fun m k => JsMap.set m k (f m k)) ks m)
    = JsMap.keys (fold_left (fun m k => JsMap.set m k (g m k)) ks m').
Proof.
  induction ks as [|k ks IH]; intros m m' H; simpl; [assumption|].
  apply IH. rewrite !keys_set.
  assert (Hh : JsMap.has m k = JsMap.has m' k).
  { destruct (JsMap.has m k) eqn:E1, (JsMap.has m' k) eqn:E2; try reflexivity.
    - apply has_In in E1. rewrite H in E1. apply has_In in E1. congruence.
    - apply has_In in E2. rewrite <- H in E2. apply has_In in E2. congruence. }
  rewrite Hh, H. reflexivity.
Qed.

Lemma keys_fold_set_In {V} (f : JsMap.t string V -> string -> V) ks :
  forall (m : JsMap.t string V) k,
    In k (JsMap.keys (fold_left (fun m k => JsMap.set m k (f m k)) ks m))
    <-> In k (JsMap.keys m) \/ In k ks.
Proof.
  induction ks as [|k0 ks IH]; intros m k; simpl; [tauto|].
  rewrite IH, keys_set. destruct (JsMap.has m k0) eqn:E.
  - apply has_In in E. split; [tauto|].
    intros [H | [<- | H]]; tauto.
  - rewrite in_app_iff. simpl. tauto.
Qed.

Lemma keys_fold_set_NoDup {V} (f : JsMap.t string V -> string -> V) ks :
  forall (m : JsMap.t string V),
    NoDup (JsMap.keys m) ->
    NoDup (JsMap.keys (fold_left (fun m k => JsMap.set m k (f m k)) ks m)).
Proof.
  induction ks as [|k0 ks IH]; intros m H; simpl; [assumption|].
  apply IH. now apply NoDup_keys_set.
Qed.

End CountingFacts.

Section TermFrequency.
Import Js BM25.

Lemma uniqueTerms_In tokens t : In t (uniqueTerms tokens) <-> In t tokens.
Proof.
  unfold uniqueTerms.
  rewrite (keys_fold_set_In (fun _ _ => tt) tokens JsMap.empty t). simpl. tauto.
Qed.

Lemma uniqueTerms_NoDup tokens : NoDup (uniqueTerms tokens).
Proof.
  unfold uniqueTerms.
  apply (keys_fold_set_NoDup (fun _ _ => tt) tokens JsMap.empty). constructor.
Qed.

Lemma calculateTermFrequency_bump tokens :
  calculateTermFrequency tokens = fold_left bump tokens JsMap.empty.
Proof. reflexivity. Qed.

(** The term frequencies are the numbers of occurrences. *)
Lemma termFreq_counts (tokens : list string) :
  let termFreq := calculateTermFrequency tokens in
  JsMap.keys termFreq = uniqueTerms tokens
  /\ NoDup (JsMap.keys termFreq)
  /\ (forall t, In t tokens ->
        JsMap.get termFreq t = Some (count_occ string_dec tokens t))
  /\ (forall t, ~ In t tokens -> JsMap.get termFreq t = None)
  /\ fold_right Nat.add 0%nat (map snd (JsMap.entries termFreq))
     = List.length tokens.
Proof.
  cbv zeta. split; [|split; [|split; [|split]]].
  - unfold calculateTermFrequency, uniqueTerms.
    apply (keys_fold_set_any
             (fun (m : JsMap.t string nat) k =>
                (match JsMap.get m k with Some n => n | None => 0 end + 1)%nat)
             (fun (_ : JsMap.t string unit) _ => tt) tokens).
    reflexivity.
  - unfold calculateTermFrequency.
    apply (keys_fold_set_NoDup
             (fun (m : JsMap.t string nat) k =>
                (match JsMap.get m k with Some n => n | None => 0 end + 1)%nat)
             tokens JsMap.empty).
    constructor.
  - intros t Hin.
    assert (Hk : In t (JsMap.keys (calculateTermFrequency tokens))).
    { unfold calculateTermFrequency.
      apply (keys_fold_set_In
               (fun (m : JsMap.t string nat) k =>
                  (match JsMap.get m k with Some n => n | None => 0 end + 1)%nat)
               tokens JsMap.empty t).
      now right. }
    apply in_keys_get in Hk.
    pose proof (getd_fold_bump tokens JsMap.empty t) as Hc.
    rewrite <- calculateTermFrequency_bump in Hc. unfold getd in Hc.
    destruct (JsMap.get (calculateTermFrequency tokens) t) as [n|];
      [|congruence].
    simpl in Hc. now rewrite Hc.
  - intros t Hnin.
    destruct (JsMap.get (calculateTermFrequency tokens) t) as [n|] eqn:E;
      [|reflexivity].
    exfalso. apply Hnin.
    assert (Hk : In t (JsMap.keys (calculateTermFrequency tokens)))
      by (apply in_keys_get; congruence).
    unfold calculateTermFrequency in Hk.
    apply (keys_fold_set_In
             (fun (m : JsMap.t string nat) k =>
                (match JsMap.get m k with Some n => n | None => 0 end + 1)%nat)
             tokens JsMap.empty t) in Hk.
    destruct Hk as [[] | Hk]. assumption.
  - rewrite calculateTermFrequency_bump.
    apply (total_fold_bump tokens JsMap.empty).
Qed.

(** X9.  [calculateTermFrequency] counts: its keys are the distinct tokens in
    the order of their first occurrence, each mapped to the number of its
    occurrences, and the counts add up to the number of tokens. *)
Theorem calculateTermFrequency_counts (tokens : list string) :
  let termFreq := calculateTermFrequency tokens in
  JsMap.keys termFreq = uniqueTerms tokens
  /\ NoDup (JsMap.keys termFreq)
  /\ (forall t, In t tokens ->
        JsMap.get termFreq t = Some (count_occ string_dec tokens t))
  /\ (forall t, ~ In t tokens -> JsMap.get termFreq t = None)
  /\ fold_right Nat.add 0%nat (map snd (JsMap.entries termFreq))
     = List.length tokens.
Proof. exact (termFreq_counts tokens). Qed.

End TermFrequency.

Section LearnFacts.
Import Js BM25.

Lemma keys_fold_set_add {V} (f : JsMap.t string V -> string -> V) ks :
  forall (m : JsMap.t string V),
    JsMap.keys (fold_left (fun m k => JsMap.set m k (f m k)) ks m)
    = add_keys (JsMap.keys m) ks.
Proof.
  induction ks as [|k ks IH]; intros m; simpl; [reflexivity|].
  rewrite IH, keys_set. unfold add_keys at 2. simpl.
  assert (H : JsMap.has m k = arr_includes (JsMap.keys m) k).
  { destruct (JsMap.has m k) eqn:E1, (arr_includes (JsMap.keys m) k) eqn:E2;
      try reflexivity.
    - apply has_In, arr_includes_In in E1. congruence.
    - apply arr_includes_In, has_In in E2. congruence. }
  rewrite H. reflexivity.
Qed.

Lemma add_keys_app seen a b : add_keys seen (a ++ b) = add_keys (add_keys seen a) b.
Proof. unfold add_keys. apply fold_left_app. Qed.

Lemma add_keys_In ks : forall seen k, In k (add_keys seen ks) <-> In k seen \/ In k ks.
Proof.
  induction ks as [|k0 ks IH]; intros seen k; simpl; [tauto|].
  unfold add_keys. simpl. fold (add_keys (if arr_includes seen k0 then seen else seen ++ [k0]) ks).
  rewrite IH. destruct (arr_includes seen k0) eqn:E.
  - apply arr_includes_In in E. split; [tauto|]. intros [H | [<- | H]]; tauto.
  - rewrite in_app_iff. simpl. tauto.
Qed.

Lemma add_keys_known seen k : In k seen -> add_keys seen [k] = seen.
Proof.
  intros H. unfold add_keys. simpl. apply arr_includes_In in H. now rewrite H.
Qed.

Lemma uniqueTerms_add_keys tokens : uniqueTerms tokens = add_keys [] tokens.
Proof.
  unfold uniqueTerms. apply (keys_fold_set_add (fun _ _ => tt) tokens JsMap.empty).
Qed.

Lemma add_keys_unique tokens : forall seen,
  add_keys seen (add_keys [] tokens) = add_keys seen tokens.
Proof.
  induction tokens as [|k tokens IH] using rev_ind; intros seen; [reflexivity|].
  rewrite (add_keys_app [] tokens [k]), (add_keys_app seen tokens [k]).
  destruct (in_dec string_dec k tokens) as [Hin | Hnin].
  - rewrite (add_keys_known (add_keys [] tokens) k)
      by (apply add_keys_In; now right).
    rewrite (add_keys_known (add_keys seen tokens) k)
      by (apply add_keys_In; now right).
    apply IH.
  - assert (E : add_keys (add_keys [] tokens) [k] = add_keys [] tokens ++ [k]).
    { unfold add_keys at 1. simpl.
      destruct (arr_includes (add_keys [] tokens) k) eqn:E; [|reflexivity].
      apply arr_includes_In, add_keys_In in E. destruct E as [[] | E]. contradiction. }
    rewrite E, add_keys_app, IH. reflexivity.
Qed.

Lemma documentFrequency_bump tokenizedDocs :
  documentFrequency tokenizedDocs
  = fold_left (fun docFreq tokens => fold_left bump (uniqueTerms tokens) docFreq)
      tokenizedDocs JsMap.empty.
Proof. reflexivity. Qed.

Lemma keys_fold_bump ks m : JsMap.keys (fold_left bump ks m) = add_keys (JsMap.keys m) ks.
Proof. apply (keys_fold_set_add (fun m k => (getd m k + 1)%nat)). Qed.

Lemma keys_docFreq tokenizedDocs : forall m,
  JsMap.keys (fold_left (fun docFreq tokens =>
                           fold_left bump (uniqueTerms tokens) docFreq)
                tokenizedDocs m)
  = add_keys (JsMap.keys m) (List.concat tokenizedDocs).
Proof.
  induction tokenizedDocs as [|tokens docs IH]; intros m; simpl; [reflexivity|].
  rewrite IH, keys_fold_bump, add_keys_app, uniqueTerms_add_keys, add_keys_unique.
  reflexivity.
Qed.

Lemma count_occ_unique tokens t :
  count_occ string_dec (uniqueTerms tokens) t
  = if arr_includes tokens t then 1%nat else 0%nat.
Proof.
  destruct (arr_includes tokens t) eqn:E.
  - apply arr_includes_In in E. apply (proj2 (uniqueTerms_In tokens t)) in E.
    apply NoDup_count_occ' with (decA := string_dec) in E;
      [assumption | apply uniqueTerms_NoDup].
  - apply count_occ_not_In. intros H. apply (proj1 (uniqueTerms_In tokens t)) in H.
    apply (proj2 (arr_includes_In tokens t)) in H. congruence.
Qed.

Lemma getd_docFreq tokenizedDocs t : forall m,
  getd (fold_left (fun docFreq tokens =>
                     fold_left bump (uniqueTerms tokens) docFreq)
          tokenizedDocs m) t
  = (getd m t
     + List.length (filter (fun tokens => arr_includes tokens t) tokenizedDocs))%nat.
Proof.
  induction tokenizedDocs as [|tokens docs IH]; intros m; simpl; [lia|].
  rewrite IH, getd_fold_bump, count_occ_unique.
  destruct (arr_includes tokens t); simpl; lia.
Qed.

Lemma documents_with_map m documents t :
  documents_with m documents t
  = List.length (filter (fun tokens => arr_includes tokens t)
                   (map (tokenize m) documents)).
Proof.
  unfold documents_with. induction documents as [|d ds IH]; simpl; [reflexivity|].
  destruct (arr_includes (tokenize m d) t); simpl; now rewrite IH.
Qed.

Lemma documents_with_le m documents t :
  (documents_with m documents t <= List.length documents)%nat.
Proof. apply filter_length_le. Qed.

Lemma documents_with_pos m documents t :
  In t (corpus_terms m documents) -> (1 <= documents_with m documents t)%nat.
Proof.
  unfold corpus_terms. rewrite uniqueTerms_In, in_concat.
  intros [tokens [Htok Hin]]. apply in_map_iff in Htok.
  destruct Htok as [d [<- Hd]].
  unfold documents_with.
  assert (H : In d (filter (fun doc => arr_includes (tokenize m doc) t) documents)).
  { apply filter_In. split; [assumption | now apply arr_includes_In]. }
  destruct (filter _ documents); [contradiction | simpl; lia].
Qed.

Variable ln : Q -> Q.

Lemma build_vocabulary_fold numDocs (es : list (string * nat)) :
  forall (v : JsMap.t string nat) (i : JsMap.t string Q) (n : nat),
    NoDup (map fst es) ->
    (forall e, In e es -> ~ In (fst e) (JsMap.keys v)) ->
    (forall e, In e es -> ~ In (fst e) (JsMap.keys i)) ->
    fold_left
      (fun (acc : JsMap.t string nat * JsMap.t string Q * nat) (e : string * nat) =>
         let '(vocabulary, idf, vocabIndex) := acc in
         let (term, df) := e in
         (JsMap.set vocabulary term vocabIndex,
          JsMap.set idf term (idf_of ln numDocs df),
          S vocabIndex))
      es (v, i, n)
    = (v ++ combine (map fst es) (seq n (List.length es)),
       i ++ map (fun e => (fst e, idf_of ln numDocs (snd e))) es,
       (n + List.length es)%nat).
Proof.
  induction es as [|[term df] es IH]; intros v i n Hnd Hv Hi.
  - simpl. now rewrite !app_nil_r, Nat.add_0_r.
  - inversion Hnd as [|? ? Hterm Hnd']; subst.
    cbn [fold_left]. rewrite IH.
    + rewrite (set_fresh v term n) by (apply (Hv (term, df)); now left).
      rewrite (set_fresh i term (idf_of ln numDocs df))
        by (apply (Hi (term, df)); now left).
      simpl. rewrite <- !app_assoc. simpl.
      f_equal. lia.
    + assumption.
    + intros e He. rewrite keys_set.
      assert (Hne : fst e <> term).
      { intros <-. apply Hterm. now apply in_map. }
      destruct (JsMap.has v term).
      * apply Hv. now right.
      * rewrite in_app_iff. simpl. intros [H | [H | []]]; [|congruence].
        revert H. apply Hv. now right.
    + intros e He. rewrite keys_set.
      assert (Hne : fst e <> term).
      { intros <-. apply Hterm. now apply in_map. }
      destruct (JsMap.has i term).
      * apply Hi. now right.
      * rewrite in_app_iff. simpl. intros [H | [H | []]]; [|congruence].
        revert H. apply Hi. now right.
Qed.

Lemma build_vocabulary_spec numDocs (docFreq : JsMap.t string nat) :
  NoDup (JsMap.keys docFreq) ->
  build_vocabulary ln numDocs docFreq
  = (combine (JsMap.keys docFreq) (seq 0 (List.length docFreq)),
     map (fun e => (fst e, idf_of ln numDocs (snd e))) docFreq,
     List.length docFreq).
Proof.
  intros Hnd. unfold build_vocabulary, JsMap.entries.
  rewrite build_vocabulary_fold; [reflexivity | exact Hnd | |]; intros e _ [].
Qed.

Lemma total_length_concat (tokenizedDocs : list (list string)) : forall n,
  fold_left (fun sum tokens => (sum + List.length tokens)%nat) tokenizedDocs n
  = (n + List.length (List.concat tokenizedDocs))%nat.
Proof.
  induction tokenizedDocs as [|t ts IH]; intros n; simpl; [lia|].
  rewrite IH, length_app. lia.
Qed.

Lemma docFreq_entries m documents :
  let docFreq := documentFrequency (map (tokenize m) documents) in
  JsMap.keys docFreq = corpus_terms m documents
  /\ map snd docFreq = map (documents_with m documents) (corpus_terms m documents).
Proof.
  cbv zeta. rewrite documentFrequency_bump.
  assert (Hk : JsMap.keys
                 (fold_left (fun docFreq tokens =>
                               fold_left bump (uniqueTerms tokens) docFreq)
                    (map (tokenize m) documents) JsMap.empty)
               = corpus_terms m documents).
  { rewrite keys_docFreq. unfold corpus_terms. now rewrite uniqueTerms_add_keys. }
  split; [exact Hk|].
  assert (Hnd : NoDup (corpus_terms m documents)) by apply uniqueTerms_NoDup.
  rewrite <- Hk in Hnd |- *.
  set (df := fold_left _ _ _) in *.
  assert (Hg : forall t, getd df t = documents_with m documents t).
  { intros t. unfold df. rewrite getd_docFreq, documents_with_map. reflexivity. }
  clearbody df. unfold JsMap.keys in *. rewrite map_map.
  apply map_ext_in. intros [t n] Hin. simpl. rewrite <- Hg. unfold getd.
  assert (Hget : JsMap.get df t = Some n).
  { clear Hg Hk. induction df as [|[k0 v0] df IH]; [contradiction|].
    simpl in Hnd. inversion Hnd as [|? ? Hk0 Hnd']; subst. simpl.
    destruct Hin as [Heq | Hin].
    - injection Heq as -> ->. now rewrite String.eqb_refl.
    - destruct (String.eqb k0 t) eqn:E.
      + apply String.eqb_eq in E. subst k0. exfalso. apply Hk0.
        apply in_map_iff. now exists (t, n).
      + now apply IH. }
  now rewrite Hget.
Qed.

End LearnFacts.

Section LearnProperties.
Import Js BM25.

Lemma map_snd_combine_seq {A} (l : list A) s :
  map snd (combine l (seq s (List.length l))) = seq s (List.length l).
Proof.
  revert s. induction l as [|a l IH]; intros s; simpl; [reflexivity|].
  now rewrite IH.
Qed.

Lemma documentFrequency_spec m documents :
  documentFrequency (map (tokenize m) documents)
  = map (fun t => (t, documents_with m documents t)) (corpus_terms m documents).
Proof.
  destruct (docFreq_entries m documents) as [Hk Hv].
  rewrite <- (combine_fst_snd (documentFrequency (map (tokenize m) documents))).
  unfold JsMap.keys in Hk. rewrite Hk, Hv.
  generalize (corpus_terms m documents). intros l.
  induction l as [|t l IH]; simpl; congruence.
Qed.

Lemma learn_spec (ln : Q -> Q) (m : Model) (doc : string) (docs : list string) :
  let documents := doc :: docs in
  let terms := corpus_terms m documents in
  learn ln m documents
  = Ok {| k1 := k1 m; b := b m; minTermLength := minTermLength m;
          stopWords := stopWords m;
          vocabulary := combine terms (seq 0 (List.length terms));
          idf := map (fun t => (t, idf_of ln (List.length documents)
                                     (documents_with m documents t))) terms;
          avgDocLength :=
            inject_Z (Z.of_nat (List.length
                                  (List.concat (map (tokenize m) documents))))
            / inject_Z (Z.of_nat (List.length documents));
          trained := true |}.
Proof.
  cbv zeta. unfold learn.
  rewrite documentFrequency_spec.
  rewrite build_vocabulary_spec
    by (unfold JsMap.keys; rewrite map_map; simpl; rewrite map_id;
        apply uniqueTerms_NoDup).
  rewrite total_length_concat, !length_map, Nat.add_0_l.
  unfold JsMap.keys. rewrite !map_map. simpl. rewrite map_id. reflexivity.
Qed.

(** X10.  [learn] throws on the empty corpus.  On any other corpus it
    returns a trained model with the parameters unchanged, whose vocabulary
    lists the distinct tokens of the corpus in the order of their first
    occurrence, numbered 0, 1, 2, ... without gaps. *)
Theorem learn_numbers_vocabulary (ln : Q -> Q) (m : Model) (doc : string)
        (docs : list string) :
  learn ln m [] = Throw "Cannot learn from empty corpus"
  /\ exists m',
       learn ln m (doc :: docs) = Ok m'
       /\ trained m' = true
       /\ (k1 m', b m', minTermLength m', stopWords m')
          = (k1 m, b m, minTermLength m, stopWords m)
       /\ JsMap.keys (vocabulary m')
          = uniqueTerms (List.concat (map (tokenize m) (doc :: docs)))
       /\ map snd (JsMap.entries (vocabulary m')) = seq 0 (getVocabularySize m')
       /\ (forall t, In t (JsMap.keys (vocabulary m')) <->
             exists d, In d (doc :: docs) /\ In t (tokenize m d)).
Proof.
  split; [reflexivity|].
  eexists. split; [apply learn_spec|]. cbn [trained k1 b minTermLength stopWords vocabulary].
  set (terms := corpus_terms m (doc :: docs)).
  assert (Hlen : List.length (combine terms (seq 0 (List.length terms)))
                 = List.length terms)
    by (rewrite length_combine, length_seq; lia).
  assert (Hkeys : JsMap.keys (combine terms (seq 0 (List.length terms))) = terms)
    by apply map_fst_combine_seq.
  repeat split.
  - exact Hkeys.
  - unfold getVocabularySize, JsMap.entries. cbn [vocabulary]. rewrite Hlen.
    apply map_snd_combine_seq.
  - rewrite Hkeys. unfold terms, corpus_terms. rewrite uniqueTerms_In, in_concat.
    intros [tokens [Htok Hin]]. apply in_map_iff in Htok.
    destruct Htok as [d [<- Hd]]. eauto.
  - rewrite Hkeys. unfold terms, corpus_terms. rewrite uniqueTerms_In, in_concat.
    intros [d [Hd Hin]]. exists (tokenize m d). split; [now apply in_map | assumption].
Qed.

(** X11.  After [learn], the IDF map has the keys of the vocabulary, in the
    same order; the weight of a term is [log ((N - df + 0.5) / (df + 0.5))]
    for [N] the number of documents and [df] the number of documents in which
    the term occurs, with [1 <= df <= N], so the logarithm is taken of a
    positive number; the average document length is the number of tokens of
    the corpus over [N]. *)
Theorem learn_computes_idf (ln : Q -> Q) (m : Model) (doc : string)
        (docs : list string) :
  let documents := doc :: docs in
  let N := List.length documents in
  exists m',
    learn ln m documents = Ok m'
    /\ JsMap.keys (idf m') = JsMap.keys (vocabulary m')
    /\ (forall t, In t (JsMap.keys (vocabulary m')) ->
          let df := documents_with m documents t in
          JsMap.get (idf m') t = Some (idf_of ln N df)
          /\ (1 <= df <= N)%nat
          /\ 0 < (inject_Z (Z.of_nat N) - inject_Z (Z.of_nat df) + (1 # 2))
                 / (inject_Z (Z.of_nat df) + (1 # 2)))
    /\ avgDocLength m'
       = inject_Z (Z.of_nat (List.length
                               (List.concat (map (tokenize m) documents))))
         / inject_Z (Z.of_nat N).
Proof.
  cbv zeta. eexists. split; [apply learn_spec|]. cbn [idf vocabulary avgDocLength].
  set (documents := doc :: docs). set (terms := corpus_terms m documents).
  assert (Hkeys : JsMap.keys (combine terms (seq 0 (List.length terms))) = terms)
    by apply map_fst_combine_seq.
  rewrite Hkeys. split; [|split; [|reflexivity]].
  - unfold JsMap.keys. rewrite map_map. simpl. apply map_id.
  - intros t Hin.
    assert (Hdf : (1 <= documents_with m documents t <= List.length documents)%nat).
    { split; [now apply documents_with_pos | apply documents_with_le]. }
    split; [|split; [exact Hdf|]].
    + apply (get_map_pairs (fun t => t)
               (fun t => idf_of ln (List.length documents)
                           (documents_with m documents t)) terms t);
        [rewrite map_id; apply uniqueTerms_NoDup | assumption].
    + apply Qlt_shift_div_l.
      * assert (0 <= inject_Z (Z.of_nat (documents_with m documents t))).
        { change 0 with (inject_Z 0). rewrite <- Zle_Qle. lia. }
        lra.
      * assert (inject_Z (Z.of_nat (documents_with m documents t))
                <= inject_Z (Z.of_nat (List.length documents))).
        { rewrite <- Zle_Qle. lia. }
        lra.
Qed.

End LearnProperties.

Section LearnedModels.
Import Js BM25.

(** X12.  A model learned from a non-empty corpus with [0 <= k1] and
    [0 <= b <= 1] (the constructor's defaults 1.2 and 0.75 among them) is
    trained and sane: its average document length is positive unless no
    document of the corpus has a token, and then the vocabulary is empty. *)
Theorem learn_gives_sane_model (ln : Q -> Q) (m : Model) (doc : string)
        (docs : list string) :
  0 <= k1 m -> 0 <= b m -> b m <= 1 ->
  exists m',
    learn ln m (doc :: docs) = Ok m'
    /\ trained m' = true
    /\ sane m'
    /\ (0 < avgDocLength m' <-> vocabulary m' <> []).
Proof.
  intros Hk Hb0 Hb1. eexists. split; [apply learn_spec|].
  split; [reflexivity|].
  set (documents := doc :: docs).
  set (tokens := List.concat (map (tokenize m) documents)).
  unfold sane. cbn [k1 b avgDocLength vocabulary].
  fold documents. unfold corpus_terms. fold tokens.
  assert (HN : 0 < inject_Z (Z.of_nat (List.length documents))).
  { change 0 with (inject_Z 0). rewrite <- Zlt_Qlt. simpl. lia. }
  destruct tokens as [|t tokens'] eqn:E.
  - split; [repeat split; try assumption; now right|].
    simpl. split; [|congruence].
    unfold Qdiv. rewrite Qmult_0_l. intros H. exfalso. revert H. apply Qlt_irrefl.
  - assert (Hpos : 0 < inject_Z (Z.of_nat (List.length (t :: tokens')))
                       / inject_Z (Z.of_nat (List.length documents))).
    { apply Qlt_shift_div_l; [assumption|]. rewrite Qmult_0_l.
      change 0 with (inject_Z 0). rewrite <- Zlt_Qlt. simpl. lia. }
    split; [repeat split; try assumption; now left|].
    split; [|intros _; exact Hpos].
    intros _ Hnil.
    assert (Hin : In t (uniqueTerms (t :: tokens')))
      by (apply uniqueTerms_In; now left).
    destruct (uniqueTerms (t :: tokens')) as [|u us]; [contradiction|].
    discriminate Hnil.
Qed.

Lemma learn_gives_sane_model_witness :
  exists m',
    learn (fun x => x - 1)
      (new {| cfg_k1 := None; cfg_b := None; cfg_minTermLength := None;
              cfg_stopWords := None |})
      ["the fox"; "the dog"]%string = Ok m'
    /\ trained m' = true
    /\ sane m'
    /\ (0 < avgDocLength m' <-> vocabulary m' <> []).
Proof.
  apply (learn_gives_sane_model (fun x => x - 1)
           (new {| cfg_k1 := None; cfg_b := None; cfg_minTermLength := None;
                   cfg_stopWords := None |})
           "the fox"%string ["the dog"%string]); simpl; lra.
Defined.

Lemma add_keys_extends ks : forall seen, exists more, add_keys seen ks = seen ++ more.
Proof.
  induction ks as [|k ks IH]; intros seen.
  - exists []. now rewrite app_nil_r.
  - unfold add_keys. simpl.
    fold (add_keys (if arr_includes seen k then seen else seen ++ [k]) ks).
    destruct (arr_includes seen k).
    + apply IH.
    + destruct (IH (seen ++ [k])) as [more ->]. exists (k :: more).
      now rewrite <- app_assoc.
Qed.

Lemma get_app_Some {V} (m1 m2 : JsMap.t string V) k v :
  JsMap.get m1 k = Some v -> JsMap.get (m1 ++ m2) k = Some v.
Proof.
  induction m1 as [|[k0 v0] m1 IH]; simpl; [discriminate|].
  destruct (String.eqb k0 k); auto.
Qed.

Lemma combine_app_same {A B} (l1 l2 : list A) (r1 r2 : list B) :
  List.length l1 = List.length r1 ->
  combine (l1 ++ l2) (r1 ++ r2) = combine l1 r1 ++ combine l2 r2.
Proof.
  revert r1. induction l1 as [|a l1 IH]; intros [|c r1] H; simpl in *;
    try discriminate; [reflexivity|].
  rewrite IH by lia. reflexivity.
Qed.

(** X13.  Learning from a corpus extended at its end never renumbers a
    term: every term of the shorter corpus keeps its vocabulary index. *)
Theorem learn_extension_keeps_indices (ln : Q -> Q) (m : Model) (doc : string)
        (docs more : list string) (m1 m2 : Model) (t : string) (i : nat) :
  learn ln m (doc :: docs) = Ok m1 ->
  learn ln m ((doc :: docs) ++ more) = Ok m2 ->
  JsMap.get (vocabulary m1) t = Some i ->
  JsMap.get (vocabulary m2) t = Some i.
Proof.
  rewrite <- app_comm_cons, !learn_spec. intros H1 H2.
  injection H1 as <-. injection H2 as <-. cbn [vocabulary].
  rewrite app_comm_cons. unfold corpus_terms.
  rewrite map_app, concat_app, !uniqueTerms_add_keys, add_keys_app.
  set (terms := add_keys [] (List.concat (map (tokenize m) (doc :: docs)))).
  destruct (add_keys_extends (List.concat (map (tokenize m) more)) terms)
    as [extra ->].
  rewrite length_app, seq_app, combine_app_same by (now rewrite length_seq).
  apply get_app_Some.
Qed.

Lemma learn_extension_keeps_indices_witness :
  exists m1 m2,
    learn (fun x => x) demo_model ["the fox"; "dog"]%string = Ok m1
    /\ learn (fun x => x) demo_model (["the fox"%string; "dog"%string] ++ ["cat the"%string])%list = Ok m2
    /\ JsMap.get (vocabulary m1) "dog"%string = Some 2%nat
    /\ JsMap.get (vocabulary m2) "dog"%string = Some 2%nat.
Proof.
  eexists. eexists. split; [reflexivity|]. split; [reflexivity|].
  split; [reflexivity|].
  apply (learn_extension_keeps_indices (fun x => x) demo_model "the fox"%string
           ["dog"%string] ["cat the"%string] _ _ "dog"%string 2%nat eq_refl eq_refl).
  reflexivity.
Defined.

End LearnedModels.

Section GenerateShape.
Import Js BM25.
Variable sqrt : Q -> Q.

Lemma distinct_keys_filter {X Y} (key : X -> Y) (keep : X -> bool) (xs : list X)
      (Hnd : NoDup (map key xs)) :
  NoDup (map key (filter keep xs)).
Proof.
  induction xs as [|x xs IH]; simpl in *; [constructor|].
  inversion Hnd as [|? ? Hx Hxs]; subst.
  destruct (keep x); simpl; [|auto].
  constructor; [|auto].
  intros Hin. apply Hx. apply in_map_iff in Hin. destruct Hin as [y [Hy Hin]].
  apply filter_In in Hin. apply in_map_iff. exists y. tauto.
Qed.

Lemma NoDup_firstn {A} (n : nat) (l : list A) : NoDup l -> NoDup (firstn n l).
Proof.
  intros H. rewrite <- (firstn_skipn n l) in H. now apply NoDup_app_remove_r in H.
Qed.

(** The indices [generate] returns are among those of the raw weights, and
    are as distinct as they are. *)
Lemma filters_first_indices m text config :
  (NoDup (map fst (raw_weights m text)) ->
   NoDup (indices (generate_filters_first sqrt m text config)))
  /\ (forall i, In i (indices (generate_filters_first sqrt m text config)) ->
        In i (map fst (raw_weights m text)))
  /\ (List.length (indices (generate_filters_first sqrt m text config))
      <= List.length (raw_weights m text))%nat.
Proof.
  unfold generate_filters_first, to_vector. cbn [indices].
  rewrite apply_normalize_fst, shift_positive_fst.
  set (ws := raw_weights m text).
  assert (Hmin : (NoDup (map fst ws) -> NoDup (map fst (apply_minScore config ws)))
                 /\ (forall i, In i (map fst (apply_minScore config ws)) ->
                       In i (map fst ws))
                 /\ (List.length (apply_minScore config ws) <= List.length ws)%nat).
  { unfold apply_minScore. destruct (minScore config) as [ms|]; [|auto].
    split; [apply distinct_keys_filter|]. split; [|apply filter_length_le].
    intros i Hi. apply in_map_iff in Hi. destruct Hi as [x [<- Hx]].
    apply filter_In in Hx. apply in_map. tauto. }
  destruct Hmin as (Hnd & Hin & Hlen).
  set (ws1 := apply_minScore config ws) in *.
  assert (Hmax : (NoDup (map fst ws1) -> NoDup (map fst (apply_maxTerms config ws1)))
                 /\ (forall i, In i (map fst (apply_maxTerms config ws1)) ->
                       In i (map fst ws1))
                 /\ (List.length (apply_maxTerms config ws1) <= List.length ws1)%nat).
  { unfold apply_maxTerms. destruct (maxTerms config) as [mt|]; [|auto].
    destruct (mt <? List.length ws1)%nat; [|auto].
    split; [|split].
    - intros H. rewrite <- firstn_map. apply NoDup_firstn.
      apply (Permutation_NoDup (l := map fst ws1)); [|assumption].
      apply Permutation_map, Permutation_sym, stable_sort_perm.
    - intros i Hi. rewrite <- firstn_map in Hi. apply In_firstn in Hi.
      apply in_map_iff in Hi. destruct Hi as [x [<- Hx]].
      apply stable_sort_In in Hx. now apply in_map.
    - rewrite length_firstn, stable_sort_length. lia. }
  destruct Hmax as (Hnd' & Hin' & Hlen').
  rewrite !length_map. split; [auto|]. split; [auto | lia].
Qed.

Lemma flat_indices m (n : nat) (es : list (string * nat)) :
  let ws := flat_map (fun entry : string * nat =>
                        match JsMap.get (vocabulary m) (fst entry),
                              JsMap.get (idf m) (fst entry) with
                        | Some vocabIndex, Some idfScore =>
                            [(vocabIndex, bm25_score m n (snd entry) idfScore)]
                        | _, _ => []
                        end) es in
  (forall i, In i (map fst ws) ->
     exists t, In t (map fst es) /\ JsMap.get (vocabulary m) t = Some i)
  /\ (NoDup (map fst es) ->
      (forall t1 t2 i, JsMap.get (vocabulary m) t1 = Some i ->
         JsMap.get (vocabulary m) t2 = Some i -> t1 = t2) ->
      NoDup (map fst ws))
  /\ (List.length ws <= List.length es)%nat.
Proof.
  cbv zeta. induction es as [|[t tf] es (IH1 & IH2 & IH3)].
  - split; [intros i [] | split; [intros _ _; constructor | simpl; lia]].
  - cbn [flat_map fst snd].
    destruct (JsMap.get (vocabulary m) t) as [vi|] eqn:Ev;
      [destruct (JsMap.get (idf m) t) as [w|] eqn:Ew|]; simpl.
    + split; [|split; [|lia]].
      * intros i [<- | Hi]; [exists t; split; [now left | assumption]|].
        destruct (IH1 i Hi) as [t' [Ht' Hg]]. exists t'. split; [now right | assumption].
      * intros Hnd Hinj. inversion Hnd as [|? ? Ht Hnd']; subst.
        constructor; [|now apply IH2].
        intros Hi. destruct (IH1 vi Hi) as [t' [Ht' Hg]].
        assert (t' = t) by (apply (Hinj t' t vi); assumption).
        subst t'. contradiction.
    + split; [|split; [|lia]].
      * intros i Hi. destruct (IH1 i Hi) as [t' [Ht' Hg]].
        exists t'. split; [now right | assumption].
      * intros Hnd Hinj. inversion Hnd; subst. now apply IH2.
    + split; [|split; [|lia]].
      * intros i Hi. destruct (IH1 i Hi) as [t' [Ht' Hg]].
        exists t'. split; [now right | assumption].
      * intros Hnd Hinj. inversion Hnd; subst. now apply IH2.
Qed.

Lemma raw_weights_indices m text :
  (forall i, In i (map fst (raw_weights m text)) ->
     exists t, In t (tokenize m text) /\ JsMap.get (vocabulary m) t = Some i)
  /\ ((forall t1 t2 i, JsMap.get (vocabulary m) t1 = Some i ->
         JsMap.get (vocabulary m) t2 = Some i -> t1 = t2) ->
      NoDup (map fst (raw_weights m text)))
  /\ (List.length (raw_weights m text)
      <= List.length (uniqueTerms (tokenize m text)))%nat.
Proof.
  unfold raw_weights.
  destruct (termFreq_counts (tokenize m text))
    as (Hkeys & Hnd & _).
  destruct (flat_indices m (List.length (tokenize m text))
              (JsMap.entries (calculateTermFrequency (tokenize m text))))
    as (H1 & H2 & H3).
  unfold JsMap.keys, JsMap.entries in *.
  split; [|split].
  - intros i Hi. destruct (H1 i Hi) as [t [Ht Hg]]. exists t.
    split; [|assumption]. rewrite Hkeys in Ht. now apply uniqueTerms_In.
  - intros Hinj. now apply H2.
  - rewrite <- Hkeys, length_map. exact H3.
Qed.

Lemma get_In {V} (m : JsMap.t string V) k v : JsMap.get m k = Some v -> In (k, v) m.
Proof.
  induction m as [|[k0 v0] m IH]; simpl; [discriminate|].
  destruct (String.eqb k0 k) eqn:E.
  - apply String.eqb_eq in E. intros H. left. congruence.
  - auto.
Qed.

Lemma NoDup_snd_inj {A B} (l : list (A * B)) a1 a2 v :
  NoDup (map snd l) -> In (a1, v) l -> In (a2, v) l -> a1 = a2.
Proof.
  induction l as [|[a0 v0] l IH]; simpl; intros Hnd H1 H2; [contradiction|].
  inversion Hnd as [|? ? Hv Hnd']; subst.
  destruct H1 as [H1 | H1], H2 as [H2 | H2].
  - congruence.
  - injection H1 as -> ->. exfalso. apply Hv. apply in_map_iff. now exists (a2, v).
  - injection H2 as -> ->. exfalso. apply Hv. apply in_map_iff. now exists (a1, v).
  - now apply IH.
Qed.

End GenerateShape.

Section GenerateProperties.
Import Js BM25.

(** X14.  On a model built by [learn], [generate] returns a sparse vector
    whose indices are pairwise distinct, each the vocabulary index of a token
    of the text and so below the vocabulary size; there are as many values as
    indices, and no more than the text has distinct tokens. *)
Theorem generate_indices_distinct (sqrt ln : Q -> Q) (m0 m : Model)
        (doc : string) (docs : list string) (text : string)
        (config : SparseVectorConfig) :
  learn ln m0 (doc :: docs) = Ok m ->
  exists sv,
    generate sqrt m text config = Ok sv
    /\ NoDup (indices sv)
    /\ (forall i, In i (indices sv) ->
          (i < getVocabularySize m)%nat
          /\ exists t, In t (tokenize m text)
                       /\ JsMap.get (vocabulary m) t = Some i)
    /\ List.length (indices sv) = List.length (values sv)
    /\ (List.length (indices sv)
        <= List.length (uniqueTerms (tokenize m text)))%nat.
Proof.
  rewrite learn_spec. intros H. injection H as <-.
  set (terms := corpus_terms m0 (doc :: docs)).
  set (m := {| k1 := k1 m0; vocabulary := combine terms (seq 0 (List.length terms)) |}).
  eexists. split; [apply generate_pipeline; reflexivity|].
  destruct (filters_first_indices sqrt m text config) as (Hnd & Hin & Hlen).
  destruct (raw_weights_indices m text) as (Hraw & Hinj & Hrawlen).
  assert (Hvals : NoDup (map snd (vocabulary m))).
  { cbn [m vocabulary]. rewrite map_snd_combine_seq. apply seq_NoDup. }
  split; [|split; [|split; [|lia]]].
  - apply Hnd, Hinj. intros t1 t2 i H1 H2.
    apply get_In in H1, H2. exact (NoDup_snd_inj _ _ _ _ Hvals H1 H2).
  - intros i Hi. destruct (Hraw i (Hin i Hi)) as [t [Ht Hg]].
    split; [|eauto].
    apply get_In in Hg. cbn [m vocabulary] in Hg. apply in_combine_r in Hg.
    apply in_seq in Hg. unfold getVocabularySize. cbn [m vocabulary].
    rewrite length_combine, length_seq. lia.
  - unfold generate_filters_first, to_vector. cbn [indices values].
    now rewrite !length_map.
Qed.

Lemma generate_indices_distinct_witness :
  exists m sv,
    learn (fun x => x) demo_model ["the fox"; "the dog"]%string = Ok m
    /\ generate approx_sqrt m "dog bites fox" noConfig = Ok sv
    /\ NoDup (indices sv)
    /\ indices sv = [2; 1]%nat.
Proof.
  eexists.
  destruct (generate_indices_distinct approx_sqrt (fun x => x) demo_model _
              "the fox"%string ["the dog"%string] "dog bites fox"%string noConfig
              eq_refl) as (sv & Hg & Hnd & _).
  exists sv. split; [reflexivity|]. split; [exact Hg|]. split; [exact Hnd|].
  vm_compute in Hg. injection Hg as <-. reflexivity.
Defined.




(** X16.  A text none of whose tokens is in the vocabulary (the empty text
    among them) gives the empty sparse vector, whatever the configuration;
    an untrained model throws instead. *)
Theorem generate_unknown_terms_empty (sqrt : Q -> Q) (m : Model) (text : string)
        (config : SparseVectorConfig) :
  (forall t, In t (tokenize m text) -> JsMap.get (vocabulary m) t = None) ->
  generate sqrt m text config
  = if trained m then Ok {| indices := []; values := [] |}
    else Throw "BM25 generator must be trained before generating vectors. Call learn() first.".
Proof.
  intros Hunknown. destruct (trained m) eqn:Ht.
  - rewrite generate_pipeline by assumption. f_equal.
    unfold generate_filters_first.
    assert (Hraw : raw_weights m text = []).
    { destruct (raw_weights m text) as [|[i w] ws] eqn:E; [reflexivity|].
      destruct (raw_weights_indices m text) as (Hraw & _).
      destruct (Hraw i) as [t [Hin Hg]]; [rewrite E; now left|].
      rewrite Hunknown in Hg by assumption. discriminate. }
    rewrite Hraw. unfold apply_minScore, apply_maxTerms, apply_normalize.
    destruct (minScore config), (maxTerms config) as [[|mt]|], (normalize config);
      reflexivity.
  - unfold generate. now rewrite Ht.
Qed.

Lemma generate_unknown_terms_empty_witness :
  generate approx_sqrt demo_model "a cat" noConfig
  = Ok {| indices := []; values := [] |}.
Proof.
  apply (generate_unknown_terms_empty approx_sqrt demo_model "a cat" noConfig).
  intros t [<- | []]. reflexivity.
Defined.

End GenerateProperties.

Section TokenizerProperties.
Import Js BM25.

Lemma chars_app (s1 s2 : string) :
  list_ascii_of_string (s1 ++ s2) = list_ascii_of_string s1 ++ list_ascii_of_string s2.
Proof. induction s1 as [|c s1 IH]; simpl; congruence. Qed.

Lemma split_ws_from_chars (P : ascii -> bool) (s : string) : forall cur in_sep t,
  forallb P (list_ascii_of_string cur) = true ->
  forallb (fun c => is_space c || P c) (list_ascii_of_string s) = true ->
  In t (split_ws_from s cur in_sep) ->
  forallb P (list_ascii_of_string t) = true.
Proof.
  induction s as [|c s IH]; intros cur in_sep t Hcur Hs Hin; simpl in *.
  - destruct Hin as [<- | []]. assumption.
  - apply andb_prop in Hs. destruct Hs as [Hc Hs].
    destruct (is_space c) eqn:Esp.
    + destruct in_sep.
      * now apply (IH cur true).
      * destruct Hin as [<- | Hin]; [assumption|].
        now apply (IH EmptyString true).
    + apply (IH (cur ++ String c EmptyString)%string false); try assumption.
      rewrite chars_app, forallb_app, Hcur. simpl in *. now rewrite Hc.
Qed.

Lemma cleaned_char (c : ascii) :
  let c' := lower_ascii c in
  let c'' := if is_word c' || is_space c' then c' else " "%char in
  is_space c'' || is_token_char c'' = true.
Proof.
  destruct c as [b0 b1 b2 b3 b4 b5 b6 b7].
  destruct b0, b1, b2, b3, b4, b5, b6, b7; reflexivity.
Qed.

Lemma cleaned_chars (text : string) :
  forallb (fun c => is_space c || is_token_char c)
    (list_ascii_of_string
       (map_chars (fun c => if is_word c || is_space c then c else " "%char)
          (toLowerCase text))) = true.
Proof.
  induction text as [|c text IH]; simpl; [reflexivity|].
  rewrite IH, andb_true_r. apply cleaned_char.
Qed.

Lemma lower_ascii_idem (c : ascii) : lower_ascii (lower_ascii c) = lower_ascii c.
Proof.
  destruct c as [b0 b1 b2 b3 b4 b5 b6 b7].
  destruct b0, b1, b2, b3, b4, b5, b6, b7; reflexivity.
Qed.

Lemma toLowerCase_idem (s : string) : toLowerCase (toLowerCase s) = toLowerCase s.
Proof. induction s as [|c s IH]; simpl; [reflexivity|]. now rewrite lower_ascii_idem, IH. Qed.

(** X17.  Every token [tokenize] returns is made of the characters [a-z],
    [0-9] and [_] only, has at least [minTermLength] characters and is not a
    stop word; and the tokens of a text are those of its lower-case form. *)
Theorem tokenize_tokens (m : Model) (text : string) :
  (forall t, In t (tokenize m text) ->
     forallb is_token_char (list_ascii_of_string t) = true
     /\ (minTermLength m <= String.length t)%nat
     /\ ~ In t (stopWords m))
  /\ tokenize m (toLowerCase text) = tokenize m text.
Proof.
  split.
  - intros t Hin. unfold tokenize in Hin. apply filter_In in Hin.
    destruct Hin as [Hin Hkeep]. apply andb_prop in Hkeep.
    destruct Hkeep as [Hlen Hstop]. split; [|split].
    + apply (split_ws_from_chars is_token_char _ EmptyString false t eq_refl
               (cleaned_chars text) Hin).
    + now apply Nat.leb_le.
    + intros Hs. apply arr_includes_In in Hs. rewrite Hs in Hstop. discriminate.
  - unfold tokenize. now rewrite toLowerCase_idem.
Qed.

End TokenizerProperties.

(** ** The local store over its whole history *)

Section StoreHistory.
Import Js LibSQL.

Lemma ids_insert_or_replace t r :
  NoDup (map id t) -> NoDup (map id (insert_or_replace t r)).
Proof.
  intros H. unfold insert_or_replace. rewrite map_app. simpl.
  apply NoDup_app.
  - now apply distinct_keys_filter.
  - constructor; [intros [] | constructor].
  - intros x Hx [<- | []]. apply in_map_iff in Hx. destruct Hx as [r' [Hid Hr']].
    apply filter_In in Hr'. destruct Hr' as [_ Hne].
    rewrite Hid, String.eqb_refl in Hne. discriminate.
Qed.

Lemma ids_fold_insert rows : forall t,
  NoDup (map id t) -> NoDup (map id (fold_left insert_or_replace rows t)).
Proof.
  induction rows as [|r rows IH]; intros t H; simpl; [assumption|].
  apply IH. now apply ids_insert_or_replace.
Qed.

Lemma Forall_fold_insert (P : Row -> Prop) rows : forall t,
  Forall P t -> Forall P rows -> Forall P (fold_left insert_or_replace rows t).
Proof.
  induction rows as [|r rows IH]; intros t Ht Hrows; simpl; [assumption|].
  inversion Hrows; subst. apply IH; [|assumption].
  unfold insert_or_replace. apply Forall_app. split.
  - apply Forall_forall. intros x Hx. apply filter_In in Hx.
    rewrite Forall_forall in Ht. now apply Ht.
  - now constructor.
Qed.

Lemma Forall_filter {A} (P : A -> Prop) (p : A -> bool) (l : list A) :
  Forall P l -> Forall P (filter p l).
Proof.
  intros H. apply Forall_forall. intros x Hx. apply filter_In in Hx.
  rewrite Forall_forall in H. now apply H.
Qed.

Lemma find_dimension_None (dim : nat) (docs : list VectorDocument) :
  find (fun doc => negb (List.length (doc_vector doc) =? dim)%nat) docs = None ->
  Forall (fun d => List.length (doc_vector d) = dim) docs.
Proof.
  intros H. apply Forall_forall. intros d Hd.
  apply (find_none _ _ H) in Hd. apply negb_false_iff in Hd. now apply Nat.eqb_eq.
Qed.

Lemma find_dimension_all (dim : nat) (docs : list VectorDocument) :
  Forall (fun d => List.length (doc_vector d) = dim) docs ->
  find (fun doc => negb (List.length (doc_vector doc) =? dim)%nat) docs = None.
Proof.
  intros H. destruct (find _ docs) as [d|] eqn:E; [|reflexivity].
  apply find_some in E. destruct E as [Hin Hd].
  rewrite Forall_forall in H. rewrite (H d Hin), Nat.eqb_refl in Hd. discriminate.
Qed.

Variables ln sqrt : Q -> Q.
Variable bm25Config : BM25.BM25Config.

Lemma well_formed_generator dim hybrid c g :
  well_formed dim hybrid c ->
  well_formed dim hybrid
    {| documents := documents c; metadataCache := metadataCache c;
       bm25Generator := g |}.
Proof. intros H. exact H. Qed.

Lemma well_formed_table dim hybrid n t g :
  NoDup (map id t) ->
  Forall (fun r => List.length (dense_vector r) = dim) t ->
  well_formed dim hybrid
    (updateDocumentCount
       {| documents := t;
          metadataCache := Some {| dimension := dim; isHybrid := hybrid;
                                   documentCount := n |};
          bm25Generator := g |}).
Proof.
  intros Hnd Hdim. unfold well_formed, updateDocumentCount. simpl.
  repeat split; assumption.
Qed.

Lemma well_formed_step dim hybrid c op :
  well_formed dim hybrid c -> well_formed dim hybrid (step ln sqrt bm25Config c op).
Proof.
  intros H. pose proof H as (Hnd & Hmd & Hdim).
  destruct op as [docs | docs | ids]; simpl.
  - unfold insert. rewrite Hmd. cbn [dimension].
    destruct (find _ docs) as [d|] eqn:E; [assumption|].
    apply well_formed_table; [now apply ids_fold_insert|].
    apply Forall_fold_insert; [assumption|].
    apply Forall_map. now apply find_dimension_None in E.
  - unfold insertHybrid. rewrite Hmd. cbn [dimension isHybrid].
    destruct hybrid; simpl; [|assumption].
    destruct (find _ docs) as [d|] eqn:E; [assumption|].
    destruct (BM25.learn ln _ _) as [bm25'|msg];
      [|unfold well_formed; simpl; repeat split; assumption].
    destruct (BM25.generateBatch sqrt bm25' _ _) as [svs|msg];
      [|unfold well_formed; simpl; repeat split; assumption].
    simpl. apply well_formed_table; [now apply ids_fold_insert|].
    apply Forall_fold_insert; [assumption|].
    apply Forall_map. apply find_dimension_None in E.
    apply Forall_forall. intros [d sv] Hin. apply in_combine_l in Hin.
    rewrite Forall_forall in E. simpl. now apply E.
  - unfold delete.
    set (c1 := updateDocumentCount _).
    assert (H1 : well_formed dim hybrid c1).
    { unfold c1. rewrite Hmd. apply well_formed_table.
      - unfold delete_where_id_in. now apply distinct_keys_filter.
      - unfold delete_where_id_in. now apply Forall_filter. }
    clearbody c1. pose proof H1 as (Hnd1 & Hmd1 & Hdim1). rewrite Hmd1.
    destruct (bm25Generator c1) as [bm|]; [|exact H1].
    destruct (isHybrid _ && (0 <? _)%nat); [|exact H1].
    unfold well_formed; simpl; repeat split; assumption.
Qed.

Lemma well_formed_fold dim hybrid ops : forall c,
  well_formed dim hybrid c ->
  well_formed dim hybrid (fold_left (step ln sqrt bm25Config) ops c).
Proof.
  induction ops as [|op ops IH]; intros c H; simpl; [assumption|].
  apply IH. now apply well_formed_step.
Qed.

End StoreHistory.

(** X18.  Whatever inserts, hybrid inserts and deletes are made on a newly
    created collection, whether they succeed or throw, the table holds at
    most one row per id, the cached document count is the number of rows,
    every stored dense vector has the dimension of the collection, and the
    dimension and the kind of the collection stay what they were. *)
Theorem collection_stays_well_formed (ln sqrt : Q -> Q)
        (bm25Config : BM25.BM25Config) (dim : nat) (ops : list LibSQL.Op) :
  let dense := fold_left (LibSQL.step ln sqrt bm25Config) ops
                 (LibSQL.createCollection dim) in
  let hybrid := fold_left (LibSQL.step ln sqrt bm25Config) ops
                  (LibSQL.createHybridCollection bm25Config dim) in
  (NoDup (map LibSQL.id (LibSQL.documents dense))
   /\ LibSQL.metadataCache dense
      = Some {| LibSQL.dimension := dim; LibSQL.isHybrid := false;
                LibSQL.documentCount := List.length (LibSQL.documents dense) |}
   /\ Forall (fun r => List.length (LibSQL.dense_vector r) = dim)
        (LibSQL.documents dense))
  /\ (NoDup (map LibSQL.id (LibSQL.documents hybrid))
      /\ LibSQL.metadataCache hybrid
         = Some {| LibSQL.dimension := dim; LibSQL.isHybrid := true;
                   LibSQL.documentCount := List.length (LibSQL.documents hybrid) |}
      /\ Forall (fun r => List.length (LibSQL.dense_vector r) = dim)
           (LibSQL.documents hybrid)).
Proof.
  cbv zeta. split.
  - apply (well_formed_fold ln sqrt bm25Config dim false ops).
    repeat split; constructor.
  - apply (well_formed_fold ln sqrt bm25Config dim true ops).
    repeat split; constructor.
Qed.

Section UpsertFacts.
Import Js LibSQL.

Lemma filter_filter_comm {A} (p q : A -> bool) (l : list A) :
  filter p (filter q l) = filter (fun x => q x && p x) l.
Proof.
  induction l as [|a l IH]; simpl; [reflexivity|].
  destruct (q a); simpl; [|assumption]. destruct (p a); now rewrite IH.
Qed.

(** A batch of upserts removes the rows of the batch's ids and appends what
    the batch makes of the empty table. *)
Lemma fold_insert_split (rows : list Row) : forall t,
  fold_left insert_or_replace rows t
  = delete_where_id_in (map id rows) t ++ fold_left insert_or_replace rows [].
Proof.
  induction rows as [|r rows IH] using rev_ind; intros t.
  - simpl. unfold delete_where_id_in. simpl. rewrite app_nil_r.
    induction t as [|a t IHt]; simpl; congruence.
  - rewrite !fold_left_app. simpl. rewrite (IH t).
    unfold insert_or_replace at 1 3. rewrite filter_app, <- app_assoc. f_equal.
    unfold delete_where_id_in. rewrite filter_filter_comm.
    apply filter_ext. intros a. rewrite map_app. simpl.
    unfold arr_includes. rewrite existsb_app. simpl.
    rewrite orb_false_r, negb_orb. reflexivity.
Qed.

Lemma filter_none {A} (p : A -> bool) (l : list A) :
  (forall x, In x l -> p x = false) -> filter p l = [].
Proof.
  induction l as [|a l IH]; intros H; simpl; [reflexivity|].
  rewrite (H a) by now left. apply IH. intros x Hx. apply H. now right.
Qed.

Lemma fold_insert_ids (rows : list Row) : forall t r,
  In r (fold_left insert_or_replace rows t) -> In r t \/ In r rows.
Proof.
  induction rows as [|r0 rows IH]; intros t r H; simpl in *; [now left|].
  apply IH in H. destruct H as [H | H]; [|right; now right].
  unfold insert_or_replace in H. apply in_app_or in H.
  destruct H as [H | [<- | []]]; [|right; now left].
  apply filter_In in H. now left.
Qed.

Lemma fold_insert_idem (rows : list Row) (t : Table) :
  fold_left insert_or_replace rows (fold_left insert_or_replace rows t)
  = fold_left insert_or_replace rows t.
Proof.
  rewrite (fold_insert_split rows (fold_left insert_or_replace rows t)).
  rewrite (fold_insert_split rows t).
  set (F := fold_left insert_or_replace rows []).
  unfold delete_where_id_in at 1. rewrite filter_app. rewrite <- app_assoc.
  f_equal.
  - fold (delete_where_id_in (map id rows) (delete_where_id_in (map id rows) t)).
    unfold delete_where_id_in. rewrite filter_filter_comm.
    apply filter_ext. intros a. now rewrite andb_diag.
  - replace (filter _ F) with (@nil Row); [reflexivity|].
    symmetry. apply filter_none.
    intros r Hr. apply fold_insert_ids in Hr. destruct Hr as [[] | Hr].
    apply negb_false_iff, arr_includes_In. now apply in_map.
Qed.

End UpsertFacts.

(** X19.  [insert] is an upsert of the batch: the rows whose ids are not in
    the batch stay, in their order, and the batch's rows follow them (as the
    batch alone would fill an empty table); inserting the same batch again
    changes nothing at all. *)
Theorem insert_is_idempotent (c c1 : LibSQL.Collection)
        (docs : list LibSQL.VectorDocument) :
  LibSQL.insert c docs = Js.Ok c1 ->
  LibSQL.documents c1
  = LibSQL.delete_where_id_in (map LibSQL.doc_id docs) (LibSQL.documents c)
    ++ fold_left LibSQL.insert_or_replace (map LibSQL.rowOfDocument docs) []
  /\ LibSQL.insert c1 docs = Js.Ok c1.
Proof.
  intros H. split.
  - rewrite (insert_documents c docs c1 H), fold_insert_split.
    rewrite map_map. reflexivity.
  - revert H. unfold LibSQL.insert.
    destruct (LibSQL.metadataCache c) as [md|] eqn:Emd; [|discriminate].
    destruct (find _ docs) as [d|] eqn:E; [discriminate|].
    intros H. injection H as <-. unfold LibSQL.updateDocumentCount. simpl.
    rewrite E. rewrite fold_insert_idem. reflexivity.
Qed.

Lemma insert_is_idempotent_witness :
  LibSQL.insert LibSQL.plane_collection
    [LibSQL.vec_doc "far" [3; 0] "the dog"; LibSQL.vec_doc "near" [1; 0] "the fox";
     LibSQL.vec_doc "mid" [2; 0] "fox dog"]
  = Js.Ok LibSQL.plane_collection.
Proof.
  apply (insert_is_idempotent (LibSQL.empty_collection 2 false)
           LibSQL.plane_collection
           [LibSQL.vec_doc "far" [3; 0] "the dog";
            LibSQL.vec_doc "near" [1; 0] "the fox";
            LibSQL.vec_doc "mid" [2; 0] "fox dog"] eq_refl).
Defined.

Section DeleteFacts.
Import Js LibSQL.
Variable learn : BM25.Model -> list string -> BM25.Model.

Lemma delete_result c ids :
  exists c1,
    delete learn c ids = Ok c1
    /\ documents c1 = delete_where_id_in ids (documents c)
    /\ (documents c1 = [] -> bm25Generator c1 = bm25Generator c).
Proof.
  unfold delete.
  set (c1 := updateDocumentCount _).
  assert (Hd : documents c1 = delete_where_id_in ids (documents c)) by reflexivity.
  assert (Hg : bm25Generator c1 = bm25Generator c) by reflexivity.
  clearbody c1.
  destruct (metadataCache c1) as [md|]; [|eauto].
  destruct (bm25Generator c1) as [bm|] eqn:Eg; [|exists c1; rewrite Eg; auto].
  destruct (isHybrid md && (0 <? List.length (map content (documents c1)))%nat) eqn:E.
  - eexists. split; [reflexivity|]. split; [exact Hd|]. simpl.
    intros Hnil. rewrite Hnil in E. simpl in E. rewrite andb_false_r in E. discriminate.
  - exists c1. rewrite Eg. auto.
Qed.

End DeleteFacts.

(** X20.  [delete] always succeeds.  It removes nothing when none of the
    ids is stored (the empty list of ids among them); deleting the same ids
    again leaves the table as it is; and when it removes the last row of the
    collection the BM25 generator is left as it was, not retrained. *)
Theorem delete_is_idempotent (learn : BM25.Model -> list string -> BM25.Model)
        (c : LibSQL.Collection) (ids : list string) :
  exists c1,
    LibSQL.delete learn c ids = Js.Ok c1
    /\ ((forall r, In r (LibSQL.documents c) -> ~ In (LibSQL.id r) ids) ->
        LibSQL.documents c1 = LibSQL.documents c)
    /\ (exists c2, LibSQL.delete learn c1 ids = Js.Ok c2
                   /\ LibSQL.documents c2 = LibSQL.documents c1)
    /\ (LibSQL.documents c1 = [] ->
        LibSQL.bm25Generator c1 = LibSQL.bm25Generator c).
Proof.
  destruct (delete_result learn c ids) as (c1 & H1 & Hd1 & Hg1).
  exists c1. split; [exact H1|]. split; [|split; [|exact Hg1]].
  - rewrite Hd1. unfold LibSQL.delete_where_id_in.
    generalize (LibSQL.documents c). intros t.
    induction t as [|r t IH]; intros Habsent; [reflexivity|]. simpl.
    destruct (Js.arr_includes ids (LibSQL.id r)) eqn:E.
    + apply arr_includes_In in E. exfalso. apply (Habsent r); [now left | assumption].
    + simpl. f_equal. apply IH. intros r' Hr'. apply Habsent. now right.
  - destruct (delete_result learn c1 ids) as (c2 & H2 & Hd2 & _).
    exists c2. split; [exact H2|]. rewrite Hd2, Hd1.
    unfold LibSQL.delete_where_id_in. rewrite filter_filter_comm.
    apply filter_ext. intros a. now rewrite andb_diag.
Qed.

Section HybridInsert.
Import Js LibSQL.
Variables ln sqrt : Q -> Q.
Variable bm25Config : BM25.BM25Config.





End HybridInsert.



(** X22.  [insertHybrid] throws on a collection that is not hybrid and
    leaves it untouched.  On an empty hybrid collection an empty batch makes
    it throw [Cannot learn from empty corpus], no row being written, whereas
    [insert] of an empty batch succeeds. *)
Theorem insertHybrid_errors (ln sqrt : Q -> Q) (bm25Config : BM25.BM25Config)
        (c : LibSQL.Collection) (md : LibSQL.CollectionMetadata)
        (docs : list LibSQL.VectorDocument) :
  LibSQL.metadataCache c = Some md ->
  (LibSQL.isHybrid md = false ->
   LibSQL.insertHybrid ln sqrt bm25Config c docs
   = (Js.Throw "Collection is not a hybrid collection", c))
  /\ (LibSQL.isHybrid md = true -> LibSQL.documents c = [] ->
      fst (LibSQL.insertHybrid ln sqrt bm25Config c [])
      = Js.Throw "Cannot learn from empty corpus"
      /\ LibSQL.documents (snd (LibSQL.insertHybrid ln sqrt bm25Config c [])) = []
      /\ exists c', LibSQL.insert c [] = Js.Ok c' /\ LibSQL.documents c' = []).
Proof.
  intros Hmd. split.
  - intros Hhyb. unfold LibSQL.insertHybrid. now rewrite Hmd, Hhyb.
  - intros Hhyb Hempty. unfold LibSQL.insertHybrid, LibSQL.insert.
    rewrite Hmd, Hhyb, Hempty. simpl. repeat split.
    eexists. split; reflexivity.
Qed.

Lemma insertHybrid_errors_witness :
  LibSQL.insertHybrid (fun x => x) BM25.approx_sqrt
    {| BM25.cfg_k1 := None; BM25.cfg_b := None; BM25.cfg_minTermLength := None;
       BM25.cfg_stopWords := None |}
    LibSQL.plane_collection [LibSQL.vec_doc "new" [0; 1] "lazy dog"]
  = (Js.Throw "Collection is not a hybrid collection", LibSQL.plane_collection).
Proof.
  apply (insertHybrid_errors (fun x => x) BM25.approx_sqrt
           {| BM25.cfg_k1 := None; BM25.cfg_b := None;
              BM25.cfg_minTermLength := None; BM25.cfg_stopWords := None |}
           LibSQL.plane_collection
           {| LibSQL.dimension := 2; LibSQL.isHybrid := false;
              LibSQL.documentCount := 3 |}
           [LibSQL.vec_doc "new" [0; 1] "lazy dog"] eq_refl).
  reflexivity.
Defined.

Section Projection.
Import Js LibSQL.




End Projection.



(** ** The remote store adapter: requests and point ids *)

Section QdrantRequests.
Import Js Qdrant.

(** X24.  The hybrid search of the Qdrant adapter looks at the first
    request whose data is a vector and the first whose data is a text, in
    whatever order they come, and at no other request: it answers as it
    would for just these two; and it throws when either is missing. *)
Theorem qdrant_hybrid_uses_first_requests
        (points_search : list Q -> nat -> option Filter -> list Point)
        (points_query : list Q -> nat -> BM25.SparseVector -> nat -> nat ->
                        option Filter -> list Point)
        (sqrt : Q -> Q) (bm25Generator : BM25.Model)
        (searchRequests : list HybridSearchRequest)
        (options : LibSQL.HybridSearchOptions) :
  match find isVector searchRequests, find isText searchRequests with
  | Some dense, Some text =>
      hybridSearch points_search points_query sqrt bm25Generator searchRequests options
      = hybridSearch points_search points_query sqrt bm25Generator [dense; text] options
      /\ hybridSearch points_search points_query sqrt bm25Generator [text; dense] options
         = hybridSearch points_search points_query sqrt bm25Generator [dense; text] options
  | _, _ =>
      hybridSearch points_search points_query sqrt bm25Generator searchRequests options
      = (Throw "Hybrid search requires one dense vector request (number[] data) and one text request (string data).",
         [])
  end.
Proof.
  unfold hybridSearch.
  destruct (find isVector searchRequests) as [dense|] eqn:Ed; [|reflexivity].
  destruct (find isText searchRequests) as [text|] eqn:Et; [|now destruct dense as [[]]].
  apply find_some in Ed, Et. destruct Ed as [_ Hd], Et as [_ Ht].
  destruct dense as [[v|s] dl]; [|discriminate].
  destruct text as [[v'|s'] tl]; [discriminate|].
  split; reflexivity.
Qed.

End QdrantRequests.

Section PointIds.
Import Js Qdrant.

Lemma strip_prefix_Some (p : string) : forall s r,
  strip_prefix p s = Some r -> s = (p ++ r)%string.
Proof.
  induction p as [|a p IH]; intros s r H; simpl in *; [congruence|].
  destruct s as [|c s]; [discriminate|].
  destruct (Ascii.eqb a c) eqn:E; [|discriminate].
  apply Ascii.eqb_eq in E. subst c. f_equal. now apply IH.
Qed.

Lemma trim_end_no_space (s : string) :
  forallb (fun c => negb (is_space c)) (list_ascii_of_string s) = true ->
  trim_end s = s.
Proof.
  induction s as [|c s IH]; simpl; [reflexivity|].
  intros H. apply andb_prop in H. destruct H as [Hc Hs].
  rewrite (IH Hs). destruct s; [|reflexivity].
  apply negb_true_iff in Hc. now rewrite Hc.
Qed.

Lemma lower_hex_digit (c : ascii) :
  is_lower_hex c = true ->
  is_space c = false
  /\ exists d, hex_digit c = Some d /\ (d < 16)%N.
Proof.
  destruct c as [b0 b1 b2 b3 b4 b5 b6 b7].
  destruct b0, b1, b2, b3, b4, b5, b6, b7; try discriminate;
    (intros _; split; [reflexivity | eexists; split; [reflexivity | reflexivity]]).
Qed.

Lemma lower_hex_digit_inj (c1 c2 : ascii) :
  is_lower_hex c1 = true -> is_lower_hex c2 = true ->
  hex_digit c1 = hex_digit c2 -> c1 = c2.
Proof.
  destruct c1 as [a0 a1 a2 a3 a4 a5 a6 a7].
  destruct a0, a1, a2, a3, a4, a5, a6, a7; try discriminate;
    (destruct c2 as [b0 b1 b2 b3 b4 b5 b6 b7];
     destruct b0, b1, b2, b3, b4, b5, b6, b7; try discriminate;
     intros _ _ H; (reflexivity || discriminate H)).
Qed.

Lemma hex_value_acc (s : string) : forall acc,
  forallb is_lower_hex (list_ascii_of_string s) = true ->
  exists v, hex_value 0 s = Some v
            /\ (v < 16 ^ N.of_nat (String.length s))%N
            /\ hex_value acc s = Some (acc * 16 ^ N.of_nat (String.length s) + v)%N.
Proof.
  induction s as [|c s IH]; intros acc H.
  - exists 0%N. simpl. split; [reflexivity|]. split; [lia | f_equal; lia].
  - simpl in H. apply andb_prop in H. destruct H as [Hc Hs].
    destruct (lower_hex_digit c Hc) as (_ & d & Hd & Hlt).
    cbn [hex_value String.length]. rewrite Hd.
    destruct (IH (16 * 0 + d)%N Hs) as (v & Hv0 & Hvlt & Hv).
    destruct (IH (16 * acc + d)%N Hs) as (v' & Hv0' & _ & Hv').
    assert (v' = v) by congruence. subst v'.
    rewrite Nat2N.inj_succ, N.pow_succ_r'.
    exists (d * 16 ^ N.of_nat (String.length s) + v)%N.
    split; [rewrite Hv; f_equal; lia|]. split; [nia|].
    rewrite Hv'. f_equal. lia.
Qed.

Lemma hex_value_inj (s1 : string) : forall s2,
  String.length s1 = String.length s2 ->
  forallb is_lower_hex (list_ascii_of_string s1) = true ->
  forallb is_lower_hex (list_ascii_of_string s2) = true ->
  hex_value 0 s1 = hex_value 0 s2 -> s1 = s2.
Proof.
  induction s1 as [|c1 s1 IH]; intros [|c2 s2] Hlen H1 H2 Heq;
    try discriminate; [reflexivity|].
  simpl in Hlen, H1, H2. injection Hlen as Hlen.
  apply andb_prop in H1, H2. destruct H1 as [Hc1 Hs1], H2 as [Hc2 Hs2].
  destruct (lower_hex_digit c1 Hc1) as (_ & d1 & Hd1 & Hlt1).
  destruct (lower_hex_digit c2 Hc2) as (_ & d2 & Hd2 & Hlt2).
  cbn [hex_value] in Heq. rewrite Hd1, Hd2 in Heq.
  destruct (hex_value_acc s1 (16 * 0 + d1)%N Hs1) as (v1 & Hv1 & Hb1 & Ha1).
  destruct (hex_value_acc s2 (16 * 0 + d2)%N Hs2) as (v2 & Hv2 & Hb2 & Ha2).
  rewrite Ha1, Ha2 in Heq. injection Heq as Heq. rewrite <- Hlen in *.
  set (P := (16 ^ N.of_nat (String.length s1))%N) in *.
  assert (Hd : d1 = d2) by nia.
  assert (Hv : v1 = v2) by nia.
  f_equal.
  - apply lower_hex_digit_inj; congruence.
  - apply IH; congruence.
Qed.

Lemma chunk_id_shape (chunkId : string) :
  is_chunk_id chunkId = true ->
  exists hex,
    chunkId = ("chunk_" ++ hex)%string
    /\ String.length hex = 16%nat
    /\ forallb is_lower_hex (list_ascii_of_string hex) = true
    /\ convertToNumericId chunkId
       = match hex_value 0 hex with
         | Some n => Ok n
         | None => Throw ("SyntaxError: Cannot convert 0x" ++ hex ++ " to a BigInt")
         end.
Proof.
  unfold is_chunk_id, convertToNumericId.
  destruct (strip_prefix "chunk_" chunkId) as [hex|] eqn:E; [|discriminate].
  intros H. apply andb_prop in H. destruct H as [Hlen Hhex].
  apply Nat.eqb_eq in Hlen. exists hex.
  split; [now apply strip_prefix_Some|]. split; [assumption|]. split; [assumption|].
  assert (Hrem : remove_first "chunk_" chunkId = hex).
  { destruct chunkId; cbn [remove_first]; rewrite E; reflexivity. }
  rewrite Hrem. unfold BigInt_0x.
  rewrite trim_end_no_space.
  - destruct hex; [discriminate | reflexivity].
  - clear -Hhex. induction hex as [|c hex IH]; simpl in *; [reflexivity|].
    apply andb_prop in Hhex. destruct Hhex as [Hc Hs].
    destruct (lower_hex_digit c Hc) as [Hsp _]. rewrite Hsp. simpl. now apply IH.
Qed.

(** X25.  For chunk ids of the documented form ([chunk_] and 16 lower-case
    hexadecimal digits) [convertToNumericId] returns a number below [2 ^ 64]
    and different ids get different numbers. *)
Theorem convertToNumericId_injective (id1 id2 : string) :
  is_chunk_id id1 = true -> is_chunk_id id2 = true ->
  (exists n, convertToNumericId id1 = Ok n /\ (n < 2 ^ 64)%N)
  /\ (convertToNumericId id1 = convertToNumericId id2 -> id1 = id2).
Proof.
  intros H1 H2.
  destruct (chunk_id_shape id1 H1) as (h1 & -> & Hlen1 & Hhex1 & Hc1).
  destruct (chunk_id_shape id2 H2) as (h2 & -> & Hlen2 & Hhex2 & Hc2).
  destruct (hex_value_acc h1 0%N Hhex1) as (v1 & Hv1 & Hb1 & _).
  destruct (hex_value_acc h2 0%N Hhex2) as (v2 & Hv2 & Hb2 & _).
  rewrite Hc1, Hc2, Hv1, Hv2. rewrite Hlen1 in Hb1. split.
  - exists v1. split; [reflexivity|]. exact Hb1.
  - intros Heq. injection Heq as Heq. f_equal.
    apply hex_value_inj; congruence.
Qed.

Lemma convertToNumericId_injective_witness :
  convertToNumericId "chunk_edf5558e3dbbf10b" = Ok 17146705225692475659%N
  /\ (convertToNumericId "chunk_edf5558e3dbbf10b"
      = convertToNumericId "chunk_edf5558e3dbbf10c" ->
      "chunk_edf5558e3dbbf10b"%string = "chunk_edf5558e3dbbf10c"%string).
Proof.
  split; [reflexivity|].
  apply (convertToNumericId_injective "chunk_edf5558e3dbbf10b"
           "chunk_edf5558e3dbbf10c" eq_refl eq_refl).
Defined.

End PointIds.

(** ** Saving and loading the BM25 model *)

Section Serialisation.
Import Js BM25.

Lemma map_of_entries_id {V} (m : JsMap.t string V) :
  NoDup (JsMap.keys m) -> map_of_entries (JsMap.entries m) = m.
Proof.
  intros Hnd. unfold map_of_entries, JsMap.entries.
  rewrite (fold_set_fresh (fun e : string * V => fst e) (fun e => snd e) m JsMap.empty).
  - simpl. induction m as [|[k v] m IH]; simpl; [reflexivity|].
    f_equal. apply IH. now inversion Hnd.
  - exact Hnd.
  - intros x _ [].
Qed.

Lemma uniqueTerms_id (l : list string) : NoDup l -> uniqueTerms l = l.
Proof.
  intros Hnd. unfold uniqueTerms.
  rewrite (fold_set_fresh (fun t : string => t) (fun _ => tt) l JsMap.empty).
  - simpl. unfold JsMap.keys. rewrite map_map. simpl. apply map_id.
  - now rewrite map_id.
  - intros x _ [].
Qed.

Lemma fromJSON_toJSON (m : Model) :
  NoDup (stopWords m) -> NoDup (JsMap.keys (vocabulary m)) ->
  NoDup (JsMap.keys (idf m)) ->
  fromJSON (toJSON m) = m.
Proof.
  intros Hs Hv Hi. unfold fromJSON, toJSON, new. simpl.
  rewrite uniqueTerms_id, !map_of_entries_id by assumption.
  destruct m; reflexivity.
Qed.

End Serialisation.

(** X26.  Saving and loading give the model back: [fromJSON (toJSON m)] is
    [m] for a model fresh from the constructor and for every model [learn]
    returns, the stop words being a set. *)
Theorem bm25_json_round_trip (ln : Q -> Q) (config : BM25.BM25Config)
        (doc : string) (docs : list string) :
  NoDup (BM25.stopWords (BM25.new config)) ->
  BM25.fromJSON (BM25.toJSON (BM25.new config)) = BM25.new config
  /\ exists m,
       BM25.learn ln (BM25.new config) (doc :: docs) = Js.Ok m
       /\ BM25.fromJSON (BM25.toJSON m) = m.
Proof.
  intros Hs. split.
  - apply fromJSON_toJSON; [assumption | constructor | constructor].
  - eexists. split; [apply learn_spec|].
    apply fromJSON_toJSON; cbn [BM25.stopWords BM25.vocabulary BM25.idf].
    + assumption.
    + unfold JsMap.keys. rewrite map_fst_combine_seq. apply uniqueTerms_NoDup.
    + unfold JsMap.keys. rewrite map_map. simpl. rewrite map_id.
      apply uniqueTerms_NoDup.
Qed.

Lemma bm25_json_round_trip_witness :
  exists m,
    BM25.learn (fun x => x)
      (BM25.new {| BM25.cfg_k1 := None; BM25.cfg_b := None;
                   BM25.cfg_minTermLength := None;
                   BM25.cfg_stopWords := Some ["the"%string] |})
      ["the fox"; "the dog"]%string = Js.Ok m
    /\ BM25.fromJSON (BM25.toJSON m) = m.
Proof.
  apply (bm25_json_round_trip (fun x => x)
           {| BM25.cfg_k1 := None; BM25.cfg_b := None;
              BM25.cfg_minTermLength := None;
              BM25.cfg_stopWords := Some ["the"%string] |}
           "the fox"%string ["the dog"%string]).
  simpl. repeat constructor. intros [].
Defined.

(** ** The in-memory double of the store *)

Section FakeStore.
Import Js FakeDB.

Lemma delete_delete {V} (m : JsMap.t string V) k :
  JsMap.delete (JsMap.delete m k) k = JsMap.delete m k.
Proof.
  unfold JsMap.delete. rewrite filter_filter_comm.
  apply filter_ext. intros a. now rewrite andb_diag.
Qed.

End FakeStore.

(** X27.  After [injectFailure], the next writing call that gets as far as
    the check throws [Injected failure for testing], changes no collection
    and clears the flag.  [insert], [insertHybrid] and [delete] look for
    their collection first: on a collection that does not exist they throw
    [Collection '...' not found] and the injected failure stays pending. *)
Theorem injected_failure_hits_next_call (s : FakeDB.State) (c : FakeDB.Call) :
  FakeDB.shouldFailNextOperation s = true ->
  let consumed :=
    (@Js.Throw unit "Injected failure for testing",
     {| FakeDB.collections := FakeDB.collections s;
        FakeDB.shouldFailNextOperation := false;
        FakeDB.operationDelay := FakeDB.operationDelay s |}) in
  match FakeDB.needs_collection c with
  | Some n =>
      if FakeDB.hasCollection s n then FakeDB.perform c s = consumed
      else FakeDB.perform c s
           = (Js.Throw ("Collection '" ++ n ++ "' not found"), s)
  | None => FakeDB.perform c s = consumed
  end.
Proof.
  intros Hflag. cbv zeta.
  destruct c as [n d | n d | n | n docs | n docs | n ids]; simpl;
    unfold FakeDB.createCollection, FakeDB.createHybridCollection,
      FakeDB.dropCollection, FakeDB.insert, FakeDB.insertHybrid, FakeDB.delete,
      FakeDB.bind, FakeDB.throwIfFailureInjected, FakeDB.ensureLoaded,
      FakeDB.hasCollection;
    try (rewrite Hflag; reflexivity);
    destruct (JsMap.has (FakeDB.collections s) n); simpl;
    try rewrite Hflag; reflexivity.
Qed.

Lemma injected_failure_hits_next_call_witness :
  FakeDB.perform (FakeDB.CallCreateCollection "code" 3)
    (FakeDB.injectFailure FakeDB.initial)
  = (Js.Throw "Injected failure for testing", FakeDB.initial)
  /\ FakeDB.perform (FakeDB.CallDelete "code" ["a"%string])
       (FakeDB.injectFailure FakeDB.initial)
     = (Js.Throw "Collection 'code' not found", FakeDB.injectFailure FakeDB.initial).
Proof.
  split.
  - apply (injected_failure_hits_next_call (FakeDB.injectFailure FakeDB.initial)
             (FakeDB.CallCreateCollection "code" 3) eq_refl).
  - reflexivity.
Defined.

(** X28.  [insert] of the double appends: with no failure injected, on an
    existing collection and a batch of its dimension, the stored documents
    are the old ones followed by the batch, whatever their ids, so the count
    grows by the size of the batch and a document inserted twice is stored
    twice; the other collections and the list of collections do not change.
    [delete] then removes every stored document with one of the ids. *)
Theorem fake_insert_appends (s : FakeDB.State) (n : string)
        (collection : FakeDB.FakeCollection) (docs : list LibSQL.VectorDocument)
        (ids : list string) :
  FakeDB.shouldFailNextOperation s = false ->
  JsMap.get (FakeDB.collections s) n = Some collection ->
  Forall (fun d => List.length (LibSQL.doc_vector d) = FakeDB.dimension collection)
    docs ->
  exists s' s'',
    FakeDB.insert n docs s = (Js.Ok tt, s')
    /\ FakeDB.getStoredDocuments s' n = FakeDB.documents collection ++ docs
    /\ FakeDB.getCollectionDocumentCount s' n
       = (FakeDB.getCollectionDocumentCount s n + List.length docs)%nat
    /\ (forall m, m <> n ->
          FakeDB.getStoredDocuments s' m = FakeDB.getStoredDocuments s m)
    /\ FakeDB.listCollections s' = FakeDB.listCollections s
    /\ FakeDB.delete n ids s' = (Js.Ok tt, s'')
    /\ FakeDB.getStoredDocuments s'' n
       = filter (fun d => negb (Js.arr_includes ids (LibSQL.doc_id d)))
           (FakeDB.documents collection ++ docs)
    /\ (forall d, In d (FakeDB.getStoredDocuments s'' n) ->
          ~ In (LibSQL.doc_id d) ids).
Proof.
  intros Hflag Hget Hdim.
  assert (Hhas : JsMap.has (FakeDB.collections s) n = true)
    by (unfold JsMap.has; now rewrite Hget).
  eexists. eexists.
  split.
  { unfold FakeDB.insert, FakeDB.bind, FakeDB.ensureLoaded,
      FakeDB.throwIfFailureInjected, FakeDB.the_collection, FakeDB.push_documents.
    rewrite Hhas. cbn [negb]. cbv beta iota. rewrite Hflag. cbv beta iota.
    rewrite Hget. rewrite (find_dimension_all _ _ Hdim). reflexivity. }
  unfold FakeDB.getStoredDocuments, FakeDB.getCollectionDocumentCount,
    FakeDB.listCollections, FakeDB.with_collections.
  cbn [FakeDB.collections]. rewrite get_set_same, Hget. cbn [FakeDB.documents].
  split; [reflexivity|]. split; [now rewrite length_app|].
  split; [intros m Hm; now rewrite get_set_other by congruence|].
  split; [rewrite keys_set, Hhas; reflexivity|].
  split.
  { unfold FakeDB.delete, FakeDB.bind, FakeDB.ensureLoaded,
      FakeDB.throwIfFailureInjected, FakeDB.the_collection, FakeDB.with_collections.
    cbn [FakeDB.collections FakeDB.shouldFailNextOperation].
    unfold JsMap.has. rewrite get_set_same. cbn [negb]. cbv beta iota.
    cbn [FakeDB.shouldFailNextOperation]. rewrite Hflag. cbv beta iota.
    cbn [FakeDB.collections]. rewrite get_set_same. reflexivity. }
  cbn [FakeDB.collections FakeDB.with_collections]. rewrite get_set_same.
  cbn [FakeDB.documents]. split; [reflexivity|].
  intros d Hd. apply filter_In in Hd. destruct Hd as [_ Hd].
  apply negb_true_iff in Hd. intros Hin. apply arr_includes_In in Hin. congruence.
Qed.

Lemma fake_insert_appends_witness :
  exists s1 s2 s3,
    FakeDB.createCollection "code" 2 FakeDB.initial = (Js.Ok tt, s1)
    /\ FakeDB.insert "code" [LibSQL.vec_doc "a" [1; 0] "x"] s1 = (Js.Ok tt, s2)
    /\ FakeDB.insert "code" [LibSQL.vec_doc "a" [1; 0] "x"] s2 = (Js.Ok tt, s3)
    /\ FakeDB.getCollectionDocumentCount s3 "code" = 2%nat.
Proof.
  eexists. eexists.
  destruct (fake_insert_appends
              (snd (FakeDB.insert "code" [LibSQL.vec_doc "a" [1; 0] "x"]
                      (snd (FakeDB.createCollection "code" 2 FakeDB.initial))))
              "code"
              {| FakeDB.name := "code"; FakeDB.dimension := 2;
                 FakeDB.isHybrid := false;
                 FakeDB.documents := [LibSQL.vec_doc "a" [1; 0] "x"] |}
              [LibSQL.vec_doc "a" [1; 0] "x"] [] eq_refl eq_refl)
    as (s3 & _ & Hins & _ & Hcount & _).
  { repeat constructor. }
  exists s3. split; [reflexivity|]. split; [reflexivity|].
  split; [exact Hins | exact Hcount].
Defined.

(** X29.  On a batch whose ids are new and pairwise distinct the double
    and the LibSQL store agree: if they listed the same ids before, in the
    same order, they list the same ids after their [insert]. *)
Theorem fake_agrees_with_libsql_on_new_ids (s s' : FakeDB.State) (n : string)
        (c c' : LibSQL.Collection) (docs : list LibSQL.VectorDocument) :
  map LibSQL.id (LibSQL.documents c)
  = map LibSQL.doc_id (FakeDB.getStoredDocuments s n) ->
  NoDup (map LibSQL.id (LibSQL.documents c) ++ map LibSQL.doc_id docs) ->
  LibSQL.insert c docs = Js.Ok c' ->
  FakeDB.insert n docs s = (Js.Ok tt, s') ->
  map LibSQL.id (LibSQL.documents c')
  = map LibSQL.doc_id (FakeDB.getStoredDocuments s' n).
Proof.
  intros Hsame Hnd Hlib Hfake.
  rewrite (insert_documents c docs c' Hlib).
  assert (Hstored : FakeDB.getStoredDocuments s' n
                    = FakeDB.getStoredDocuments s n ++ docs).
  { revert Hfake.
    unfold FakeDB.insert, FakeDB.bind, FakeDB.ensureLoaded,
      FakeDB.throwIfFailureInjected, FakeDB.the_collection, FakeDB.push_documents,
      FakeDB.getStoredDocuments.
    destruct (JsMap.has (FakeDB.collections s) n); [|discriminate]. cbn [negb].
    destruct (FakeDB.shouldFailNextOperation s); [discriminate|].
    destruct (JsMap.get (FakeDB.collections s) n) as [col|]; [|discriminate].
    destruct (find _ docs); [discriminate|].
    intros H. injection H as <-. cbn [FakeDB.collections FakeDB.with_collections].
    now rewrite get_set_same. }
  rewrite Hstored, map_app, <- Hsame. clear Hstored Hsame Hlib Hfake.
  revert Hnd. generalize (LibSQL.documents c). clear.
  induction docs as [|d docs IH]; intros t Hnd; simpl.
  - now rewrite app_nil_r.
  - rewrite IH.
    + unfold LibSQL.insert_or_replace. rewrite map_app. simpl.
      rewrite <- app_assoc. simpl. f_equal.
      f_equal. clear IH. induction t as [|r t IHt]; [reflexivity|]. simpl.
      assert (Hne : LibSQL.id r <> LibSQL.doc_id d).
      { intros E. simpl in Hnd. inversion Hnd as [|? ? Hr _]; subst.
        apply Hr. apply in_or_app. right. left. now symmetry. }
      apply String.eqb_neq in Hne. rewrite Hne. simpl. f_equal.
      apply IHt. simpl in Hnd. now inversion Hnd.
    + unfold LibSQL.insert_or_replace. rewrite map_app. simpl.
      assert (Hf : filter (fun r' => negb (LibSQL.id r' =? LibSQL.doc_id d)%string) t = t).
      { clear IH. induction t as [|r t IHt]; [reflexivity|]. simpl.
        assert (Hne : LibSQL.id r <> LibSQL.doc_id d).
        { intros E. simpl in Hnd. inversion Hnd as [|? ? Hr _]; subst.
          apply Hr. apply in_or_app. right. left. now symmetry. }
        apply String.eqb_neq in Hne. rewrite Hne. simpl. f_equal.
        apply IHt. simpl in Hnd. now inversion Hnd. }
      rewrite Hf, <- app_assoc. exact Hnd.
Qed.

Lemma fake_agrees_with_libsql_on_new_ids_witness :
  exists s' c',
    FakeDB.insert "code" [LibSQL.vec_doc "a" [1; 0] "x"; LibSQL.vec_doc "b" [0; 1] "y"]
      (snd (FakeDB.createCollection "code" 2 FakeDB.initial)) = (Js.Ok tt, s')
    /\ LibSQL.insert (LibSQL.createCollection 2)
         [LibSQL.vec_doc "a" [1; 0] "x"; LibSQL.vec_doc "b" [0; 1] "y"] = Js.Ok c'
    /\ map LibSQL.id (LibSQL.documents c')
       = map LibSQL.doc_id (FakeDB.getStoredDocuments s' "code").
Proof.
  eexists. eexists. split; [reflexivity|]. split; [reflexivity|].
  apply (fake_agrees_with_libsql_on_new_ids
           (snd (FakeDB.createCollection "code" 2 FakeDB.initial)) _ "code"
           (LibSQL.createCollection 2) _
           [LibSQL.vec_doc "a" [1; 0] "x"; LibSQL.vec_doc "b" [0; 1] "y"]).
  - reflexivity.
  - simpl. repeat constructor; simpl; intros H;
      repeat (destruct H as [H | H]; [discriminate H|]); exact H.
  - reflexivity.
  - reflexivity.
Defined.

(** X30.  The collections of the double.  With no failure injected,
    creating a collection that does not exist succeeds: it is then listed
    last, is empty and not hybrid, and creating it again, hybrid or not,
    throws [Collection '...' already exists].  Dropping always succeeds,
    whether the collection exists or not, leaves the other collections as
    they were, and can be repeated. *)
Theorem fake_collection_lifecycle (s : FakeDB.State) (n : string) (dim : nat) :
  FakeDB.shouldFailNextOperation s = false ->
  (FakeDB.hasCollection s n = false ->
   exists s',
     FakeDB.createCollection n dim s = (Js.Ok tt, s')
     /\ FakeDB.hasCollection s' n = true
     /\ FakeDB.listCollections s' = FakeDB.listCollections s ++ [n]
     /\ FakeDB.getCollectionDocumentCount s' n = 0%nat
     /\ FakeDB.isHybridCollection s' n = false
     /\ FakeDB.createCollection n dim s'
        = (Js.Throw ("Collection '" ++ n ++ "' already exists"), s')
     /\ FakeDB.createHybridCollection n dim s'
        = (Js.Throw ("Collection '" ++ n ++ "' already exists"), s'))
  /\ exists s',
       FakeDB.dropCollection n s = (Js.Ok tt, s')
       /\ FakeDB.hasCollection s' n = false
       /\ FakeDB.getCollectionDocumentCount s' n = 0%nat
       /\ (forall m, m <> n ->
             FakeDB.getStoredDocuments s' m = FakeDB.getStoredDocuments s m)
       /\ FakeDB.dropCollection n s' = (Js.Ok tt, s').
Proof.
  intros Hflag. split.
  - intros Hhas. unfold FakeDB.hasCollection in Hhas.
    eexists. split.
    { unfold FakeDB.createCollection, FakeDB.bind, FakeDB.throwIfFailureInjected,
        FakeDB.new_collection.
      rewrite Hflag. cbv beta iota. rewrite Hhas. reflexivity. }
    unfold FakeDB.hasCollection, FakeDB.listCollections,
      FakeDB.getCollectionDocumentCount, FakeDB.isHybridCollection,
      FakeDB.createCollection, FakeDB.createHybridCollection, FakeDB.bind,
      FakeDB.throwIfFailureInjected, FakeDB.new_collection, FakeDB.with_collections.
    cbn [FakeDB.collections FakeDB.shouldFailNextOperation].
    unfold JsMap.has in *. rewrite !get_set_same, Hflag. cbv beta iota.
    cbn [FakeDB.collections]. rewrite !get_set_same.
    repeat split.
    rewrite keys_set. unfold JsMap.has. now rewrite Hhas.
  - eexists. split.
    { unfold FakeDB.dropCollection, FakeDB.bind, FakeDB.throwIfFailureInjected.
      rewrite Hflag. reflexivity. }
    unfold FakeDB.hasCollection, FakeDB.getCollectionDocumentCount,
      FakeDB.getStoredDocuments, FakeDB.dropCollection, FakeDB.bind,
      FakeDB.throwIfFailureInjected, FakeDB.with_collections.
    cbn [FakeDB.collections FakeDB.shouldFailNextOperation].
    unfold JsMap.has. rewrite !get_delete_same, Hflag. cbv beta iota.
    cbn [FakeDB.collections]. rewrite delete_delete.
    repeat split.
    intros m Hm. now rewrite get_delete_other by congruence.
Qed.

Lemma fake_collection_lifecycle_witness :
  exists s',
    FakeDB.createCollection "code" 3 FakeDB.initial = (Js.Ok tt, s')
    /\ FakeDB.listCollections s' = ["code"%string].
Proof.
  destruct (fake_collection_lifecycle FakeDB.initial "code" 3 eq_refl)
    as [Hcreate _].
  destruct (Hcreate eq_refl) as (s' & Hc & _ & Hl & _).
  exists s'. split; [exact Hc | exact Hl].
Defined.
